(** * tcp-info: parser, differ and saver, embedded and verified

    A shallow embedding of the parts of the tcp-info collector that decode
    netlink attribute payloads ([tcpinfo.go]), classify the difference between
    two scans of one connection ([Compare]) and write per-connection files
    ([saver.go]), together with the properties the specification states
    about them.

    Conventions of the embedding:
    - a Go [[]byte] is a [list byte]; the bytes of a slice that lives in
      memory are read out of a heap of backing arrays;
    - unsigned and signed machine integers are [Z] with the wrap-around
      written out ([wrap64], [wrap_int]);
    - a Go run-time panic (index or slice bound out of range, nil pointer
      dereference, integer division by zero) is the result [None] of a
      function into [option];
    - a Go [error] value is a [string]; [nil] is [None]. *)

From Stdlib Require Import ZArith List Lia Bool Ascii String DecimalString.
From Stdlib Require Import Init.Byte Strings.Byte.
From stdpp Require Import base option list gmap.
Import ListNotations.

Local Open Scope nat_scope.

(** ** Go struct layout (amd64)

    [unsafe.Sizeof] and [unsafe.Offsetof] are compile-time functions of the
    struct declaration.  On the 64-bit little-endian targets the collector
    runs on, every basic type is aligned to its size, each field is placed
    at the next multiple of its alignment, and the struct is padded to a
    multiple of its largest field alignment. *)
Module GoLayout.

Inductive kind : Type :=
| Uint8 | Uint16 | Uint32 | Uint64 | Int64.

Definition kind_size (k : kind) : nat :=
  match k with
  | Uint8 => 1
  | Uint16 => 2
  | Uint32 => 4
  | Uint64 => 8
  | Int64 => 8
  end.

Definition kind_align (k : kind) : nat := kind_size k.

(** A struct type: its fields, in declaration order. *)
Definition StructType : Type := list (string * kind).

Definition align_up (n a : nat) : nat := ((n + a - 1) / a) * a.

(** Offsets of the fields, given the first free offset. *)
Fixpoint place (off : nat) (fs : StructType) : list (string * (nat * kind)) :=
  match fs with
  | [] => []
  | (name, k) :: rest =>
      let o := align_up off (kind_align k) in
      (name, (o, k)) :: place (o + kind_size k) rest
  end.

Fixpoint end_of (off : nat) (fs : StructType) : nat :=
  match fs with
  | [] => off
  | (_, k) :: rest => end_of (align_up off (kind_align k) + kind_size k) rest
  end.

Definition struct_align (fs : StructType) : nat :=
  fold_right (fun f a => Nat.max (kind_align (snd f)) a) 1 fs.

(** [unsafe.Sizeof(T{})] *)
Definition Sizeof (t : StructType) : nat :=
  align_up (end_of 0 t) (struct_align t).

Fixpoint find_field (name : string) (l : list (string * (nat * kind)))
  : option (nat * kind) :=
  match l with
  | [] => None
  | (n, ok) :: rest => if String.eqb n name then Some ok else find_field name rest
  end.

(** Offset and kind of a field of [t]. *)
Definition field (t : StructType) (name : string) : option (nat * kind) :=
  find_field name (place 0 t).

(** [unsafe.Offsetof(T{}.name)]; a name that is not a field of [t] does not
    compile in Go and gives 0 here. *)
Definition Offsetof (t : StructType) (name : string) : nat :=
  match field t name with
  | Some (o, _) => o
  | None => 0
  end.

End GoLayout.

(** ** Memory: backing arrays, slices and pointers

    [MaybeCopy] either allocates a new backing array or returns a pointer
    into the array of its argument, and its specification speaks of which
    buffer a struct is viewed over.  The heap is the list of backing arrays
    in allocation order; an array is named by its index. *)
Module Mem.

Definition Heap : Type := list (list byte).

(** A slice header: backing array, offset of element 0 in it, length. *)
Record Slice : Type := mkSlice { s_arr : nat; s_off : nat; s_len : nat }.

(** An [unsafe.Pointer] to a byte of a backing array.  The machine pointer
    is [p_arr] and [p_off]; [p_ext] is its provenance, the number of bytes
    of the slice it was taken from that lie at and after it.  A read
    through the pointer beyond [p_ext] bytes is a read outside the value the
    pointer was made for (into a neighbouring attribute of the same netlink
    message, or past the allocation). *)
Record Pointer : Type := mkPointer { p_arr : nat; p_off : nat; p_ext : nat }.

(** The slice lies inside its backing array. *)
Definition valid (h : Heap) (s : Slice) : bool :=
  match nth_error h (s_arr s) with
  | Some a => s_off s + s_len s <=? length a
  | None => false
  end.

(** The elements [s[0], ..., s[len(s)-1]].  A slice of length 0, [nil]
    among them, has none and needs no backing array. *)
Definition slice_bytes (h : Heap) (s : Slice) : option (list byte) :=
  if s_len s =? 0 then Some []
  else
    match nth_error h (s_arr s) with
    | Some a =>
        if s_off s + s_len s <=? length a
        then Some (firstn (s_len s) (skipn (s_off s) a))
        else None
    | None => None
    end.

(** [make([]byte, size)]: a new zeroed array at the next free index. *)
Definition make (h : Heap) (size : nat) : Heap * Slice :=
  (h ++ [repeat Byte.x00 size], mkSlice (length h) 0 size).

(** Overwrite [a] from position [off] on with [src], keeping its length. *)
Definition overwrite (a : list byte) (off : nat) (src : list byte) : list byte :=
  firstn off a ++ src ++ skipn (off + length src) a.

Fixpoint set_nth {A : Type} (l : list A) (i : nat) (x : A) : list A :=
  match l, i with
  | [], _ => []
  | _ :: r, O => x :: r
  | y :: r, S j => y :: set_nth r j x
  end.

(** [copy(dst, src)]: copies [min(len(dst), len(src))] bytes and returns
    that number.  Slices outside the heap cannot be built by Go code; the
    heap is left as it is for them. *)
Definition copy (h : Heap) (dst src : Slice) : Heap * nat :=
  let n := Nat.min (s_len dst) (s_len src) in
  match slice_bytes h src, nth_error h (s_arr dst) with
  | Some bs, Some a =>
      if valid h dst
      then (set_nth h (s_arr dst) (overwrite a (s_off dst) (firstn n bs)), n)
      else (h, n)
  | _, _ => (h, n)
  end.

(** [unsafe.Pointer(&s[i])]: index out of range panics. *)
Definition addr_of (s : Slice) (i : nat) : option Pointer :=
  if i <? s_len s
  then Some (mkPointer (s_arr s) (s_off s + i) (s_len s - i))
  else None.

(** The buffer a [*T] at [p] views: the bytes of the slice [p] was taken
    from, from [p] on. *)
Definition reachable (h : Heap) (p : Pointer) : list byte :=
  match nth_error h (p_arr p) with
  | Some a => firstn (p_ext p) (skipn (p_off p) a)
  | None => []
  end.

(** Reading field [name] of the [t] viewed at [p]: the field's bytes when
    they lie inside the buffer, [None] when the read leaves it. *)
Definition read_field (h : Heap) (p : Pointer) (t : GoLayout.StructType)
    (name : string) : option (list byte) :=
  match GoLayout.field t name with
  | Some (o, k) =>
      let r := reachable h p in
      if o + GoLayout.kind_size k <=? length r
      then Some (firstn (GoLayout.kind_size k) (skipn o r))
      else None
  | None => None
  end.

(** Every field of the [t] viewed at [p] can be read inside the buffer. *)
Definition view_in_bounds (h : Heap) (p : Pointer) (t : GoLayout.StructType) : bool :=
  forallb (fun f => match read_field h p t (fst f) with Some _ => true | None => false end) t.

End Mem.

(** ** Package tcpinfo: attribute payloads ([tcpinfo/tcpinfo.go]) *)
Module TcpInfo.
Import GoLayout Mem.
Local Open Scope string_scope.

(** [type LinuxTCPInfo struct], field by field. *)
Definition LinuxTCPInfo : StructType :=
  [ ("State", Uint8); ("CAState", Uint8); ("Retransmits", Uint8);
    ("Probes", Uint8); ("Backoff", Uint8); ("Options", Uint8);
    ("WScale", Uint8); ("AppLimited", Uint8);
    ("RTO", Uint32); ("ATO", Uint32); ("SndMSS", Uint32); ("RcvMSS", Uint32);
    ("Unacked", Uint32); ("Sacked", Uint32); ("Lost", Uint32);
    ("Retrans", Uint32); ("Fackets", Uint32);
    ("LastDataSent", Uint32); ("LastAckSent", Uint32);
    ("LastDataRecv", Uint32); ("LastAckRecv", Uint32);
    ("PMTU", Uint32); ("RcvSsThresh", Uint32); ("RTT", Uint32);
    ("RTTVar", Uint32); ("SndSsThresh", Uint32); ("SndCwnd", Uint32);
    ("AdvMSS", Uint32); ("Reordering", Uint32);
    ("RcvRTT", Uint32); ("RcvSpace", Uint32);
    ("TotalRetrans", Uint32);
    ("PacingRate", Int64); ("MaxPacingRate", Int64);
    ("BytesAcked", Uint64); ("BytesReceived", Uint64);
    ("SegsOut", Uint32); ("SegsIn", Uint32);
    ("NotsentBytes", Uint32); ("MinRTT", Uint32);
    ("DataSegsIn", Uint32); ("DataSegsOut", Uint32);
    ("DeliveryRate", Uint64);
    ("BusyTime", Int64); ("RWndLimited", Int64); ("SndBufLimited", Int64);
    ("Delivered", Uint32); ("DeliveredCE", Uint32);
    ("BytesSent", Uint64); ("BytesRetrans", Uint64);
    ("DSackDups", Uint32); ("ReordSeen", Uint32) ].

(** Useful offsets. *)
Definition LastDataSentOffset : nat := Offsetof LinuxTCPInfo "LastDataSent".
Definition PmtuOffset : nat := Offsetof LinuxTCPInfo "PMTU".

Definition SocketMemInfo : StructType :=
  [ ("RmemAlloc", Uint32); ("Rcvbuf", Uint32); ("WmemAlloc", Uint32);
    ("Sndbuf", Uint32); ("FwdAlloc", Uint32); ("WmemQueued", Uint32);
    ("Optmem", Uint32); ("Backlog", Uint32); ("Drops", Uint32) ].

Definition MemInfo : StructType :=
  [ ("Rmem", Uint32); ("Wmem", Uint32); ("Fmem", Uint32); ("Tmem", Uint32) ].

Definition BBRInfo : StructType :=
  [ ("Bw", Int64); ("MinRtt", Uint32); ("PacingGain", Uint32);
    ("CwndGain", Uint32) ].

(** [func MaybeCopy(src []byte, size int) unsafe.Pointer].  The result is
    the heap after the call and the pointer, [None] when [&data[0]] or
    [&src[0]] indexes an empty slice. *)
Definition MaybeCopy (h : Heap) (src : Slice) (size : Z) : Heap * option Pointer :=
  if (Z.of_nat (s_len src) <? size)%Z then
    let '(h1, data) := make h (Z.to_nat size) in
    let '(h2, _) := copy h1 data src in
    (h2, addr_of data 0)
  else
    (h, addr_of src 0).

(** [func (raw RouteAttrValue) ToLinuxTCPInfo() *LinuxTCPInfo] *)
Definition ToLinuxTCPInfo (h : Heap) (raw : Slice) : Heap * option Pointer :=
  let structSize := Z.of_nat (Sizeof LinuxTCPInfo) in
  MaybeCopy h raw structSize.

(** [func (raw RouteAttrValue) ToSockMemInfo() *SocketMemInfo] *)
Definition ToSockMemInfo (h : Heap) (raw : Slice) : Heap * option Pointer :=
  let structSize := Z.of_nat (Sizeof SocketMemInfo) in
  MaybeCopy h raw structSize.

(** [func (raw RouteAttrValue) ToMemInfo() *MemInfo] *)
Definition ToMemInfo (h : Heap) (raw : Slice) : Heap * option Pointer :=
  let structSize := Z.of_nat (Sizeof MemInfo) in
  MaybeCopy h raw structSize.

(** [func (raw RouteAttrValue) ToBBRInfo() *BBRInfo]: the source computes
    [structSize] from [MemInfo{}], and the result is viewed as a
    [BBRInfo]. *)
Definition ToBBRInfo (h : Heap) (raw : Slice) : Heap * option Pointer :=
  let structSize := Z.of_nat (Sizeof MemInfo) in
  MaybeCopy h raw structSize.

End TcpInfo.

(** ** The socket identifier and the inet_diag header ([tcpinfo/tcpinfo.go]) *)
Module InetDiag.

(** [binary.LittleEndian]: the unsigned number held by a byte sequence. *)
Fixpoint le_uint (bs : list byte) : Z :=
  match bs with
  | [] => 0
  | b :: rest => (Z.of_N (Byte.to_N b) + 256 * le_uint rest)%Z
  end.

(** [binary.BigEndian]; [Uint16], [Uint32] and [Uint64] read the first 2, 4
    and 8 bytes of their argument. *)
Definition be_uint (bs : list byte) : Z := le_uint (rev bs).

(** [type InetDiagSockID struct]; the arrays hold 2, 2, 16, 16, 4 and 8
    bytes. *)
Record InetDiagSockID : Type := mkInetDiagSockID {
  IDiagSPort : list byte;
  IDiagDPort : list byte;
  IDiagSrc : list byte;
  IDiagDst : list byte;
  IDiagIf : list byte;
  IDiagCookie : list byte
}.

(** [func isIpv6(original [16]byte) bool] *)
Definition isIpv6 (original : list byte) : bool :=
  existsb (fun b => negb (Byte.eqb b Byte.x00)) (skipn 4 original).

(** [func ipv4(original [16]byte) net.IP]: the four-byte form. *)
Definition ipv4 (original : list byte) : list byte := firstn 4 original.

(** [func ipv6(original [16]byte) net.IP] *)
Definition ipv6 (original : list byte) : list byte := original.

(** [func ip(bytes [16]byte) net.IP] *)
Definition ip (bytes : list byte) : list byte :=
  if isIpv6 bytes then ipv6 bytes else ipv4 bytes.

Definition Interface (id : InetDiagSockID) : Z := be_uint (firstn 4 (IDiagIf id)).
Definition SrcIP (id : InetDiagSockID) : list byte := ip (IDiagSrc id).
Definition DstIP (id : InetDiagSockID) : list byte := ip (IDiagDst id).
Definition SPort (id : InetDiagSockID) : Z := be_uint (firstn 2 (IDiagSPort id)).
Definition DPort (id : InetDiagSockID) : Z := be_uint (firstn 2 (IDiagDPort id)).

(** [func (id *InetDiagSockID) Cookie() uint64] *)
Definition Cookie (id : InetDiagSockID) : Z := le_uint (firstn 8 (IDiagCookie id)).

(** [type InetDiagMsg struct] *)
Record InetDiagMsg : Type := mkInetDiagMsg {
  IDiagFamily : Z;
  IDiagState : Z;
  IDiagTimer : Z;
  IDiagRetrans : Z;
  ID : InetDiagSockID;
  IDiagExpires : Z;
  IDiagRqueue : Z;
  IDiagWqueue : Z;
  IDiagUID : Z;
  IDiagInode : Z
}.

End InetDiag.

(** ** The differ ([Compare] and its types, from the earlier tcpinfo file) *)
Module Differ.
Import GoLayout.
Local Open Scope string_scope.

(** [type LinuxTCPInfo struct] as this file declares it (unexported
    fields). *)
Definition LinuxTCPInfo : StructType :=
  [ ("state", Uint8); ("caState", Uint8); ("retransmits", Uint8);
    ("probes", Uint8); ("backoff", Uint8); ("options", Uint8);
    ("wscale", Uint8); ("appLimited", Uint8);
    ("rto", Uint32); ("ato", Uint32); ("sndMss", Uint32); ("rcvMss", Uint32);
    ("unacked", Uint32); ("sacked", Uint32); ("lost", Uint32);
    ("retrans", Uint32); ("fackets", Uint32);
    ("lastDataSent", Uint32); ("lastAckSent", Uint32);
    ("lastDataRecv", Uint32); ("lastAckRecv", Uint32);
    ("pmtu", Uint32); ("rcvSsThresh", Uint32); ("rtt", Uint32);
    ("rttvar", Uint32); ("sndSsThresh", Uint32); ("sndCwnd", Uint32);
    ("advmss", Uint32); ("reordering", Uint32);
    ("rcvRtt", Uint32); ("rcvSpace", Uint32);
    ("totalRetrans", Uint32);
    ("pacingRate", Int64); ("maxPacingRate", Int64);
    ("bytesAcked", Uint64); ("bytesReceived", Uint64);
    ("segsOut", Uint32); ("segsIn", Uint32);
    ("notsentBytes", Uint32); ("minRtt", Uint32);
    ("dataSegsIn", Uint32); ("dataSegsOut", Uint32);
    ("deliveryRate", Uint64);
    ("busyTime", Int64); ("rwndLimited", Int64); ("sndbufLimited", Int64);
    ("delivered", Uint32); ("deliveredCe", Uint32);
    ("bytesSent", Uint64); ("bytesRetrans", Uint64);
    ("dsackDups", Uint32); ("reordSeen", Uint32) ].

Definition LastDataSentOffset : nat := Offsetof LinuxTCPInfo "lastDataSent".
Definition PmtuOffset : nat := Offsetof LinuxTCPInfo "pmtu".
Local Close Scope string_scope.

(** [type ChangeType int] with its [iota] constants. *)
Inductive ChangeType : Type :=
| NoMajorChange
| IDiagStateChange
| NoTCPInfo
| NewAttribute
| LostAttribute
| AttributeLength
| StateOrCounterChange
| PacketCountChange
| Other.

Definition ChangeType_int (c : ChangeType) : Z :=
  match c with
  | NoMajorChange => 0
  | IDiagStateChange => 1
  | NoTCPInfo => 2
  | NewAttribute => 3
  | LostAttribute => 4
  | AttributeLength => 5
  | StateOrCounterChange => 6
  | PacketCountChange => 7
  | Other => 8
  end.

(** [bytes.Compare]: lexicographic, -1, 0 or +1. *)
Fixpoint bytes_Compare (a b : list byte) : Z :=
  match a, b with
  | [], [] => 0
  | [], _ :: _ => -1
  | _ :: _, [] => 1
  | x :: a', y :: b' =>
      match N.compare (Byte.to_N x) (Byte.to_N y) with
      | Lt => -1
      | Gt => 1
      | Eq => bytes_Compare a' b'
      end
  end.

(** [s[lo:]]: panics when [lo > len(s)]. *)
Definition slice_from (s : list byte) (lo : nat) : option (list byte) :=
  if lo <=? length s then Some (skipn lo s) else None.

(** [s[:hi]]: panics when [hi] exceeds the capacity.  The capacity of an
    attribute value is not known here; the bound is taken to be the length,
    and [Compare] only reaches this with a value at least [PmtuOffset] long,
    where [hi = LastDataSentOffset] is inside the length. *)
Definition slice_to (s : list byte) (hi : nat) : option (list byte) :=
  if hi <=? length s then Some (firstn hi s) else None.

(** [syscall.NetlinkRouteAttr]: the [RtAttr] header and the value. *)
Record RouteAttr : Type := mkRouteAttr {
  Attr_Len : Z;
  Attr_Type : Z;
  Value : list byte
}.

(** [INET_DIAG_INFO] of linux/inet_diag.h; the constant is declared in
    package inetdiag. *)
Definition INET_DIAG_INFO : nat := 2.

(** Modelled from the spec: the declaration of [inetdiag.ParsedMessage] is
    not among the sources.  The specification gives a record the header and
    "a mapping from attribute-type to RouteAttr".  [Compare] indexes
    [Attributes] by the integer attribute type, ranges over it with the
    type as the loop variable and tests the entries against [nil], so the
    mapping is a sequence of pointers indexed by attribute type: position
    [tp] holds the attribute of type [tp], or [None] for [nil] when the
    message had none.  [InetDiagMsg] is a pointer, [None] for [nil]. *)
Record ParsedMessage : Type := mkParsedMessage {
  InetDiagMsg : option InetDiag.InetDiagMsg;
  Attributes : list (option RouteAttr)
}.

(** The body of [for tp := range previous.Attributes], over the indices
    still to visit.  An index outside [current.Attributes] panics. *)
Fixpoint compare_attrs (previous current : list (option RouteAttr))
    (tps : list nat) : option ChangeType :=
  match tps with
  | [] => Some NoMajorChange
  | tp :: rest =>
      if tp =? INET_DIAG_INFO then compare_attrs previous current rest
      else
        match nth_error previous tp, nth_error current tp with
        | Some a, Some b =>
            match a, b with
            | None, Some _ => Some NewAttribute
            | Some _, None => Some LostAttribute
            | None, None => compare_attrs previous current rest
            | Some a, Some b =>
                if negb (length (Value a) =? length (Value b))
                then Some AttributeLength
                else if negb (bytes_Compare (Value a) (Value b) =? 0)%Z
                then Some Other
                else compare_attrs previous current rest
            end
        | _, _ => None
        end
  end.

(** [func Compare(previous, current *inetdiag.ParsedMessage) ChangeType];
    [None] is a panic. *)
Definition Compare (previous current : ParsedMessage) : option ChangeType :=
  match InetDiagMsg previous, InetDiagMsg current with
  | Some pidm, Some cidm =>
      if negb (InetDiag.IDiagState pidm =? InetDiag.IDiagState cidm)%Z
      then Some IDiagStateChange
      else
        match nth_error (Attributes previous) INET_DIAG_INFO,
              nth_error (Attributes current) INET_DIAG_INFO with
        | Some (Some a), Some (Some b) =>
            match slice_from (Value a) PmtuOffset,
                  slice_from (Value b) PmtuOffset with
            | Some ta, Some tb =>
                if negb (bytes_Compare ta tb =? 0)%Z
                then Some StateOrCounterChange
                else
                  match slice_to (Value a) LastDataSentOffset,
                        slice_to (Value b) LastDataSentOffset with
                  | Some ha, Some hb =>
                      if negb (bytes_Compare ha hb =? 0)%Z
                      then Some StateOrCounterChange
                      else compare_attrs (Attributes previous)
                             (Attributes current)
                             (seq 0 (length (Attributes previous)))
                  | _, _ => None
                  end
            | _, _ => None
            end
        | Some _, Some _ => Some NoTCPInfo
        | _, _ => None
        end
  | _, _ => None
  end.

End Differ.

(** ** Package saver ([saver/saver.go]) *)
Module Saver.
Import InetDiag.
Local Open Scope Z_scope.

(** *** Machine integers *)

(** [uint64] arithmetic. *)
Definition wrap64 (z : Z) : Z := z mod 2 ^ 64.

(** [int] and [int64] arithmetic (two's complement, 64 bits). *)
Definition wrap_int (z : Z) : Z := (z + 2 ^ 63) mod 2 ^ 64 - 2 ^ 63.

(** *** Package time
    A [time.Time] is the number of nanoseconds since the Unix epoch; a
    [time.Duration] is a number of nanoseconds. *)
Definition Time : Type := Z.
Definition Second : Z := 1000000000.
Definition Minute : Z := 60 * Second.

(** [t.Unix()] *)
Definition Unix (t : Time) : Z := t / Second.

(** [time.Time{}], January 1 of year 1. *)
Definition zeroTime : Time := -62135596800 * Second.

(** [t.Add(d)] *)
Definition Add (t : Time) (d : Z) : Time := t + d.

(** [t.After(u)] *)
Definition After (t u : Time) : bool := u <? t.

(** *** Package tcp: the two states the saver names (linux/tcp_states.h) *)
Definition ESTABLISHED : Z := 1.
Definition FIN_WAIT1 : Z := 4.

(** This is the maximum switch/network if speed in bits/sec. *)
Definition maxSwitchSpeed : Z := 10 ^ 10.

(** *** [fmt.Sprintf("%05d", n)] *)
Definition digits (n : Z) : string :=
  NilZero.string_of_uint (N.to_uint (Z.to_N n)).

Definition zero_pad (width : nat) (s : string) : string :=
  String.concat "" (repeat "0"%string (width - String.length s)) ++ s.

Definition fmt_05d (n : Z) : string :=
  if n <? 0 then ("-" ++ zero_pad 4 (digits (- n)))%string
  else zero_pad 5 (digits n).

(** *** Package netlink *)
Module Netlink.

(** [netlink.Metadata], as [writeHeader] fills it. *)
Record Metadata : Type := mkMetadata {
  UUID : string;
  Sequence : Z;
  StartTime : Time
}.

(** Modelled from the spec: [netlink.ArchivalRecord] is declared outside the
    sources.  The specification gives it a timestamp, the raw header bytes,
    the raw attribute values by attribute type, and optional metadata
    "only present on the first line of a file".  [ar_Metadata] is the Go
    field [Metadata]. *)
Record ArchivalRecord : Type := mkArchivalRecord {
  Timestamp : Time;
  RawIDM : list byte;
  Attributes : list (list byte);
  ar_Metadata : option Metadata
}.

(** The record literal of [writeHeader]: every field but [Metadata] has its
    zero value. *)
Definition header_record (m : Metadata) : ArchivalRecord :=
  mkArchivalRecord zeroTime [] [] (Some m).

(** [ar.Timestamp = t] *)
Definition set_Timestamp (ar : ArchivalRecord) (t : Time) : ArchivalRecord :=
  mkArchivalRecord t (RawIDM ar) (Attributes ar) (ar_Metadata ar).

End Netlink.

(** Modelled from the spec: [inetdiag.SockID] and [GetSockID] are declared
    outside the sources.  The specification asks the derived accessors to
    "return ports in host order and addresses as semantic IP values"; the
    cookie is the 64-bit unsigned value. *)
Record SockID : Type := mkSockID {
  sk_SPort : Z;
  sk_DPort : Z;
  sk_SrcIP : list byte;
  sk_DstIP : list byte;
  sk_Interface : Z;
  sk_Cookie : Z
}.

Definition GetSockID (id : InetDiagSockID) : SockID :=
  mkSockID (SPort id) (DPort id) (SrcIP id) (DstIP id) (Interface id) (Cookie id).

Definition CookieUint64 (s : SockID) : Z := sk_Cookie s.

(** *** The outside world the saver acts on *)

(** An [io.WriteCloser] value is [nil] ([None]) or refers to an open sink,
    named by its position in [sinks]. *)
Definition WriterRef : Type := nat.

(** A sink made by [zstd.NewWriter]: its path and the byte strings handed
    to [Write], in order.  The compressor behind it is external; a [Write]
    is taken to accept its bytes. *)
Record Sink : Type := mkSink {
  sink_path : string;
  sink_written : list string
}.

(** The Prometheus metrics the saver updates. *)
Record Metrics : Type := mkMetrics {
  NewFileCount : Z;
  SnapshotCount : Z;
  ErrorCount : gmap string Z;
  SendRateHistogram : list Z;
  ReceiveRateHistogram : list Z
}.

Record World : Type := mkWorld {
  ticks : nat;             (* calls of time.Now() so far *)
  dirs : list string;      (* directories made by os.MkdirAll *)
  sinks : list Sink;       (* sinks opened by zstd.NewWriter *)
  metrics : Metrics
}.

Definition set_metrics (w : World) (m : Metrics) : World :=
  mkWorld (ticks w) (dirs w) (sinks w) m.

(** [metrics.NewFileCount.Inc()] *)
Definition NewFileCount_Inc (w : World) : World :=
  let m := metrics w in
  set_metrics w (mkMetrics (NewFileCount m + 1) (SnapshotCount m)
                   (ErrorCount m) (SendRateHistogram m) (ReceiveRateHistogram m)).

(** [metrics.SnapshotCount.Inc()] *)
Definition SnapshotCount_Inc (w : World) : World :=
  let m := metrics w in
  set_metrics w (mkMetrics (NewFileCount m) (SnapshotCount m + 1)
                   (ErrorCount m) (SendRateHistogram m) (ReceiveRateHistogram m)).

(** [metrics.ErrorCount.WithLabelValues(label).Inc()] *)
Definition ErrorCount_Inc (label : string) (m : Metrics) : Metrics :=
  mkMetrics (NewFileCount m) (SnapshotCount m)
    (<[label := default 0 (ErrorCount m !! label) + 1]> (ErrorCount m))
    (SendRateHistogram m) (ReceiveRateHistogram m).

(** [metrics.SendRateHistogram.Observe(v)] *)
Definition SendRate_Observe (v : Z) (m : Metrics) : Metrics :=
  mkMetrics (NewFileCount m) (SnapshotCount m) (ErrorCount m)
    (SendRateHistogram m ++ [v]) (ReceiveRateHistogram m).

(** [metrics.ReceiveRateHistogram.Observe(v)] *)
Definition ReceiveRate_Observe (v : Z) (m : Metrics) : Metrics :=
  mkMetrics (NewFileCount m) (SnapshotCount m) (ErrorCount m)
    (SendRateHistogram m) (ReceiveRateHistogram m ++ [v]).

(** The part of the metrics the throughput report writes: the error
    counters and the two rate histograms. *)
Definition rate_metrics (m : Metrics) : gmap string Z * list Z * list Z :=
  (ErrorCount m, SendRateHistogram m, ReceiveRateHistogram m).

(** [time.Now()]: the clock is read and the read is counted. *)
Definition tick (w : World) : World :=
  mkWorld (S (ticks w)) (dirs w) (sinks w) (metrics w).

(** [w.Write(b)] on the sink [r]. *)
Definition sink_Write (r : WriterRef) (b : string) (w : World) : World :=
  mkWorld (ticks w) (dirs w)
    (match nth_error (sinks w) r with
     | Some s => Mem.set_nth (sinks w) r (mkSink (sink_path s) (sink_written s ++ [b]))
     | None => sinks w
     end)
    (metrics w).

(** *** What the saver calls and the sources do not contain

    Packages time, os, uuid, zstd, encoding/json, inetdiag, netlink and
    cache are collaborators of the saver; their behaviour is a parameter of
    the embedding. *)
Class Externals : Type := {
  (** the value of the [n]-th [time.Now()] *)
  Now : nat -> Time;
  (** [t.Format("2006/01/02")] *)
  Format_date : Time -> string;
  (** [os.MkdirAll(path, 0777)]: the error, if any *)
  MkdirAll : World -> string -> option string;
  (** [zstd.NewWriter(path)]: the error, if any *)
  NewWriter : World -> string -> option string;
  (** [uuid.FromCookie] *)
  FromCookie : Z -> string;
  (** [json.Marshal] with the error dropped, as the saver calls it *)
  json_Marshal : Netlink.ArchivalRecord -> string;
  (** [RawInetDiagMsg.Parse]: the pointer and the error *)
  Parse : list byte -> option InetDiagMsg * option string;
  (** [ArchivalRecord.Compare]: the change, as its integer, and the error *)
  ar_Compare : Netlink.ArchivalRecord -> Netlink.ArchivalRecord -> Z * option string;
  (** [ArchivalRecord.GetStats]: bytes sent and received *)
  GetStats : Netlink.ArchivalRecord -> Z * Z;
  (** [netlink.NetlinkMessage] and [netlink.MakeArchivalRecord] *)
  NetlinkMessage : Type;
  MakeArchivalRecord :
    NetlinkMessage -> bool -> option Netlink.ArchivalRecord * option string;
  (** [cache.Cache], [Update] and [EndCycle]; the residual map is given in
      the order the [range] loop visits it *)
  Cache : Type;
  NewCache : Cache;
  cache_Update :
    Cache -> Netlink.ArchivalRecord ->
    Cache * (option Netlink.ArchivalRecord * option string);
  cache_EndCycle : Cache -> Cache * list (Z * Netlink.ArchivalRecord)
}.

(** *** The saver's own types *)

(** [type Task struct]; a [nil] message means close the writer. *)
Record Task : Type := mkTask {
  Message : option Netlink.ArchivalRecord;
  Task_Writer : option WriterRef
}.

(** [type MarshalChan chan<- Task]: the tasks sent so far, oldest first,
    and whether the channel has been closed.  The marshaller goroutine
    receives from the other end; the buffer bound of 100 and the blocking of
    a full channel are scheduling, and are not part of the embedding. *)
Record MarshalChan : Type := mkChan {
  ch_sent : list Task;
  ch_closed : bool
}.

(** [type Connection struct] *)
Record Connection : Type := mkConnection {
  Inode : Z;
  ID : SockID;
  UID : Z;
  Slice : string;
  StartTime : Time;
  Sequence : Z;
  Expiration : Time;
  Writer : option WriterRef
}.

(** [conn.Writer = v] *)
Definition set_Writer (conn : Connection) (v : option WriterRef) : Connection :=
  mkConnection (Inode conn) (ID conn) (UID conn) (Slice conn) (StartTime conn)
    (Sequence conn) (Expiration conn) v.

(** [type stats struct] *)
Record stats : Type := mkStats {
  TotalCount : Z;
  NewCount : Z;
  DiffCount : Z;
  ExpiredCount : Z
}.

(** [atomic.AddInt64(&s.TotalCount, 1)] and its three siblings. *)
Definition IncTotalCount (s : stats) : stats :=
  mkStats (wrap_int (TotalCount s + 1)) (NewCount s) (DiffCount s) (ExpiredCount s).

Definition IncNewCount (s : stats) : stats :=
  mkStats (TotalCount s) (wrap_int (NewCount s + 1)) (DiffCount s) (ExpiredCount s).

Definition IncDiffCount (s : stats) : stats :=
  mkStats (TotalCount s) (NewCount s) (wrap_int (DiffCount s + 1)) (ExpiredCount s).

Definition IncExpiredCount (s : stats) : stats :=
  mkStats (TotalCount s) (NewCount s) (DiffCount s) (wrap_int (ExpiredCount s + 1)).

(** The "same" count that [Print] logs:
    [s.TotalCount-(s.NewCount+s.DiffCount)]. *)
Definition same_count (s : stats) : Z :=
  wrap_int (TotalCount s - wrap_int (NewCount s + DiffCount s)).

(** [type cycleStats struct] *)
Record cycleStats : Type := mkCycleStats {
  live4 : Z;
  live6 : Z;
  closed : Z
}.

(** [func (cs cycleStats) total() uint64] *)
Definition total (cs : cycleStats) : Z :=
  wrap64 (wrap64 (live4 cs + live6 cs) + closed cs).

(** [func (cs cycleStats) compare(msg string, prev cycleStats) bool]; the
    log lines are not part of the embedding. *)
Definition cycleStats_compare (cs prev : cycleStats) : bool :=
  if closed cs <? closed prev then false
  else if total cs <? total prev then false
  else true.

(** Errors generated by saver functions. *)
Definition ErrNoMarshallers : string := "Saver has zero Marshallers".

Definition newline : string := String (ascii_of_nat 10) EmptyString.

Section WithExternals.
Context `{E : Externals}.

(** [type Saver struct].  [Done], the wait group of the marshaller
    goroutines, is scheduling and is left out. *)
Record Saver : Type := mkSaver {
  Host : string;
  Pod : string;
  FileAgeLimit : Z;
  MarshalChans : list MarshalChan;
  Connections : gmap Z Connection;
  svr_cache : Cache;
  svr_stats : stats
}.

Definition set_chans (svr : Saver) (cs : list MarshalChan) : Saver :=
  mkSaver (Host svr) (Pod svr) (FileAgeLimit svr) cs (Connections svr)
    (svr_cache svr) (svr_stats svr).

Definition set_conns (svr : Saver) (m : gmap Z Connection) : Saver :=
  mkSaver (Host svr) (Pod svr) (FileAgeLimit svr) (MarshalChans svr) m
    (svr_cache svr) (svr_stats svr).

Definition set_cache (svr : Saver) (c : Cache) : Saver :=
  mkSaver (Host svr) (Pod svr) (FileAgeLimit svr) (MarshalChans svr)
    (Connections svr) c (svr_stats svr).

Definition upd_stats (f : stats -> stats) (svr : Saver) : Saver :=
  mkSaver (Host svr) (Pod svr) (FileAgeLimit svr) (MarshalChans svr)
    (Connections svr) (svr_cache svr) (f (svr_stats svr)).

(** [svr.Connections[cookie] = conn], and every write through the pointer
    [conn] once it is stored there: the map holds pointers, each made by one
    [newConnection] and stored under one key, so a write through [conn] is a
    write to the entry of [cookie]. *)
Definition set_conn (cookie : Z) (conn : Connection) (svr : Saver) : Saver :=
  set_conns svr (<[cookie := conn]> (Connections svr)).

(** [func NewSaver(host string, pod string, numMarshaller int) *Saver];
    [make] with a negative capacity panics. *)
Definition NewSaver (host pod : string) (numMarshaller : Z) : option Saver :=
  if numMarshaller <? 0 then None
  else Some (mkSaver host pod (10 * Minute)
               (repeat (mkChan [] false) (Z.to_nat numMarshaller))
               ∅ NewCache (mkStats 0 0 0 0)).

(** [q <- task] on the channel [svr.MarshalChans[i]]; a send on a closed
    channel panics. *)
Definition send (i : nat) (t : Task) (svr : Saver) : option Saver :=
  match nth_error (MarshalChans svr) i with
  | Some c =>
      if ch_closed c then None
      else Some (set_chans svr
                   (Mem.set_nth (MarshalChans svr) i (mkChan (ch_sent c ++ [t]) false)))
  | None => None
  end.

(** [func newConnection(info *inetdiag.InetDiagMsg, timestamp time.Time) *Connection] *)
Definition newConnection (info : InetDiagMsg) (timestamp : Time) (w : World)
  : Connection * World :=
  (mkConnection (IDiagInode info) (GetSockID (InetDiag.ID info)) (IDiagUID info)
     "" timestamp 0 (Now (ticks w)) None,
   tick w).

(** [func (conn *Connection) writeHeader()]; a [nil] writer panics. *)
Definition writeHeader (conn : Connection) (w : World) : option World :=
  let msg := Netlink.header_record
               (Netlink.mkMetadata (FromCookie (CookieUint64 (ID conn)))
                  (Sequence conn) (StartTime conn)) in
  let bytes := json_Marshal msg in
  match Writer conn with
  | Some r => Some (sink_Write r newline (sink_Write r bytes w))
  | None => None
  end.

(** The file name [Rotate] builds with
    [fmt.Sprintf("%s/%s.%05d.jsonl.zst", datePath, id, conn.Sequence)]. *)
Definition file_name (datePath id : string) (sequence : Z) : string :=
  (datePath ++ "/" ++ id ++ "." ++ fmt_05d sequence ++ ".jsonl.zst")%string.

(** [func (conn *Connection) Rotate(Host string, Pod string, FileAgeLimit
    time.Duration) error]: the connection after the call, the world after
    it, and the error. *)
Definition Rotate (conn : Connection) (host pod : string) (ageLimit : Z) (w : World)
  : option (Connection * World * option string) :=
  let datePath := Format_date (StartTime conn) in
  match MkdirAll w datePath with
  | Some err => Some (conn, w, Some err)
  | None =>
      let w1 := mkWorld (ticks w) (dirs w ++ [datePath]) (sinks w) (metrics w) in
      let id := FromCookie (CookieUint64 (ID conn)) in
      let path := file_name datePath id (Sequence conn) in
      match NewWriter w1 path with
      | Some err => Some (set_Writer conn None, w1, Some err)
      | None =>
          let r := length (sinks w1) in
          let w2 := mkWorld (ticks w1) (dirs w1) (sinks w1 ++ [mkSink path []])
                      (metrics w1) in
          let conn1 := set_Writer conn (Some r) in
          match writeHeader conn1 w2 with
          | Some w3 =>
              let w4 := NewFileCount_Inc w3 in
              Some (mkConnection (Inode conn1) (ID conn1) (UID conn1) (Slice conn1)
                      (StartTime conn1)
                      (wrap_int (Sequence conn1 + 1))
                      (Add (Expiration conn1) (10 * Minute))
                      (Writer conn1),
                    w4, None)
          | None => None
          end
      end
  end.

(** The part of [queue] from [if time.Now().After(conn.Expiration) ...] to
    its end, for the connection [conn] stored under [cookie] and the channel
    index [q]. *)
Definition queue_write (msg : Netlink.ArchivalRecord) (cookie : Z) (q : nat)
    (conn : Connection) (svr : Saver) (w : World)
  : option (option string * Saver * World) :=
  let now := Now (ticks w) in
  let w := tick w in
  match (if After now (Expiration conn) && bool_decide (Writer conn <> None)
         then match send q (mkTask None (Writer conn)) svr with
              | Some svr1 =>
                  let conn1 := set_Writer conn None in
                  Some (conn1, set_conn cookie conn1 svr1)
              | None => None
              end
         else Some (conn, svr)) with
  | None => None
  | Some (conn, svr) =>
      match Writer conn with
      | None =>
          match Rotate conn (Host svr) (Pod svr) (FileAgeLimit svr) w with
          | None => None
          | Some (conn2, w2, err) =>
              let svr2 := set_conn cookie conn2 svr in
              match err with
              | Some e => Some (Some e, svr2, w2)
              | None =>
                  match send q (mkTask (Some msg) (Writer conn2)) svr2 with
                  | Some svr3 => Some (None, svr3, w2)
                  | None => None
                  end
              end
          end
      | Some _ =>
          match send q (mkTask (Some msg) (Writer conn)) svr with
          | Some svr3 => Some (None, svr3, w)
          | None => None
          end
      end
  end.

(** [func (svr *Saver) queue(msg *netlink.ArchivalRecord) error]: the
    returned error, the saver and the world after the call.  A [nil]
    [idm] panics at [idm.ID]. *)
Definition queue (msg : Netlink.ArchivalRecord) (svr : Saver) (w : World)
  : option (option string * Saver * World) :=
  let '(idm, _) := Parse (Netlink.RawIDM msg) in
  match idm with
  | None => None
  | Some idm =>
      let cookie := Cookie (InetDiag.ID idm) in
      if cookie =? 0 then Some (Some "Cookie = 0"%string, svr, w)
      else if (length (MarshalChans svr) <? 1)%nat
      then Some (Some ErrNoMarshallers, svr, w)
      else
        let q := Z.to_nat (cookie mod Z.of_nat (length (MarshalChans svr))) in
        match Connections svr !! cookie with
        | None =>
            if FIN_WAIT1 <=? IDiagState idm then Some (None, svr, w)
            else
              let '(conn, w1) := newConnection idm (Netlink.Timestamp msg) w in
              queue_write msg cookie q conn (set_conn cookie conn svr) w1
        | Some conn => queue_write msg cookie q conn svr w
        end
  end.

(** [func (svr *Saver) endConn(cookie uint64)]; with no marshaller the
    remainder [cookie % 0] panics. *)
Definition endConn (cookie : Z) (svr : Saver) : option Saver :=
  if (length (MarshalChans svr) =? 0)%nat then None
  else
    let q := Z.to_nat (cookie mod Z.of_nat (length (MarshalChans svr))) in
    match Connections svr !! cookie with
    | Some conn =>
        match Writer conn with
        | Some r =>
            match send q (mkTask None (Some r)) svr with
            | Some svr1 => Some (set_conns svr1 (delete cookie (Connections svr1)))
            | None => None
            end
        | None => Some svr
        end
    | None => Some svr
    end.

(** [netlink.NoMajorChange], the first constant of the change type. *)
Definition NoMajorChange : Z := Differ.ChangeType_int Differ.NoMajorChange.

(** [func (svr *Saver) swapAndQueue(pm *netlink.ArchivalRecord)].  The
    errors are logged and dropped; [oldIDM.ID != pmIDM.ID] dereferences both
    pointers. *)
Definition swapAndQueue (pm : Netlink.ArchivalRecord) (svr : Saver) (w : World)
  : option (Saver * World) :=
  let svr := upd_stats IncTotalCount svr in
  let '(c, (old, err)) := cache_Update (svr_cache svr) pm in
  let svr := set_cache svr c in
  match err with
  | Some _ => Some (svr, w)
  | None =>
      match old with
      | None =>
          let svr := upd_stats IncNewCount svr in
          let w := SnapshotCount_Inc w in
          match queue pm svr w with
          | Some (_, svr1, w1) => Some (svr1, w1)
          | None => None
          end
      | Some old =>
          let '(oldIDM, err1) := Parse (Netlink.RawIDM old) in
          match err1 with
          | Some _ => Some (svr, w)
          | None =>
              let '(pmIDM, err2) := Parse (Netlink.RawIDM pm) in
              match err2 with
              | Some _ => Some (svr, w)
              | None =>
                  match oldIDM, pmIDM with
                  | Some _, Some _ =>
                      let '(change, err3) := ar_Compare pm old in
                      match err3 with
                      | Some _ => Some (svr, w)
                      | None =>
                          if change >? NoMajorChange then
                            let svr := upd_stats IncDiffCount svr in
                            let w := SnapshotCount_Inc w in
                            match queue pm svr w with
                            | Some (_, svr1, w1) => Some (svr1, w1)
                            | None => None
                            end
                          else Some (svr, w)
                      end
                  | _, _ => None
                  end
              end
          end
      end
  end.

(** [func (svr *Saver) handleType(t time.Time, msgs []*netlink.NetlinkMessage)
    (uint64, uint64)], with the two sums as accumulators. *)
Fixpoint handleType_from (liveSent liveReceived : Z) (t : Time)
    (msgs : list (option NetlinkMessage)) (svr : Saver) (w : World)
  : option (Z * Z * Saver * World) :=
  match msgs with
  | [] => Some (liveSent, liveReceived, svr, w)
  | None :: rest => handleType_from liveSent liveReceived t rest svr w
  | Some msg :: rest =>
      match fst (MakeArchivalRecord msg true) with
      | None => handleType_from liveSent liveReceived t rest svr w
      | Some ar =>
          let ar := Netlink.set_Timestamp ar t in
          let '(s, r) := GetStats ar in
          match swapAndQueue ar svr w with
          | Some (svr1, w1) =>
              handleType_from (wrap64 (liveSent + s)) (wrap64 (liveReceived + r))
                t rest svr1 w1
          | None => None
          end
      end
  end.

Definition handleType (t : Time) (msgs : list (option NetlinkMessage))
    (svr : Saver) (w : World) : option (Z * Z * Saver * World) :=
  handleType_from 0 0 t msgs svr w.

(** [netlink.MessageBlock] *)
Record MessageBlock : Type := mkMessageBlock {
  V4Time : Time;
  V4Messages : list (option NetlinkMessage);
  V6Time : Time;
  V6Messages : list (option NetlinkMessage)
}.

(** The variables [MessageSaverLoop] declares before its loop. *)
Record Locals : Type := mkLocals {
  lastSent : cycleStats;
  lastReceived : cycleStats;
  reportedSent : Z;
  reportedReceived : Z;
  sentClosed : Z;
  receivedClosed : Z;
  lastReportTime : Z
}.

Definition initial_locals : Locals :=
  mkLocals (mkCycleStats 0 0 0) (mkCycleStats 0 0 0) 0 0 0 0 (Unix zeroTime).

(** The loop [for cookie := range residual]. *)
Fixpoint end_residual (residual : list (Z * Netlink.ArchivalRecord)) (rs rr : Z)
    (svr : Saver) : option (Z * Z * Saver) :=
  match residual with
  | [] => Some (rs, rr, svr)
  | (cookie, ar) :: rest =>
      let '(s, r) := GetStats ar in
      match endConn cookie svr with
      | Some svr1 =>
          end_residual rest (wrap64 (rs + s)) (wrap64 (rr + r))
            (upd_stats IncExpiredCount svr1)
      | None => None
      end
  end.

(** One direction of the report: the new reported total and the metrics.
    The source has this block twice, for the sent and the received bytes,
    with [labelLess] and [labelMore] the two error labels and [observe] the
    histogram of the direction.  The observed value is
    [8 * float64(total-reported)]; the conversion is exact on the branch
    that observes, where the difference is at most [10*maxSwitchSpeed/8]. *)
Definition report_one (labelLess labelMore : string)
    (observe : Z -> Metrics -> Metrics) (totalBytes reported : Z) (m : Metrics)
  : Z * Metrics :=
  if (totalBytes >? wrap64 (10 * maxSwitchSpeed / 8 + reported))
     || (totalBytes <? reported)
  then
    if totalBytes <? reported
    then (reported, ErrorCount_Inc labelLess m)
    else (reported, ErrorCount_Inc labelMore m)
  else (totalBytes, observe (8 * wrap64 (totalBytes - reported)) m).

(** The block [if msgs.V4Time.Unix() > lastReportTime { ... }]. *)
Definition report (v4time : Time) (sent received : cycleStats) (loc : Locals)
    (m : Metrics) : Locals * Metrics :=
  if Unix v4time >? lastReportTime loc then
    let totalSent := total sent in
    let '(rs, m1) :=
      report_one "totalSent < reportedSent"
        "totalSent-reportedSent exceeds network capacity"
        SendRate_Observe totalSent (reportedSent loc) m in
    let totalReceived := total received in
    let '(rr, m2) :=
      report_one "totalReceived < reportedReceived"
        "totalReceived-reportedReceived exceeds network capacity"
        ReceiveRate_Observe totalReceived (reportedReceived loc) m1 in
    (mkLocals (lastSent loc) (lastReceived loc) rs rr
       (sentClosed loc) (receivedClosed loc) (Unix v4time), m2)
  else (loc, m).

(** One iteration of the loop of [MessageSaverLoop], for the block [msgs]
    received from the channel.  The two calls of [compare] only log and
    their results are dropped. *)
Definition loop_body (loc : Locals) (msgs : MessageBlock) (svr : Saver) (w : World)
  : option (Locals * Saver * World) :=
  match handleType (V4Time msgs) (V4Messages msgs) svr w with
  | None => None
  | Some (sent4, received4, svr1, w1) =>
      match handleType (V6Time msgs) (V6Messages msgs) svr1 w1 with
      | None => None
      | Some (sent6, received6, svr2, w2) =>
          let '(c, residual) := cache_EndCycle (svr_cache svr2) in
          match end_residual residual 0 0 (set_cache svr2 c) with
          | None => None
          | Some (rs, rr, svr3) =>
              let sentClosed' := wrap64 (sentClosed loc + rs) in
              let receivedClosed' := wrap64 (receivedClosed loc + rr) in
              let sent := mkCycleStats sent4 sent6 sentClosed' in
              let received := mkCycleStats received4 received6 receivedClosed' in
              let loc1 := mkLocals (lastSent loc) (lastReceived loc)
                            (reportedSent loc) (reportedReceived loc)
                            sentClosed' receivedClosed' (lastReportTime loc) in
              let '(loc2, m) := report (V4Time msgs) sent received loc1 (metrics w2) in
              Some (mkLocals sent received (reportedSent loc2) (reportedReceived loc2)
                      (sentClosed loc2) (receivedClosed loc2) (lastReportTime loc2),
                    svr3, set_metrics w2 m)
          end
      end
  end.

(** The loop, over the blocks the channel delivers before it is closed. *)
Fixpoint loop (loc : Locals) (blocks : list MessageBlock) (svr : Saver) (w : World)
  : option (Locals * Saver * World) :=
  match blocks with
  | [] => Some (loc, svr, w)
  | msgs :: rest =>
      match loop_body loc msgs svr w with
      | Some (loc1, svr1, w1) => loop loc1 rest svr1 w1
      | None => None
      end
  end.

Fixpoint endConn_all (cookies : list Z) (svr : Saver) : option Saver :=
  match cookies with
  | [] => Some svr
  | i :: rest =>
      match endConn i svr with
      | Some svr1 => endConn_all rest svr1
      | None => None
      end
  end.

(** [func (svr *Saver) Close()]: the connections are visited in the order
    of the map's key list; all channels are closed. *)
Definition Close (svr : Saver) : option Saver :=
  match endConn_all (map fst (map_to_list (Connections svr))) svr with
  | Some svr1 =>
      Some (set_chans svr1
              (map (fun c => mkChan (ch_sent c) true) (MarshalChans svr1)))
  | None => None
  end.

(** [func (svr *Saver) MessageSaverLoop(readerChannel <-chan netlink.MessageBlock)] *)
Definition MessageSaverLoop (blocks : list MessageBlock) (svr : Saver) (w : World)
  : option (Saver * World) :=
  match loop initial_locals blocks svr w with
  | Some (_, svr1, w1) =>
      match Close svr1 with
      | Some svr2 => Some (svr2, w1)
      | None => None
      end
  | None => None
  end.

(** No channel of the saver has been closed: [Close] has not run yet. *)
Definition all_open (svr : Saver) : Prop :=
  forallb (fun c => negb (ch_closed c)) (MarshalChans svr) = true.

(** The channel a record with the given cookie is routed to. *)
Definition chan_index (svr : Saver) (cookie : Z) : nat :=
  Z.to_nat (cookie mod Z.of_nat (length (MarshalChans svr))).

(** What the specification asks of the throughput report of one direction
    in one iteration, for the total [t] of the iteration, the reported total
    [r] before and [r'] after it, and the metrics [m] before and [m'] after
    it; [reporting] tells whether the iteration is one that reports, and
    [hist] is the histogram of the direction.  A total below the reported
    one, or above it by more than [10*maxSwitchSpeed/8], leaves the reported
    total and the histogram as they are and counts an error under the label
    of the case; the reported total or the histogram change only by a report
    that is neither, which sets the reported total to [t], observes
    [8 * (t - r)] and counts no error of the direction. *)
Definition report_outcome (reporting : bool) (labelLess labelMore : string)
    (hist : Metrics -> list Z) (t r r' : Z) (m m' : Metrics) : Prop :=
  (reporting = true -> t < r ->
     r' = r /\ hist m' = hist m /\
     ErrorCount m' !! labelLess = Some (default 0 (ErrorCount m !! labelLess) + 1)) /\
  (reporting = true -> t > r + 10 * maxSwitchSpeed / 8 ->
     r' = r /\ hist m' = hist m /\
     ErrorCount m' !! labelMore = Some (default 0 (ErrorCount m !! labelMore) + 1)) /\
  (r' <> r \/ hist m' <> hist m ->
     reporting = true /\ r <= t <= r + 10 * maxSwitchSpeed / 8 /\
     r' = t /\ hist m' = (hist m ++ [8 * (t - r)])%list /\
     ErrorCount m' !! labelLess = ErrorCount m !! labelLess /\
     ErrorCount m' !! labelMore = ErrorCount m !! labelMore).

(** A run of [swapAndQueue] over a sequence of records. *)
Fixpoint swapAndQueue_all (pms : list Netlink.ArchivalRecord) (svr : Saver)
    (w : World) : option (Saver * World) :=
  match pms with
  | [] => Some (svr, w)
  | pm :: rest =>
      match swapAndQueue pm svr w with
      | Some (svr1, w1) => swapAndQueue_all rest svr1 w1
      | None => None
      end
  end.

End WithExternals.

End Saver.

(** ** A concrete environment

    One choice of the external collaborators, used to run the saver on
    concrete records: a clock that advances one second per reading, a file
    system that never fails, and the parser, the cache and the statistics
    accessor as the specification describes them. *)
Module Fixture.
Import InetDiag Saver.
Local Open Scope Z_scope.

(** A 72-byte inet_diag header with the given state and cookie bytes. *)
Definition header (state : byte) (cookie : list byte) : list byte :=
  ([Byte.x02; state; Byte.x00; Byte.x00]
   ++ repeat Byte.x00 (2 + 2 + 16 + 16 + 4)
   ++ firstn 8 (cookie ++ repeat Byte.x00 8)
   ++ repeat Byte.x00 20)%list.

Definition sub (bs : list byte) (off len : nat) : list byte :=
  firstn len (skipn off bs).

(** Modelled from the spec: [RawInetDiagMsg.Parse] "reinterprets the bytes.
    If the source is shorter than the expected struct size the parser pads
    with zeros into a fresh buffer". *)
Definition parse_header (raw : list byte) : option InetDiagMsg * option string :=
  let b := (raw ++ repeat Byte.x00 (72 - length raw))%list in
  (Some (mkInetDiagMsg
           (le_uint (sub b 0 1)) (le_uint (sub b 1 1))
           (le_uint (sub b 2 1)) (le_uint (sub b 3 1))
           (mkInetDiagSockID (sub b 4 2) (sub b 6 2) (sub b 8 16) (sub b 24 16)
              (sub b 40 4) (sub b 44 8))
           (le_uint (sub b 52 4)) (le_uint (sub b 56 4)) (le_uint (sub b 60 4))
           (le_uint (sub b 64 4)) (le_uint (sub b 68 4))),
   None).

Definition cookie_of (ar : Netlink.ArchivalRecord) : Z :=
  match fst (parse_header (Netlink.RawIDM ar)) with
  | Some idm => Cookie (InetDiag.ID idm)
  | None => 0
  end.

(** Modelled from the spec: the cache holds "two maps keyed by cookie,
    current and previous, plus a cycle counter"; [update] "returns the
    previous record for the same cookie if present, else None; stores record
    in current; fails with ZeroCookie if the parsed cookie is zero";
    [end_cycle] "returns every entry of previous whose cookie did not appear
    in current; then swaps current into previous, clears current, increments
    the cycle counter". *)
Record SpecCache : Type := mkSpecCache {
  current : gmap Z Netlink.ArchivalRecord;
  previous : gmap Z Netlink.ArchivalRecord;
  cycles : Z
}.

Definition spec_Update (c : SpecCache) (ar : Netlink.ArchivalRecord)
  : SpecCache * (option Netlink.ArchivalRecord * option string) :=
  let cookie := cookie_of ar in
  if cookie =? 0 then (c, (None, Some "ZeroCookie"%string))
  else (mkSpecCache (<[cookie := ar]> (current c)) (previous c) (cycles c),
        (previous c !! cookie, None)).

Definition spec_EndCycle (c : SpecCache)
  : SpecCache * list (Z * Netlink.ArchivalRecord) :=
  (mkSpecCache ∅ (current c) (cycles c + 1),
   map_to_list (filter (fun kv => current c !! fst kv = None) (previous c))).

(** The attribute map of a record as the differ reads it: an empty value
    stands for an absent attribute. *)
Definition to_parsed (ar : Netlink.ArchivalRecord) : Differ.ParsedMessage :=
  Differ.mkParsedMessage (fst (parse_header (Netlink.RawIDM ar)))
    (map (fun v => match v with
                   | [] => None
                   | _ => Some (Differ.mkRouteAttr (Z.of_nat (length v) + 4) 0 v)
                   end%list)
       (Netlink.Attributes ar)).

(** The differ of the record type, by way of [Differ.Compare]; a panic is
    reported as an error. *)
Definition compare_records (pm old : Netlink.ArchivalRecord) : Z * option string :=
  match Differ.Compare (to_parsed old) (to_parsed pm) with
  | Some c => (Differ.ChangeType_int c, None)
  | None => (0, Some "compare failed"%string)
  end.

(** Modelled from the spec: the throughput accounting sums [bytes_acked]
    (sent) and [bytes_received]; both are fields of the INFO payload. *)
Definition stats_of (ar : Netlink.ArchivalRecord) : Z * Z :=
  let info := nth Differ.INET_DIAG_INFO (Netlink.Attributes ar) []%list in
  (le_uint (sub info (GoLayout.Offsetof TcpInfo.LinuxTCPInfo "BytesAcked") 8),
   le_uint (sub info (GoLayout.Offsetof TcpInfo.LinuxTCPInfo "BytesReceived") 8)).

Definition ext : Externals := {|
  Now := fun n => Z.of_nat n * Second;
  Format_date := fun _ => "2019/01/01"%string;
  MkdirAll := fun _ _ => None;
  NewWriter := fun _ _ => None;
  FromCookie := fun c => ("host_0_" ++ digits c)%string;
  json_Marshal := fun ar =>
    match Netlink.ar_Metadata ar with
    | Some m => ("{Metadata:" ++ Netlink.UUID m ++ "," ++ digits (Netlink.Sequence m) ++ "}")%string
    | None => "{}"%string
    end;
  Parse := parse_header;
  ar_Compare := compare_records;
  GetStats := stats_of;
  NetlinkMessage := Netlink.ArchivalRecord;
  MakeArchivalRecord := fun m _ => (Some m, None);
  Cache := SpecCache;
  NewCache := mkSpecCache ∅ ∅ 0;
  cache_Update := spec_Update;
  cache_EndCycle := spec_EndCycle
|}.

(** A file system in which no sink can be opened. *)
Definition ext_no_open : Externals := {|
  Now := @Now ext;
  Format_date := @Format_date ext;
  MkdirAll := @MkdirAll ext;
  NewWriter := fun _ _ => Some "open failed"%string;
  FromCookie := @FromCookie ext;
  json_Marshal := @json_Marshal ext;
  Parse := @Parse ext;
  ar_Compare := @ar_Compare ext;
  GetStats := @GetStats ext;
  NetlinkMessage := @NetlinkMessage ext;
  MakeArchivalRecord := @MakeArchivalRecord ext;
  Cache := @Cache ext;
  NewCache := @NewCache ext;
  cache_Update := @cache_Update ext;
  cache_EndCycle := @cache_EndCycle ext
|}.

Definition world0 : World := mkWorld 0 [] [] (mkMetrics 0 0 ∅ [] []).

(** A record with the given header state, cookie and INFO payload, and no
    other attribute. *)
Definition record (t : Time) (state : byte) (cookie : list byte)
    (info : list byte) : Netlink.ArchivalRecord :=
  Netlink.mkArchivalRecord t (header state cookie) [[]; []; info]%list None.

(** The saver [NewSaver "mlab1" "abc01" n] makes. *)
Definition new_saver (n : nat) : @Saver ext :=
  @mkSaver ext "mlab1" "abc01" (10 * Minute) (repeat (mkChan [] false) n)
    ∅ (mkSpecCache ∅ ∅ 0) (mkStats 0 0 0 0).

(** A connection with cookie 7, first seen at second 5, before its first
    file; and the same with the sink 0 as its writer. *)
Definition conn_new : Connection :=
  mkConnection 0 (mkSockID 80 8080 [] [] 0 7) 0 "" (5 * Second) 0 (6 * Second) None.

Definition conn_writing : Connection := set_Writer conn_new (Some 0%nat).

(** A saver with three marshallers that holds [conn] under the cookie 7. *)
Definition saver_holding (conn : Connection) : @Saver ext :=
  @mkSaver ext "mlab1" "abc01" (10 * Minute) (repeat (mkChan [] false) 3)
    {[ 7 := conn ]} (mkSpecCache ∅ ∅ 0) (mkStats 0 0 0 0).

(** INFO payloads of the full structure size: all zero, and the same with
    one byte of [lastDataRecv] (offset 52), of [rto] (offset 8) and of
    [bytesAcked] (offset 120) changed. *)
Definition info_zero : list byte := repeat Byte.x00 224.

Definition info_last_data_recv : list byte :=
  Mem.set_nth info_zero 52 Byte.x01.

Definition info_rto : list byte := Mem.set_nth info_zero 8 Byte.x01.

Definition info_bytes_acked : list byte :=
  Mem.set_nth info_zero 120 Byte.x01.

Definition attr (tp : nat) (v : list byte) : option Differ.RouteAttr :=
  Some (Differ.mkRouteAttr (Z.of_nat (length v) + 4) (Z.of_nat tp) v).

(** An established connection's header. *)
Definition idm_established : InetDiagMsg :=
  mkInetDiagMsg 2 1 0 0
    (mkInetDiagSockID [Byte.x00; Byte.x50] [Byte.x1f; Byte.x90]
       (repeat Byte.x00 16) (repeat Byte.x00 16) (repeat Byte.x00 4)
       ([Byte.x07] ++ repeat Byte.x00 7))
    0 0 0 0 0.

(** A parsed message with the given INFO payload and, around it, the
    attributes of types 1 (MEMINFO) and 4 (CONG) when given. *)
Definition parsed (info : list byte) (meminfo cong : option (list byte))
  : Differ.ParsedMessage :=
  Differ.mkParsedMessage (Some idm_established)
    [None;
     match meminfo with Some v => attr 1 v | None => None end;
     attr 2 info;
     None;
     match cong with Some v => attr 4 v | None => None end].

Definition cubic : list byte :=
  [Byte.x63; Byte.x75; Byte.x62; Byte.x69; Byte.x63; Byte.x00].

(** A saver with three marshallers whose cache saw, in the previous cycle,
    the established connection of cookie 7 with an all-zero INFO payload. *)
Definition saver_cached : @Saver ext :=
  @mkSaver ext "mlab1" "abc01" (10 * Minute) (repeat (mkChan [] false) 3)
    ∅ (mkSpecCache ∅ {[ 7 := record (5 * Second) Byte.x01 [Byte.x07] info_zero ]} 1)
    (mkStats 0 0 0 0).

(** Three records of one scan: cookie 7 with nothing but an elapsed-time
    field changed, cookie 7 again with its byte counter changed, and the
    unseen cookie 9. *)
Definition scan : list Netlink.ArchivalRecord :=
  [ record (6 * Second) Byte.x01 [Byte.x07] info_last_data_recv;
    record (6 * Second) Byte.x01 [Byte.x07] info_bytes_acked;
    record (6 * Second) Byte.x01 [Byte.x09] info_zero ].

(** Two scan blocks, one second apart, of the connection of cookie 7. *)
Definition block1 : @MessageBlock ext :=
  @mkMessageBlock ext (5 * Second)
    [Some (record 0 Byte.x01 [Byte.x07] info_zero)] (5 * Second) [].

Definition block2 : @MessageBlock ext :=
  @mkMessageBlock ext (6 * Second)
    [Some (record 0 Byte.x01 [Byte.x07] info_bytes_acked)] (6 * Second) [].

(** A third block in which the byte counter of the connection has fallen
    back to zero. *)
Definition block3 : @MessageBlock ext :=
  @mkMessageBlock ext (7 * Second)
    [Some (record 0 Byte.x01 [Byte.x07] info_zero)] (7 * Second) [].

End Fixture.

(** ** Vocabulary for the differ *)
Module DifferSpec.
Import Differ.

(** The two attribute tables hold the same thing for the type [tp]: no
    attribute in either, or an attribute with the same value bytes in
    both. *)
Definition same_entry (previous current : list (option RouteAttr)) (tp : nat) : Prop :=
  match nth_error previous tp, nth_error current tp with
  | Some None, Some None => True
  | Some (Some x), Some (Some y) => Value x = Value y
  | _, _ => False
  end.

(** The change seen from the other side: an attribute that is new in one
    direction is lost in the other. *)
Definition swap_change (c : ChangeType) : ChangeType :=
  match c with
  | NewAttribute => LostAttribute
  | LostAttribute => NewAttribute
  | other => other
  end.

(** What the body of the attribute loop decides for one type, from the
    entries of the two tables: the class it returns, or [None] when it goes
    on to the next type. *)
Definition entry_change (ea eb : option RouteAttr) : option ChangeType :=
  match ea, eb with
  | None, Some _ => Some NewAttribute
  | Some _, None => Some LostAttribute
  | None, None => None
  | Some a, Some b =>
      if negb (length (Value a) =? length (Value b)) then Some AttributeLength
      else if negb (bytes_Compare (Value a) (Value b) =? 0)%Z then Some Other
      else None
  end.

End DifferSpec.

(** ** More of package tcpinfo: the congestion algorithm name and the
    older INFO decoder *)
Module Attr.
Import GoLayout Mem.

(** [func (raw *RouteAttrValue) Cong(rta *syscall.NetlinkRouteAttr) string]
    and, in the earlier file, [func ParseCong(rta) string]: both are
    [string(rta.Value[:len(rta.Value)-1])].  On an empty value the upper
    bound is -1 and the slice expression panics. *)
Definition Cong (value : list byte) : option (list byte) :=
  if length value =? 0 then None
  else Some (firstn (length value - 1) value).

Definition ParseCong (value : list byte) : option (list byte) := Cong value.

(** [func ParseLinuxTCPInfo(rta *syscall.NetlinkRouteAttr) *LinuxTCPInfo] of
    the earlier file, which pads in line instead of calling [MaybeCopy]. *)
Definition ParseLinuxTCPInfo (h : Heap) (value : Slice) : Heap * option Pointer :=
  let structSize := Sizeof Differ.LinuxTCPInfo in
  if s_len value <? structSize then
    let '(h1, data) := make h structSize in
    let '(h2, _) := copy h1 data value in
    (h2, addr_of data 0)
  else (h, addr_of value 0).

(** The result [res] of a decoder for the struct type [t] on a value with
    the bytes [bs], started in the heap [h]: a pointer through which every
    field of [t] can be read inside the buffer viewed, the [sizeof(t)] bytes
    seen being the value cut or zero-filled to that size, and no array of
    [h] changed. *)
Definition views_value (t : StructType) (h : Heap) (bs : list byte)
    (res : Heap * option Pointer) : Prop :=
  exists p,
    snd res = Some p /\
    view_in_bounds (fst res) p t = true /\
    firstn (Sizeof t) (reachable (fst res) p)
      = firstn (Sizeof t) (bs ++ repeat Byte.x00 (Sizeof t - length bs)) /\
    (forall i, i < length h -> nth_error (fst res) i = nth_error h i).

End Attr.

(** ** The marshaller goroutine and invariants of the saver *)
Module Marshaller.
Import Saver.

(** How [runMarshaller] ends: the channel was closed and the worker called
    [wg.Done()], or [log.Fatal("Nil writer")] ended the process. *)
Inductive Exit : Type :=
| Done
| Fatal.

Section WithExternals.
Context `{E : Externals}.

(** [func runMarshaller(taskChan <-chan Task, wg *sync.WaitGroup)], over the
    tasks the channel delivers before it is closed.  The state is the world
    and the writers [Close] has been called on, in order.  [Close] on a
    [nil] writer is a call through a nil interface and panics; the results
    of [json.Marshal], [Write] and [Close] are dropped by the source. *)
Fixpoint runMarshaller (tasks : list Task) (w : World) (closed : list WriterRef)
  : option (Exit * World * list WriterRef) :=
  match tasks with
  | [] => Some (Done, w, closed)
  | task :: rest =>
      match Message task with
      | None =>
          match Task_Writer task with
          | Some r => runMarshaller rest w (closed ++ [r])
          | None => None
          end
      | Some msg =>
          match Task_Writer task with
          | None => Some (Fatal, w, closed)
          | Some r =>
              let b := json_Marshal msg in
              runMarshaller rest (sink_Write r newline (sink_Write r b w)) closed
          end
      end
  end.

(** The byte strings the tasks ask to be written to the writer [r], in
    order: for each record, its marshalled form and a newline. *)
Fixpoint lines_for (r : WriterRef) (tasks : list Task) : list string :=
  match tasks with
  | [] => []
  | task :: rest =>
      match Message task, Task_Writer task with
      | Some msg, Some r' =>
          if r' =? r then json_Marshal msg :: newline :: lines_for r rest
          else lines_for r rest
      | _, _ => lines_for r rest
      end
  end.

(** The writers the tasks ask to be closed, in order. *)
Fixpoint closes_of (tasks : list Task) : list WriterRef :=
  match tasks with
  | [] => []
  | task :: rest =>
      match Message task, Task_Writer task with
      | None, Some r => r :: closes_of rest
      | _, _ => closes_of rest
      end
  end.

(** The tasks sent so far on the channel of index [i]. *)
Definition chan_tasks (svr : Saver) (i : nat) : list Task :=
  match nth_error (MarshalChans svr) i with
  | Some c => ch_sent c
  | None => []
  end.

(** What has been written to the sink is one header line. *)
Definition header_only (s : Sink) : Prop :=
  exists md, sink_written s = [json_Marshal (Netlink.header_record md); newline].

(** From [w] to [w'] the saver has only opened files: the sinks of [w] are
    as they were, every new sink holds its header line and nothing else,
    and [NewFileCount] has grown by the number of new sinks. *)
Definition opens_files (w w' : World) : Prop :=
  exists new,
    sinks w' = sinks w ++ new /\
    (forall s, In s new -> header_only s) /\
    (NewFileCount (metrics w') = NewFileCount (metrics w) + Z.of_nat (length new))%Z.

(** Every writer of a connection in the map is a sink that has been opened. *)
Definition writers_valid (svr : Saver) (w : World) : Prop :=
  forall cookie conn r,
    Connections svr !! cookie = Some conn -> Writer conn = Some r ->
    r < length (sinks w).

(** No two connections in the map share a writer. *)
Definition writers_distinct (svr : Saver) : Prop :=
  forall c1 c2 conn1 conn2 r,
    Connections svr !! c1 = Some conn1 -> Connections svr !! c2 = Some conn2 ->
    Writer conn1 = Some r -> Writer conn2 = Some r -> c1 = c2.

(** Every task in a channel carries a writer, and it is an opened sink. *)
Definition tasks_valid (svr : Saver) (w : World) : Prop :=
  forall i task,
    In task (chan_tasks svr i) ->
    exists r, Task_Writer task = Some r /\ r < length (sinks w).

(** A writer that has been sent a close task is the writer of no
    connection in the map. *)
Definition closed_dead (svr : Saver) : Prop :=
  forall i r cookie conn,
    In r (closes_of (chan_tasks svr i)) ->
    Connections svr !! cookie = Some conn -> Writer conn <> Some r.

(** No task of the sequence names a writer that an earlier task of the
    sequence closes. *)
Definition ordered (tasks : list Task) : Prop :=
  forall pre t post r,
    tasks = pre ++ t :: post -> Task_Writer t = Some r -> ~ In r (closes_of pre).

(** The tasks for the writer of a connection are on the channel of the
    connection's cookie. *)
Definition owner (svr : Saver) : Prop :=
  forall cookie conn r i t,
    Connections svr !! cookie = Some conn -> Writer conn = Some r ->
    In t (chan_tasks svr i) -> Task_Writer t = Some r ->
    i = chan_index svr cookie.

(** All tasks for one writer are on one channel. *)
Definition one_chan (svr : Saver) : Prop :=
  forall i j t1 t2 r,
    In t1 (chan_tasks svr i) -> In t2 (chan_tasks svr j) ->
    Task_Writer t1 = Some r -> Task_Writer t2 = Some r -> i = j.

(** Every sink opened since there were [n0] of them is the writer of a
    connection in the map or has been sent a close task. *)
Definition accounted (n0 : nat) (svr : Saver) (w : World) : Prop :=
  forall r, n0 <= r < length (sinks w) ->
    (exists cookie conn, Connections svr !! cookie = Some conn /\ Writer conn = Some r) \/
    (exists i, In r (closes_of (chan_tasks svr i))).

(** The invariant of the channels and the connection map. *)
Definition chans_inv (n0 : nat) (svr : Saver) (w : World) : Prop :=
  writers_valid svr w /\ writers_distinct svr /\ tasks_valid svr w /\
  closed_dead svr /\ (forall i, ordered (chan_tasks svr i)) /\
  owner svr /\ one_chan svr /\ accounted n0 svr w.

(** The invariant of a saver that has not been closed. *)
Definition saver_inv (n0 : nat) (svr : Saver) (w : World) : Prop :=
  all_open svr /\ chans_inv n0 svr w.

End WithExternals.

End Marshaller.

(** ** More scenarios *)
Module Scenario.
Import InetDiag Saver Fixture.
Local Open Scope Z_scope.

(** The world after [n] readings of the clock in which the first file of
    the connection of cookie 7 is open and holds its header line. *)
Definition world_at (n : nat) : World :=
  mkWorld n ["2019/01/01"%string]
    [mkSink "2019/01/01/host_0_7.00000.jsonl.zst"
       ["{Metadata:host_0_7,0}"%string; newline]]
    (mkMetrics 1 1 ∅ [] []).

(** The connection of cookie 7 after its first rotation. *)
Definition conn_rotated : Connection :=
  mkConnection 0 (mkSockID 80 8080 [] [] 0 7) 0 "" (5 * Second) 1
    (6 * Second + 10 * Minute) (Some 0%nat).

(** A new saver with three marshallers on the file system in which no sink
    can be opened. *)
Definition saver_no_open : @Saver ext_no_open :=
  @mkSaver ext_no_open "mlab1" "abc01" (10 * Minute) (repeat (mkChan [] false) 3)
    ∅ (mkSpecCache ∅ ∅ 0) (mkStats 0 0 0 0).

(** A record task and a close task for the sink 0, and a record task
    without a writer. *)
Definition write0 : Task :=
  mkTask (Some (record (5 * Second) Byte.x01 [Byte.x07] info_zero)) (Some 0%nat).

Definition close0 : Task := mkTask None (Some 0%nat).

Definition write_nil : Task :=
  mkTask (Some (record (5 * Second) Byte.x01 [Byte.x07] info_zero)) None.

(** The congestion algorithm value "reno", NUL-terminated. *)
Definition reno : list byte :=
  [Byte.x72; Byte.x65; Byte.x6e; Byte.x6f; Byte.x00].

(** The address 10.0.0.1 in the 16 bytes of the socket id. *)
Definition addr_10_0_0_1 : list byte :=
  ([Byte.x0a; Byte.x00; Byte.x00; Byte.x01] ++ repeat Byte.x00 12)%list.

End Scenario.
(** * Properties *)

(** ** Lists and arrays *)
Section ListFacts.
Context {A : Type}.

Lemma set_nth_app_last (l : list A) (x y : A) :
  Mem.set_nth (l ++ [x]) (length l) y = l ++ [y].
Proof.
  induction l as [|a l IH]; simpl; [reflexivity|]. now rewrite IH.
Qed.

Lemma length_set_nth (l : list A) (i : nat) (x : A) :
  length (Mem.set_nth l i x) = length l.
Proof.
  revert i. induction l as [|y l IH]; intros [|i]; simpl; auto.
Qed.

Lemma nth_error_set_nth (l : list A) (i j : nat) (x : A) :
  i < length l ->
  nth_error (Mem.set_nth l i x) j = if j =? i then Some x else nth_error l j.
Proof.
  revert i j. induction l as [|y l IH]; intros [|i] [|j] H; simpl in *; try lia; auto.
  apply IH. lia.
Qed.

Lemma skipn_repeat_sub (x : A) (k n : nat) :
  skipn k (repeat x n) = repeat x (n - k).
Proof.
  revert n. induction k as [|k IH]; intros [|n]; simpl; auto.
Qed.

(** Two slices that agree at every index are equal. *)
Lemma nth_error_pointwise (l l' : list A) :
  (forall i, nth_error l i = nth_error l' i) -> l = l'.
Proof.
  revert l'. induction l as [|x l IH]; intros [|y l'] H.
  - reflexivity.
  - specialize (H 0). discriminate.
  - specialize (H 0). discriminate.
  - pose proof (H 0) as H0. simpl in H0. injection H0 as ->.
    f_equal. apply IH. intros i. exact (H (S i)).
Qed.

Lemma nth_error_firstn_lt (l : list A) (k i : nat) :
  i < k -> nth_error (firstn k l) i = nth_error l i.
Proof.
  revert k i. induction l as [|x l IH]; intros [|k] [|i] H; simpl; try lia; auto.
  apply IH. lia.
Qed.

Lemma skipn_differ_at (l l' : list A) (k i : nat) :
  k <= i -> nth_error l i <> nth_error l' i -> skipn k l <> skipn k l'.
Proof.
  intros Hk Hne Heq. apply Hne.
  replace i with (k + (i - k)) by lia.
  rewrite <- !nth_error_skipn. now rewrite Heq.
Qed.

Lemma firstn_differ_at (l l' : list A) (k i : nat) :
  i < k -> nth_error l i <> nth_error l' i -> firstn k l <> firstn k l'.
Proof.
  intros Hk Hne Heq. apply Hne.
  rewrite <- (nth_error_firstn_lt l k i Hk), <- (nth_error_firstn_lt l' k i Hk).
  now rewrite Heq.
Qed.

Lemma firstn_agree (l l' : list A) (k : nat) :
  k <= length l -> k <= length l' ->
  (forall i, i < k -> nth_error l i = nth_error l' i) ->
  firstn k l = firstn k l'.
Proof.
  intros Hl Hl' H. apply nth_error_pointwise. intros i.
  destruct (Nat.lt_ge_cases i k) as [Hi|Hi].
  - rewrite !nth_error_firstn_lt by exact Hi. now apply H.
  - transitivity (@None A); [|symmetry]; apply nth_error_None;
      rewrite length_firstn; lia.
Qed.

Lemma skipn_agree (l l' : list A) (k : nat) :
  (forall i, k <= i -> nth_error l i = nth_error l' i) ->
  skipn k l = skipn k l'.
Proof.
  intros H. apply nth_error_pointwise. intros i.
  rewrite !nth_error_skipn. apply H. lia.
Qed.

(** Conversely: equal prefixes and equal tails agree outside the gap. *)
Lemma agree_outside (l l' : list A) (k k' : nat) :
  firstn k l = firstn k l' -> skipn k' l = skipn k' l' ->
  forall i, i < k \/ k' <= i -> nth_error l i = nth_error l' i.
Proof.
  intros Hf Hs i [Hi|Hi].
  - rewrite <- (nth_error_firstn_lt l k i Hi), <- (nth_error_firstn_lt l' k i Hi).
    now rewrite Hf.
  - replace i with (k' + (i - k')) by lia.
    rewrite <- !nth_error_skipn. now rewrite Hs.
Qed.

Lemma app_singleton_neq (l : list A) (x : A) : l ++ [x] <> l.
Proof.
  intros H. apply (f_equal (@length A)) in H. rewrite length_app in H. simpl in H. lia.
Qed.

Lemma seq_split_at (n tp : nat) :
  tp < n -> seq 0 n = seq 0 tp ++ tp :: seq (S tp) (n - S tp).
Proof.
  intros H. replace n with (tp + S (n - S tp)) at 1 by lia.
  rewrite seq_app. reflexivity.
Qed.

End ListFacts.

(** ** The attribute decoders *)
Section MaybeCopyFacts.
Import GoLayout Mem TcpInfo.

Lemma slice_bytes_length h s bs :
  slice_bytes h s = Some bs -> length bs = s_len s.
Proof.
  unfold slice_bytes. destruct (Nat.eqb_spec (s_len s) 0) as [H0|_].
  { intros [= <-]. simpl. lia. }
  destruct (nth_error h (s_arr s)) as [a|] eqn:Ha; [|discriminate].
  destruct (s_off s + s_len s <=? length a) eqn:Hle; [|discriminate].
  intros [= <-]. apply Nat.leb_le in Hle.
  rewrite length_firstn, length_skipn. lia.
Qed.

(** Allocation leaves the slices that exist readable, with their bytes. *)
Lemma slice_bytes_app h s bs extra :
  slice_bytes h s = Some bs -> slice_bytes (h ++ extra) s = Some bs.
Proof.
  unfold slice_bytes. destruct (s_len s =? 0); [auto|].
  destruct (nth_error h (s_arr s)) as [a|] eqn:Ha; [|discriminate].
  intros H. rewrite nth_error_app1 by (apply nth_error_Some; congruence).
  now rewrite Ha.
Qed.

Lemma overwrite_zeros n bs :
  length bs <= n ->
  overwrite (repeat Byte.x00 n) 0 bs = bs ++ repeat Byte.x00 (n - length bs).
Proof.
  intros Hle. unfold overwrite. simpl. f_equal.
  now rewrite skipn_repeat_sub.
Qed.

(** What [make] followed by [copy] leaves in the new array. *)
Lemma copy_into_new h src bs n :
  slice_bytes h src = Some bs -> s_len src <= n ->
  copy (h ++ [repeat Byte.x00 n]) (mkSlice (length h) 0 n) src
  = (h ++ [bs ++ repeat Byte.x00 (n - s_len src)], s_len src).
Proof.
  intros Hs Hle. unfold copy.
  rewrite (slice_bytes_app _ _ _ [repeat Byte.x00 n] Hs). simpl.
  rewrite nth_error_app2 by lia. rewrite Nat.sub_diag. simpl.
  unfold valid. simpl. rewrite nth_error_app2 by lia. rewrite Nat.sub_diag. simpl.
  rewrite repeat_length, Nat.leb_refl.
  pose proof (slice_bytes_length _ _ _ Hs) as Hl.
  rewrite Nat.min_r by lia.
  rewrite firstn_all2 by lia.
  rewrite overwrite_zeros by lia. rewrite Hl.
  now rewrite set_nth_app_last.
Qed.

(** The short case of [MaybeCopy], for any struct size: a new array of
    [size] bytes, the value followed by zeros, and a pointer to its start. *)
Lemma MaybeCopy_short h src bs (size : nat) :
  slice_bytes h src = Some bs -> s_len src < size ->
  MaybeCopy h src (Z.of_nat size)
  = (h ++ [bs ++ repeat Byte.x00 (size - s_len src)],
     Some (mkPointer (length h) 0 size)).
Proof.
  intros Hs Hlt. unfold MaybeCopy.
  destruct (Z.ltb_spec (Z.of_nat (s_len src)) (Z.of_nat size)) as [_|Hge]; [|lia].
  unfold make. rewrite Nat2Z.id.
  rewrite (copy_into_new h src bs size Hs) by lia.
  unfold addr_of. simpl.
  destruct (Nat.ltb_spec 0 size) as [_|H0]; [|lia].
  now rewrite Nat.sub_0_r.
Qed.

(** The other case: the pointer goes into the argument and nothing is
    allocated. *)
Lemma MaybeCopy_long h src (size : nat) :
  size <= s_len src -> 0 < s_len src ->
  MaybeCopy h src (Z.of_nat size)
  = (h, Some (mkPointer (s_arr src) (s_off src) (s_len src))).
Proof.
  intros Hle Hpos. unfold MaybeCopy.
  destruct (Z.ltb_spec (Z.of_nat (s_len src)) (Z.of_nat size)) as [Hlt|_]; [lia|].
  unfold addr_of. destruct (Nat.ltb_spec 0 (s_len src)) as [_|H0]; [|lia].
  now rewrite Nat.add_0_r, Nat.sub_0_r.
Qed.

(** C2.  For a raw INFO value of length L below sizeof(LinuxTCPInfo),
    ToLinuxTCPInfo returns (no panic) a pointer to the start of a newly
    allocated array of exactly sizeof(LinuxTCPInfo) bytes whose first L
    bytes are the bytes of the value and whose other bytes are zero; every
    array that existed before the call, and so the value itself, is
    unchanged. *)
Theorem ToLinuxTCPInfo_zero_pads (h : Heap) (raw : Slice) (bs : list byte) :
  slice_bytes h raw = Some bs ->
  s_len raw < Sizeof LinuxTCPInfo ->
  exists h' p buf,
    ToLinuxTCPInfo h raw = (h', Some p) /\
    p_arr p = length h /\ p_off p = 0 /\ p_ext p = Sizeof LinuxTCPInfo /\
    length h' = S (length h) /\
    nth_error h' (p_arr p) = Some buf /\
    length buf = Sizeof LinuxTCPInfo /\
    firstn (s_len raw) buf = bs /\
    skipn (s_len raw) buf = repeat Byte.x00 (Sizeof LinuxTCPInfo - s_len raw) /\
    (forall i, i < length h -> nth_error h' i = nth_error h i) /\
    slice_bytes h' raw = Some bs.
Proof.
  intros Hs Hlt.
  pose proof (slice_bytes_length _ _ _ Hs) as Hl.
  exists (h ++ [bs ++ repeat Byte.x00 (Sizeof LinuxTCPInfo - s_len raw)]),
         (mkPointer (length h) 0 (Sizeof LinuxTCPInfo)),
         (bs ++ repeat Byte.x00 (Sizeof LinuxTCPInfo - s_len raw)).
  split; [apply (MaybeCopy_short h raw bs _ Hs Hlt)|].
  simpl p_arr; simpl p_off; simpl p_ext.
  repeat split.
  - rewrite length_app. simpl. lia.
  - rewrite nth_error_app2 by lia. now rewrite Nat.sub_diag.
  - rewrite length_app, repeat_length. lia.
  - rewrite <- Hl. rewrite firstn_app, Nat.sub_diag, firstn_all. simpl. now rewrite app_nil_r.
  - rewrite <- Hl at 1. rewrite skipn_app, Nat.sub_diag, skipn_all. reflexivity.
  - intros i Hi. now rewrite nth_error_app1.
  - now apply slice_bytes_app.
Qed.

(** The buffer viewed through a pointer to the start of a new array. *)
Lemma reachable_new h buf n :
  reachable (h ++ [buf]) (mkPointer (length h) 0 n) = firstn n buf.
Proof.
  unfold reachable. cbn [p_arr p_off p_ext].
  rewrite nth_error_app2 by lia. rewrite Nat.sub_diag. reflexivity.
Qed.

(** The policy as the siblings of [ToBBRInfo] apply it: a short value is
    viewed over a new buffer of the size of the decoder's own type, in which
    every field can be read. *)
Lemma ToMemInfo_short h raw bs :
  slice_bytes h raw = Some bs -> s_len raw < Sizeof MemInfo ->
  exists h' p,
    ToMemInfo h raw = (h', Some p) /\
    length (reachable h' p) = Sizeof MemInfo /\
    view_in_bounds h' p MemInfo = true.
Proof.
  intros Hs Hlt. unfold ToMemInfo. rewrite (MaybeCopy_short h raw bs _ Hs Hlt).
  eexists _, _. split; [reflexivity|].
  pose proof (slice_bytes_length _ _ _ Hs) as Hl.
  assert (Hr : length (reachable (h ++ [bs ++ repeat Byte.x00 (Sizeof MemInfo - s_len raw)])
                         (mkPointer (length h) 0 (Sizeof MemInfo))) = Sizeof MemInfo).
  { rewrite reachable_new, length_firstn, length_app, repeat_length. lia. }
  split; [exact Hr|].
  unfold view_in_bounds, read_field. rewrite Hr. reflexivity.
Qed.

(** The buffer [ToBBRInfo] views a short value over has the size of
    [MemInfo] when it is new, and the length of the value otherwise: in
    both cases less than a [BBRInfo]; the last field, [CwndGain] at bytes
    16 to 19, lies outside it for every value of fewer than 20 bytes. *)
Lemma ToBBRInfo_view_short h raw bs :
  slice_bytes h raw = Some bs -> s_len raw < Sizeof BBRInfo ->
  exists h' p,
    ToBBRInfo h raw = (h', Some p) /\
    length (reachable h' p) = Nat.max (Sizeof MemInfo) (s_len raw) /\
    length (reachable h' p) < Sizeof BBRInfo /\
    (s_len raw < 20 -> read_field h' p BBRInfo "CwndGain" = None).
Proof.
  intros Hs Hlt. unfold ToBBRInfo.
  pose proof (slice_bytes_length _ _ _ Hs) as Hl.
  assert (HM : Sizeof MemInfo = 16) by reflexivity.
  assert (HB : Sizeof BBRInfo = 24) by reflexivity.
  assert (Hfield : forall h' p, length (reachable h' p) < 20 ->
                     read_field h' p BBRInfo "CwndGain" = None).
  { intros h' p Hr. unfold read_field.
    change (field BBRInfo "CwndGain") with (Some (16, Uint32)).
    cbv beta iota zeta. change (16 + kind_size Uint32) with 20.
    destruct (Nat.leb_spec 20 (length (reachable h' p))); [lia|reflexivity]. }
  destruct (Nat.lt_ge_cases (s_len raw) (Sizeof MemInfo)) as [Hshort|Hlong].
  - rewrite (MaybeCopy_short h raw bs _ Hs Hshort).
    eexists _, _. split; [reflexivity|].
    assert (Hr : length (reachable (h ++ [bs ++ repeat Byte.x00 (Sizeof MemInfo - s_len raw)])
                           (mkPointer (length h) 0 (Sizeof MemInfo))) = Sizeof MemInfo).
    { rewrite reachable_new, length_firstn, length_app, repeat_length. lia. }
    rewrite Hr. split; [lia|]. split; [lia|]. intros _. apply Hfield. lia.
  - rewrite (MaybeCopy_long h raw _ Hlong) by lia.
    eexists _, _. split; [reflexivity|].
    assert (Hr : length (reachable h (mkPointer (s_arr raw) (s_off raw) (s_len raw)))
                 = s_len raw).
    { unfold reachable, slice_bytes in *. simpl.
      destruct (Nat.eqb_spec (s_len raw) 0) as [H0|_]; [lia|].
      destruct (nth_error h (s_arr raw)) as [a|]; [|discriminate].
      destruct (Nat.leb_spec (s_off raw + s_len raw) (length a)); [|discriminate].
      rewrite length_firstn, length_skipn. lia. }
    rewrite Hr. split; [lia|]. split; [lia|]. intros H20. apply Hfield. lia.
Qed.

(** C3.  [ToBBRInfo] on the 12-byte value 01 .. 0c and on a 16-byte value:
    the first is copied into a new buffer of 16 bytes, the size of
    [MemInfo], where the policy asks for the 24 bytes of a [BBRInfo]; the
    second is not copied at all and is viewed in place over its 16 bytes.
    In both, reading the field [CwndGain] of the returned struct (bytes 16
    to 19) leaves the buffer. *)
Theorem ToBBRInfo_pads_to_MemInfo_size :
  let short := [Byte.x01; Byte.x02; Byte.x03; Byte.x04; Byte.x05; Byte.x06;
                Byte.x07; Byte.x08; Byte.x09; Byte.x0a; Byte.x0b; Byte.x0c] in
  let full := repeat Byte.xff 16 in
  Sizeof BBRInfo = 24 /\ Sizeof MemInfo = 16 /\
  ToBBRInfo [short] (mkSlice 0 0 12)
    = ([short; short ++ repeat Byte.x00 4], Some (mkPointer 1 0 16)) /\
  view_in_bounds [short; short ++ repeat Byte.x00 4] (mkPointer 1 0 16) BBRInfo = false /\
  read_field [short; short ++ repeat Byte.x00 4] (mkPointer 1 0 16) BBRInfo "CwndGain"
    = None /\
  ToBBRInfo [full] (mkSlice 0 0 16) = ([full], Some (mkPointer 0 0 16)) /\
  view_in_bounds [full] (mkPointer 0 0 16) BBRInfo = false /\
  read_field [full] (mkPointer 0 0 16) BBRInfo "CwndGain" = None.
Proof.
  repeat split; reflexivity.
Qed.

End MaybeCopyFacts.

(** ** The differ *)
Section DifferFacts.
Import InetDiag Differ.

Lemma byte_to_N_inj (x y : byte) : Byte.to_N x = Byte.to_N y -> x = y.
Proof.
  intros H. pose proof (Byte.of_to_N x) as Hx. pose proof (Byte.of_to_N y) as Hy.
  rewrite H in Hx. congruence.
Qed.

(** [bytes.Compare] answers 0 exactly on equal slices. *)
Lemma bytes_Compare_eq (a b : list byte) :
  bytes_Compare a b = 0%Z <-> a = b.
Proof.
  revert b. induction a as [|x a IH]; intros [|y b]; simpl;
    try (split; [discriminate|discriminate]).
  - tauto.
  - destruct (N.compare_spec (Byte.to_N x) (Byte.to_N y)) as [He|Hl|Hg].
    + apply byte_to_N_inj in He. subst y. rewrite IH.
      split; [intros ->; reflexivity|intros [= ->]; reflexivity].
    + split; [discriminate|]. intros [= -> _]. lia.
    + split; [discriminate|]. intros [= -> _]. lia.
Qed.

Lemma bytes_Compare_refl (a : list byte) : bytes_Compare a a = 0%Z.
Proof. now apply bytes_Compare_eq. Qed.

Lemma bytes_differ_test (a b : list byte) :
  negb (bytes_Compare a b =? 0)%Z = true <-> a <> b.
Proof.
  rewrite negb_true_iff, Z.eqb_neq, bytes_Compare_eq. tauto.
Qed.

(** The loop over attribute types passes over every type at which the two
    records hold the same entry. *)
Lemma compare_attrs_same previous current (pre rest : list nat) :
  (forall tp, In tp pre -> tp <> INET_DIAG_INFO ->
     nth_error previous tp <> None /\
     nth_error previous tp = nth_error current tp) ->
  compare_attrs previous current (pre ++ rest) = compare_attrs previous current rest.
Proof.
  induction pre as [|tp pre IH]; intros H; simpl; [reflexivity|].
  destruct (Nat.eqb_spec tp INET_DIAG_INFO) as [Heq|Hne].
  - apply IH. intros t Ht. apply H. now right.
  - destruct (H tp (or_introl eq_refl) Hne) as [Hin Hsame].
    rewrite <- Hsame.
    destruct (nth_error previous tp) as [[a|]|]; [| |congruence].
    + rewrite Nat.eqb_refl, bytes_Compare_refl. simpl.
      apply IH. intros t Ht. apply H. now right.
    + apply IH. intros t Ht. apply H. now right.
Qed.

Lemma compare_attrs_all_same previous current :
  (forall tp, tp <> INET_DIAG_INFO ->
     nth_error previous tp = nth_error current tp) ->
  compare_attrs previous current (seq 0 (length previous)) = Some NoMajorChange.
Proof.
  intros H. rewrite <- (app_nil_r (seq 0 (length previous))).
  rewrite compare_attrs_same; [reflexivity|].
  intros tp Hin Hne. split; [|now apply H].
  apply in_seq in Hin. apply nth_error_Some. lia.
Qed.

(** [Compare] on records with equal state and INFO payloads long enough to
    be sliced: the two byte tests, then the attribute loop. *)
Lemma Compare_unfold previous current pidm cidm a b :
  InetDiagMsg previous = Some pidm -> InetDiagMsg current = Some cidm ->
  IDiagState pidm = IDiagState cidm ->
  nth_error (Attributes previous) INET_DIAG_INFO = Some (Some a) ->
  nth_error (Attributes current) INET_DIAG_INFO = Some (Some b) ->
  PmtuOffset <= length (Value a) -> PmtuOffset <= length (Value b) ->
  Compare previous current =
    if negb (bytes_Compare (skipn PmtuOffset (Value a)) (skipn PmtuOffset (Value b)) =? 0)%Z
    then Some StateOrCounterChange
    else if negb (bytes_Compare (firstn LastDataSentOffset (Value a))
                    (firstn LastDataSentOffset (Value b)) =? 0)%Z
    then Some StateOrCounterChange
    else compare_attrs (Attributes previous) (Attributes current)
           (seq 0 (length (Attributes previous))).
Proof.
  intros Hp Hc Hst Ha Hb Hla Hlb. unfold Compare.
  rewrite Hp, Hc, Hst, Z.eqb_refl, Ha, Hb. simpl negb. cbv iota.
  unfold slice_from, slice_to.
  destruct (Nat.leb_spec PmtuOffset (length (Value a))) as [_|?]; [|lia].
  destruct (Nat.leb_spec PmtuOffset (length (Value b))) as [_|?]; [|lia].
  assert (HL : LastDataSentOffset <= PmtuOffset) by (vm_compute; lia).
  destruct (Nat.leb_spec LastDataSentOffset (length (Value a))) as [_|?]; [|lia].
  destruct (Nat.leb_spec LastDataSentOffset (length (Value b))) as [_|?]; [|lia].
  reflexivity.
Qed.

(** C1, as amended.  For records with equal IDiagState, both carrying an
    INFO attribute of at least PmtuOffset bytes, and with identical
    non-INFO attributes: if the INFO payloads agree at every byte position
    outside [LastDataSentOffset, PmtuOffset), Compare returns
    NoMajorChange; if they differ at some position below
    LastDataSentOffset or at or after PmtuOffset, Compare returns
    StateOrCounterChange.  (A position that one payload has and the other
    lacks is a position where they differ.) *)
Theorem Compare_info_regions previous current pidm cidm (a b : RouteAttr) :
  InetDiagMsg previous = Some pidm -> InetDiagMsg current = Some cidm ->
  IDiagState pidm = IDiagState cidm ->
  nth_error (Attributes previous) INET_DIAG_INFO = Some (Some a) ->
  nth_error (Attributes current) INET_DIAG_INFO = Some (Some b) ->
  (forall tp, tp <> INET_DIAG_INFO ->
     nth_error (Attributes previous) tp = nth_error (Attributes current) tp) ->
  PmtuOffset <= length (Value a) -> PmtuOffset <= length (Value b) ->
  ((forall i, i < LastDataSentOffset \/ PmtuOffset <= i ->
      nth_error (Value a) i = nth_error (Value b) i) ->
   Compare previous current = Some NoMajorChange) /\
  ((exists i, (i < LastDataSentOffset \/ PmtuOffset <= i) /\
      nth_error (Value a) i <> nth_error (Value b) i) ->
   Compare previous current = Some StateOrCounterChange).
Proof.
  intros Hp Hc Hst Ha Hb Hsame Hla Hlb.
  rewrite (Compare_unfold _ _ _ _ _ _ Hp Hc Hst Ha Hb Hla Hlb).
  assert (HL : LastDataSentOffset <= PmtuOffset) by (vm_compute; lia).
  split.
  - intros Hagree.
    rewrite (skipn_agree (Value a) (Value b) PmtuOffset) by (intros; apply Hagree; lia).
    rewrite (firstn_agree (Value a) (Value b) LastDataSentOffset)
      by (try lia; intros; apply Hagree; lia).
    rewrite !bytes_Compare_refl. simpl.
    now apply compare_attrs_all_same.
  - intros (i & [Hi|Hi] & Hne).
    + destruct (negb (bytes_Compare (skipn _ _) (skipn _ _) =? 0)%Z); [reflexivity|].
      pose proof (firstn_differ_at _ _ _ _ Hi Hne) as Hd.
      apply bytes_differ_test in Hd. now rewrite Hd.
    + pose proof (skipn_differ_at _ _ _ _ Hi Hne) as Hd.
      apply bytes_differ_test in Hd. now rewrite Hd.
Qed.

Import DifferSpec.

(** One round of the attribute loop, for a type other than INFO. *)
Lemma compare_attrs_cons previous current (tp : nat) (rest : list nat) :
  tp <> INET_DIAG_INFO ->
  compare_attrs previous current (tp :: rest)
  = match nth_error previous tp, nth_error current tp with
    | Some ea, Some eb =>
        match entry_change ea eb with
        | Some c => Some c
        | None => compare_attrs previous current rest
        end
    | _, _ => None
    end.
Proof.
  intros Hne. cbn [compare_attrs].
  destruct (Nat.eqb_spec tp INET_DIAG_INFO) as [|_]; [contradiction|].
  destruct (nth_error previous tp) as [[a|]|]; destruct (nth_error current tp) as [[b|]|];
    try reflexivity.
  unfold entry_change.
  destruct (negb (length (Value a) =? length (Value b))); [reflexivity|].
  destruct (negb (bytes_Compare (Value a) (Value b) =? 0)%Z); reflexivity.
Qed.

(** The loop goes on exactly at the types where the tables hold the same
    entry. *)
Lemma same_entry_goes_on previous current (t : nat) :
  same_entry previous current t <->
  exists ea eb, nth_error previous t = Some ea /\ nth_error current t = Some eb /\
                entry_change ea eb = None.
Proof.
  unfold same_entry, entry_change.
  destruct (nth_error previous t) as [[a|]|]; destruct (nth_error current t) as [[b|]|];
    try (split; [contradiction|intros (ea & eb & H1 & H2 & H3); discriminate]);
    try (split; [contradiction|intros (ea & eb & [= <-] & [= <-] & H3); discriminate]).
  - split.
    + intros Hv. exists (Some a), (Some b). rewrite Hv, Nat.eqb_refl, bytes_Compare_refl.
      auto.
    + intros (ea & eb & [= <-] & [= <-] & H).
      destruct (Nat.eqb_spec (length (Value a)) (length (Value b))); [|discriminate].
      cbn [negb] in H.
      destruct (Z.eqb_spec (bytes_Compare (Value a) (Value b)) 0) as [Hb|]; [|discriminate].
      now apply bytes_Compare_eq.
  - split; [intros _; exists None, None; auto|auto].
Qed.

(** The attribute loop over the types [s, s + n) answers a class other
    than NoMajorChange exactly when the body decides that class at the
    first type of the range, INFO apart, at which the two tables do not
    hold the same entry. *)
Lemma compare_attrs_first_difference previous current (c : ChangeType) (n : nat) :
  c <> NoMajorChange -> forall s,
  compare_attrs previous current (seq s n) = Some c <->
  exists tp ea eb,
    s <= tp < s + n /\ tp <> INET_DIAG_INFO /\
    (forall t, s <= t < tp -> t <> INET_DIAG_INFO -> same_entry previous current t) /\
    nth_error previous tp = Some ea /\ nth_error current tp = Some eb /\
    entry_change ea eb = Some c.
Proof.
  intros Hc. induction n as [|n IH]; intros s.
  - simpl. split; [intros [= H]; now elim Hc|intros (tp & ea & eb & Hr & _); lia].
  - cbn [seq].
    assert (Hlater :
      (s = INET_DIAG_INFO \/ same_entry previous current s) ->
      (exists tp ea eb,
         S s <= tp < S s + n /\ tp <> INET_DIAG_INFO /\
         (forall t, S s <= t < tp -> t <> INET_DIAG_INFO -> same_entry previous current t) /\
         nth_error previous tp = Some ea /\ nth_error current tp = Some eb /\
         entry_change ea eb = Some c) ->
      exists tp ea eb,
        s <= tp < s + S n /\ tp <> INET_DIAG_INFO /\
        (forall t, s <= t < tp -> t <> INET_DIAG_INFO -> same_entry previous current t) /\
        nth_error previous tp = Some ea /\ nth_error current tp = Some eb /\
        entry_change ea eb = Some c).
    { intros Hs (tp & ea & eb & Hr & Hne & Hlow & HQ). exists tp, ea, eb.
      split; [lia|]. split; [exact Hne|]. split; [|exact HQ].
      intros t Ht Hti. destruct (Nat.eq_dec t s) as [->|Hts].
      - destruct Hs as [Hs|Hs]; [contradiction|exact Hs].
      - apply Hlow; [lia|exact Hti]. }
    assert (Hearlier : forall tp ea eb,
      s <= tp < s + S n -> tp <> s ->
      (forall t, s <= t < tp -> t <> INET_DIAG_INFO -> same_entry previous current t) ->
      nth_error previous tp = Some ea -> nth_error current tp = Some eb ->
      entry_change ea eb = Some c -> tp <> INET_DIAG_INFO ->
      (s <> INET_DIAG_INFO -> same_entry previous current s) /\
      exists tp ea eb,
        S s <= tp < S s + n /\ tp <> INET_DIAG_INFO /\
        (forall t, S s <= t < tp -> t <> INET_DIAG_INFO -> same_entry previous current t) /\
        nth_error previous tp = Some ea /\ nth_error current tp = Some eb /\
        entry_change ea eb = Some c).
    { intros tp ea eb Hr Hts Hlow Hp Hcu He Hne. split.
      - intros Hs. apply Hlow; [lia|exact Hs].
      - exists tp, ea, eb. split; [lia|]. split; [exact Hne|].
        split; [|auto]. intros t Ht Hti. apply Hlow; [lia|exact Hti]. }
    destruct (Nat.eq_dec s INET_DIAG_INFO) as [Hinfo|Hinfo].
    + cbn [compare_attrs]. rewrite Hinfo at 1. rewrite Nat.eqb_refl, IH. split.
      * apply Hlater. now left.
      * intros (tp & ea & eb & Hr & Hne & Hlow & Hp & Hcu & He).
        apply (Hearlier tp ea eb); auto. congruence.
    + rewrite (compare_attrs_cons _ _ _ _ Hinfo).
      destruct (nth_error previous s) as [ea0|] eqn:Hp0;
        [destruct (nth_error current s) as [eb0|] eqn:Hc0|].
      * destruct (entry_change ea0 eb0) as [c0|] eqn:He0.
        -- split.
           ++ intros [= ->]. exists s, ea0, eb0. split; [lia|]. split; [exact Hinfo|].
              split; [intros t Ht; lia|]. auto.
           ++ intros (tp & ea & eb & Hr & Hne & Hlow & Hp & Hcu & He).
              destruct (Nat.eq_dec tp s) as [->|Hts]; [congruence|].
              destruct (Hearlier tp ea eb Hr Hts Hlow Hp Hcu He Hne) as [Hs _].
              apply Hs in Hinfo. apply same_entry_goes_on in Hinfo.
              destruct Hinfo as (ea' & eb' & H1 & H2 & H3). congruence.
        -- rewrite IH. split.
           ++ apply Hlater. right. apply same_entry_goes_on. eauto.
           ++ intros (tp & ea & eb & Hr & Hne & Hlow & Hp & Hcu & He).
              destruct (Nat.eq_dec tp s) as [->|Hts]; [congruence|].
              apply (Hearlier tp ea eb); auto.
      * split; [discriminate|].
        intros (tp & ea & eb & Hr & Hne & Hlow & Hp & Hcu & He).
        destruct (Nat.eq_dec tp s) as [->|Hts]; [congruence|].
        destruct (Hearlier tp ea eb Hr Hts Hlow Hp Hcu He Hne) as [Hs _].
        apply Hs in Hinfo. apply same_entry_goes_on in Hinfo.
        destruct Hinfo as (ea' & eb' & H1 & H2 & H3). congruence.
      * split; [discriminate|].
        intros (tp & ea & eb & Hr & Hne & Hlow & Hp & Hcu & He).
        destruct (Nat.eq_dec tp s) as [->|Hts]; [congruence|].
        destruct (Hearlier tp ea eb Hr Hts Hlow Hp Hcu He Hne) as [Hs _].
        apply Hs in Hinfo. apply same_entry_goes_on in Hinfo.
        destruct Hinfo as (ea' & eb' & H1 & H2 & H3). congruence.
Qed.

(** The loop reads the current table only at the types it ranges over. *)
Lemma compare_attrs_ext previous current current' (tps : list nat) :
  (forall tp, In tp tps -> nth_error current tp = nth_error current' tp) ->
  compare_attrs previous current tps = compare_attrs previous current' tps.
Proof.
  induction tps as [|tp tps IH]; intros H; [reflexivity|].
  cbn [compare_attrs]. rewrite <- (H tp (or_introl eq_refl)).
  rewrite IH by (intros t Ht; apply H; now right). reflexivity.
Qed.

(** C4, as amended.  For records with equal IDiagState and INFO present in
    both, at least PmtuOffset bytes long and equal in the compared regions,
    [Attributes] being the table of attribute pointers, indexed by type,
    that Compare ranges over.  Compare returns NewAttribute exactly when
    there is a type tp other than INFO that has a nil entry in the table of
    previous and an attribute in the table of current, while at every lower
    type other than INFO the two tables hold the same entry (nil in both,
    or an attribute with the same value bytes in both); it returns
    LostAttribute exactly when there is such a tp with an attribute in the
    table of previous and a nil entry in the table of current.  So the
    first type at which the tables differ decides, and a type present only
    in current yields NewAttribute by itself only if no lower type differs.
    The entries of current at types beyond the end of the table of previous
    are not examined: Compare gives the same result without them. *)
Theorem Compare_first_attribute_difference previous current pidm cidm
    (a b : RouteAttr) :
  InetDiagMsg previous = Some pidm -> InetDiagMsg current = Some cidm ->
  IDiagState pidm = IDiagState cidm ->
  nth_error (Attributes previous) INET_DIAG_INFO = Some (Some a) ->
  nth_error (Attributes current) INET_DIAG_INFO = Some (Some b) ->
  PmtuOffset <= length (Value a) -> PmtuOffset <= length (Value b) ->
  skipn PmtuOffset (Value a) = skipn PmtuOffset (Value b) ->
  firstn LastDataSentOffset (Value a) = firstn LastDataSentOffset (Value b) ->
  (Compare previous current = Some NewAttribute <->
   exists tp x,
     tp <> INET_DIAG_INFO /\
     (forall t, t < tp -> t <> INET_DIAG_INFO ->
        same_entry (Attributes previous) (Attributes current) t) /\
     nth_error (Attributes previous) tp = Some None /\
     nth_error (Attributes current) tp = Some (Some x)) /\
  (Compare previous current = Some LostAttribute <->
   exists tp x,
     tp <> INET_DIAG_INFO /\
     (forall t, t < tp -> t <> INET_DIAG_INFO ->
        same_entry (Attributes previous) (Attributes current) t) /\
     nth_error (Attributes previous) tp = Some (Some x) /\
     nth_error (Attributes current) tp = Some None) /\
  Compare previous current
  = Compare previous
      (mkParsedMessage (InetDiagMsg current)
         (firstn (length (Attributes previous)) (Attributes current))).
Proof.
  intros Hp Hc Hst Ha Hb Hla Hlb Htail Hhead.
  assert (Hloop : Compare previous current
                  = compare_attrs (Attributes previous) (Attributes current)
                      (seq 0 (length (Attributes previous)))).
  { rewrite (Compare_unfold _ _ _ _ _ _ Hp Hc Hst Ha Hb Hla Hlb).
    now rewrite Htail, Hhead, !bytes_Compare_refl. }
  split; [|split].
  - rewrite Hloop, (compare_attrs_first_difference _ _ NewAttribute _ ltac:(discriminate) 0).
    split.
    + intros (tp & ea & eb & Hr & Hne & Hlow & Hpe & Hce & He).
      destruct ea as [x|]; destruct eb as [y|]; unfold entry_change in He;
        try discriminate.
      * destruct (negb _); [discriminate|]. destruct (negb _); discriminate.
      * exists tp, y. split; [exact Hne|]. split; [|auto].
        intros t Ht. apply Hlow. lia.
    + intros (tp & x & Hne & Hlow & Hpe & Hce).
      exists tp, None, (Some x). split.
      { split; [lia|]. apply nth_error_Some. congruence. }
      split; [exact Hne|]. split; [|auto]. intros t Ht. apply Hlow. lia.
  - rewrite Hloop, (compare_attrs_first_difference _ _ LostAttribute _ ltac:(discriminate) 0).
    split.
    + intros (tp & ea & eb & Hr & Hne & Hlow & Hpe & Hce & He).
      destruct ea as [x|]; destruct eb as [y|]; unfold entry_change in He;
        try discriminate.
      * destruct (negb _); [discriminate|]. destruct (negb _); discriminate.
      * exists tp, x. split; [exact Hne|]. split; [|auto].
        intros t Ht. apply Hlow. lia.
    + intros (tp & x & Hne & Hlow & Hpe & Hce).
      exists tp, (Some x), None. split.
      { split; [lia|]. apply nth_error_Some. congruence. }
      split; [exact Hne|]. split; [|auto]. intros t Ht. apply Hlow. lia.
  - rewrite Hloop.
    assert (Hinfo : INET_DIAG_INFO < length (Attributes previous))
      by (apply nth_error_Some; congruence).
    rewrite (Compare_unfold previous _ pidm cidm a b Hp); auto.
    + rewrite Htail, Hhead, !bytes_Compare_refl. cbn [negb Z.eqb Attributes].
      apply compare_attrs_ext. intros tp Hin. apply in_seq in Hin.
      symmetry. apply nth_error_firstn_lt. lia.
    + cbn [Attributes]. rewrite nth_error_firstn_lt by exact Hinfo. exact Hb.
Qed.

End DifferFacts.

(** ** The saver *)
Section SaverFacts.
Import InetDiag Saver.
Context `{E : Externals}.
Local Open Scope Z_scope.

(** *** Machine integers *)

Lemma wrap_int_id (z : Z) : - 2 ^ 63 <= z < 2 ^ 63 -> wrap_int z = z.
Proof.
  intros H. unfold wrap_int. rewrite Z.mod_small by lia. lia.
Qed.

Lemma wrap_int_succ (z : Z) : - 2 ^ 63 <= z < 2 ^ 63 - 1 -> wrap_int (z + 1) = z + 1.
Proof.
  intros H. apply wrap_int_id. lia.
Qed.

Lemma wrap64_range (z : Z) : 0 <= wrap64 z < 2 ^ 64.
Proof. unfold wrap64. apply Z.mod_pos_bound. lia. Qed.

Lemma total_range (cs : cycleStats) : 0 <= total cs < 2 ^ 64.
Proof. apply wrap64_range. Qed.

(** *** Channels *)

Lemma all_open_nth (svr : Saver) (i : nat) (c : MarshalChan) :
  all_open svr -> nth_error (MarshalChans svr) i = Some c -> ch_closed c = false.
Proof.
  unfold all_open. generalize (MarshalChans svr). intros l. revert i.
  induction l as [|d l IH]; intros [|i] Ho Hc; simpl in *; try discriminate.
  - injection Hc as ->. apply andb_prop in Ho. destruct Ho as [Ho _].
    now apply negb_true_iff in Ho.
  - apply andb_prop in Ho. destruct Ho as [_ Ho]. eapply IH; eauto.
Qed.

Lemma chan_index_lt (svr : Saver) (cookie : Z) :
  (1 <= length (MarshalChans svr))%nat ->
  (chan_index svr cookie < length (MarshalChans svr))%nat.
Proof.
  intros H. unfold chan_index.
  pose proof (Z.mod_pos_bound cookie (Z.of_nat (length (MarshalChans svr)))) as Hb.
  lia.
Qed.

(** A send on an open channel of the saver appends the task to it. *)
Lemma send_open (i : nat) (t : Task) (svr : Saver) :
  all_open svr -> (i < length (MarshalChans svr))%nat ->
  exists c svr',
    nth_error (MarshalChans svr) i = Some c /\
    send i t svr = Some svr' /\
    svr' = set_chans svr
             (Mem.set_nth (MarshalChans svr) i (mkChan (ch_sent c ++ [t]) false)).
Proof.
  intros Ho Hi. unfold send.
  destruct (nth_error (MarshalChans svr) i) as [c|] eqn:Hc.
  - rewrite (all_open_nth svr i c Ho Hc). eauto.
  - apply nth_error_None in Hc. lia.
Qed.

Lemma send_stats i t svr svr' :
  send i t svr = Some svr' -> svr_stats svr' = svr_stats svr.
Proof.
  unfold send. destruct (nth_error (MarshalChans svr) i) as [c|]; [|discriminate].
  destruct (ch_closed c); [discriminate|]. now intros [= <-].
Qed.

(** *** Rotate *)

(** [Rotate] always returns. *)
Lemma Rotate_returns conn host pod age w :
  exists conn' w' err, Rotate conn host pod age w = Some (conn', w', err).
Proof.
  unfold Rotate.
  destruct (MkdirAll w _) as [e|]; [eauto|].
  destruct (NewWriter _ _) as [e|]; [eauto|].
  unfold writeHeader. simpl. eauto.
Qed.

(** Whatever the outcome, [Rotate] keeps what identifies the connection. *)
Lemma Rotate_keeps conn host pod age w conn' w' err :
  Rotate conn host pod age w = Some (conn', w', err) ->
  Inode conn' = Inode conn /\ ID conn' = ID conn /\ UID conn' = UID conn /\
  Slice conn' = Slice conn /\ StartTime conn' = StartTime conn.
Proof.
  unfold Rotate.
  destruct (MkdirAll w _) as [e|]; [intros [= <- <- <-]; auto|].
  destruct (NewWriter _ _) as [e|]; [intros [= <- <- <-]; auto|].
  unfold writeHeader. simpl. intros [= <- <- <-]. auto.
Qed.

Lemma Rotate_rates conn host pod age w conn' w' err :
  Rotate conn host pod age w = Some (conn', w', err) ->
  rate_metrics (metrics w') = rate_metrics (metrics w).
Proof.
  unfold Rotate.
  destruct (MkdirAll w _) as [e|]; [now intros [= <- <- <-]|].
  destruct (NewWriter _ _) as [e|]; [now intros [= <- <- <-]|].
  unfold writeHeader. simpl. now intros [= <- <- <-].
Qed.

(** C8, as amended.  Each successful call of Rotate opens one new sink, at
    the path <StartTime as yyyy/MM/dd>/<uuid-from-cookie>.<Sequence:05d>.jsonl.zst
    built from the pre-call Sequence; what has been written to that sink is
    the marshalled header record, whose only content is Metadata{UUID from
    the cookie, the pre-call Sequence, StartTime}, followed by a newline;
    Writer now refers to the new sink, Expiration is 10 minutes later and
    Sequence is one more (as a Go int; exactly one more below the largest
    int); Inode, ID, UID, Slice and StartTime are unchanged. *)
Theorem Rotate_success conn host pod age w conn' w' :
  Rotate conn host pod age w = Some (conn', w', None) ->
  let datePath := Format_date (StartTime conn) in
  let id := FromCookie (CookieUint64 (ID conn)) in
  let path :=
    (datePath ++ "/" ++ id ++ "." ++ fmt_05d (Sequence conn) ++ ".jsonl.zst")%string in
  let header := Netlink.header_record
                  (Netlink.mkMetadata id (Sequence conn) (StartTime conn)) in
  sinks w' = (sinks w ++ [mkSink path [json_Marshal header; newline]])%list /\
  Writer conn' = Some (length (sinks w)) /\
  Expiration conn' = Expiration conn + 10 * Minute /\
  Sequence conn' = wrap_int (Sequence conn + 1) /\
  (- 2 ^ 63 <= Sequence conn < 2 ^ 63 - 1 -> Sequence conn' = Sequence conn + 1) /\
  Inode conn' = Inode conn /\ ID conn' = ID conn /\ UID conn' = UID conn /\
  Slice conn' = Slice conn /\ StartTime conn' = StartTime conn.
Proof.
  unfold Rotate.
  destruct (MkdirAll w _) as [e|]; [discriminate|].
  destruct (NewWriter _ _) as [e|]; [discriminate|].
  unfold writeHeader. simpl. intros [= <- <-]. simpl.
  repeat split.
  - unfold sink_Write. simpl.
    rewrite !nth_error_app2 by lia. rewrite Nat.sub_diag. simpl.
    rewrite !set_nth_app_last. simpl.
    rewrite nth_error_app2 by lia. rewrite Nat.sub_diag. simpl.
    rewrite set_nth_app_last. reflexivity.
  - intros H. apply wrap_int_id. lia.
Qed.

(** *** queue *)

(** C5.  For a record whose header parses to a cookie of zero, queue
    returns an error and leaves the saver and the world as they were: the
    Connections map, the sinks and the marshaller channels are those of
    before the call. *)
Theorem queue_zero_cookie (msg : Netlink.ArchivalRecord) (svr : Saver) (w : World)
    (idm : InetDiagMsg) (err : option string) :
  Parse (Netlink.RawIDM msg) = (Some idm, err) ->
  Cookie (InetDiag.ID idm) = 0 ->
  exists e, queue msg svr w = Some (Some e, svr, w).
Proof.
  intros Hp Hc. unfold queue. rewrite Hp, Hc. simpl. eauto.
Qed.

(** [queue_write] on a connection that has no writer yet: it returns, and
    the connection stored under the cookie keeps its start time. *)
Lemma queue_write_fresh msg cookie conn svr w :
  Writer conn = None ->
  all_open svr -> (1 <= length (MarshalChans svr))%nat ->
  exists r svr' w' conn',
    queue_write msg cookie (chan_index svr cookie) conn svr w = Some (r, svr', w') /\
    Connections svr' !! cookie = Some conn' /\
    StartTime conn' = StartTime conn.
Proof.
  intros Hw Ho Hn. unfold queue_write. rewrite Hw.
  rewrite bool_decide_eq_false_2 by congruence. rewrite andb_false_r.
  cbv beta iota. rewrite Hw.
  destruct (Rotate_returns conn (Host svr) (Pod svr) (FileAgeLimit svr) (tick w))
    as (conn2 & w2 & err & HR).
  rewrite HR. destruct (Rotate_keeps _ _ _ _ _ _ _ _ HR) as (_ & _ & _ & _ & Hst).
  destruct err as [e|].
  - eexists _, _, _, conn2. split; [reflexivity|]. simpl.
    split; [apply lookup_insert_eq|exact Hst].
  - destruct (send_open (chan_index svr cookie)
                (mkTask (Some msg) (Writer conn2)) (set_conn cookie conn2 svr))
      as (c & svr3 & Hc & Hs & Heq).
    { exact Ho. }
    { simpl. now apply chan_index_lt. }
    fold (chan_index svr cookie). rewrite Hs.
    eexists _, _, _, conn2. split; [reflexivity|].
    rewrite Heq. simpl. split; [apply lookup_insert_eq|exact Hst].
Qed.

(** C6, as amended.  For a record whose cookie is non-zero and not in the
    Connections map, queued on a saver with at least one marshaller and no
    closed channel: with IDiagState at FIN_WAIT1 (4) or above, queue returns
    nil and leaves the saver and the world as they were (no Connection, no
    file, no task); with IDiagState below FIN_WAIT1, queue returns and the
    map then holds under the cookie a Connection whose StartTime is the
    record's timestamp. *)
Theorem queue_unseen_connection (msg : Netlink.ArchivalRecord) (svr : Saver)
    (w : World) (idm : InetDiagMsg) (err : option string) :
  Parse (Netlink.RawIDM msg) = (Some idm, err) ->
  Cookie (InetDiag.ID idm) <> 0 ->
  Connections svr !! Cookie (InetDiag.ID idm) = None ->
  (1 <= length (MarshalChans svr))%nat ->
  all_open svr ->
  (FIN_WAIT1 <= IDiagState idm -> queue msg svr w = Some (None, svr, w)) /\
  (IDiagState idm < FIN_WAIT1 ->
   exists r svr' w' conn,
     queue msg svr w = Some (r, svr', w') /\
     Connections svr' !! Cookie (InetDiag.ID idm) = Some conn /\
     StartTime conn = Netlink.Timestamp msg).
Proof.
  intros Hp Hc Hnew Hn Ho. unfold queue. rewrite Hp.
  destruct (Z.eqb_spec (Cookie (InetDiag.ID idm)) 0) as [|_]; [contradiction|].
  destruct (Nat.ltb_spec (length (MarshalChans svr)) 1) as [|_]; [lia|].
  rewrite Hnew. split; intros Hst.
  - destruct (Z.leb_spec FIN_WAIT1 (IDiagState idm)) as [_|]; [reflexivity|lia].
  - destruct (Z.leb_spec FIN_WAIT1 (IDiagState idm)) as [|_]; [lia|].
    unfold newConnection.
    set (conn := mkConnection _ _ _ _ _ _ _ _).
    set (svr0 := set_conn _ conn svr).
    destruct (queue_write_fresh msg (Cookie (InetDiag.ID idm)) conn svr0 (tick w))
      as (r & svr' & w' & conn' & Hq & Hl & Hs).
    { reflexivity. }
    { exact Ho. }
    { simpl. exact Hn. }
    exists r, svr', w', conn'. split; [exact Hq|]. split; [exact Hl|]. exact Hs.
Qed.

(** *** endConn *)

(** C9, as amended.  For a cookie in the Connections map of a saver with
    N >= 1 marshallers and no closed channel: when the connection's Writer
    is not nil, endConn appends a close task (nil message, that writer) to
    the channel of index cookie mod N, leaves the other channels alone, and
    removes the cookie from the map; when the Writer is nil, endConn
    returns without enqueueing anything. *)
Theorem endConn_closes_open_writer (svr : Saver) (cookie : Z) (conn : Connection) :
  Connections svr !! cookie = Some conn ->
  (1 <= length (MarshalChans svr))%nat ->
  all_open svr ->
  (forall r, Writer conn = Some r ->
     exists c svr',
       endConn cookie svr = Some svr' /\
       nth_error (MarshalChans svr)
         (Z.to_nat (cookie mod Z.of_nat (length (MarshalChans svr)))) = Some c /\
       MarshalChans svr' =
         Mem.set_nth (MarshalChans svr)
           (Z.to_nat (cookie mod Z.of_nat (length (MarshalChans svr))))
           (mkChan (ch_sent c ++ [mkTask None (Some r)]) false) /\
       Connections svr' = delete cookie (Connections svr)) /\
  (Writer conn = None ->
     exists svr', endConn cookie svr = Some svr' /\
                  MarshalChans svr' = MarshalChans svr).
Proof.
  intros Hl Hn Ho. unfold endConn.
  destruct (Nat.eqb_spec (length (MarshalChans svr)) 0) as [|_]; [lia|].
  rewrite Hl. split.
  - intros r Hw. rewrite Hw.
    destruct (send_open (chan_index svr cookie) (mkTask None (Some r)) svr Ho
                (chan_index_lt svr cookie Hn)) as (c & svr1 & Hc & Hs & Heq).
    fold (chan_index svr cookie). rewrite Hs.
    exists c, (set_conns svr1 (delete cookie (Connections svr1))).
    split; [reflexivity|]. split; [exact Hc|].
    rewrite Heq. simpl. auto.
  - intros Hw. rewrite Hw. eauto.
Qed.

(** With a nil Writer the connection also stays in the map. *)
Lemma endConn_nil_writer (svr : Saver) (cookie : Z) (conn : Connection) :
  Connections svr !! cookie = Some conn ->
  (1 <= length (MarshalChans svr))%nat ->
  Writer conn = None ->
  endConn cookie svr = Some svr.
Proof.
  intros Hl Hn Hw. unfold endConn.
  destruct (Nat.eqb_spec (length (MarshalChans svr)) 0) as [|_]; [lia|].
  now rewrite Hl, Hw.
Qed.

End SaverFacts.

(** ** The saver's counters and the throughput report *)
Section SaverAccounting.
Import InetDiag Saver.
Context `{E : Externals}.
Local Open Scope Z_scope.

(** [queue] leaves the statistics and the rate metrics alone. *)
Lemma queue_write_frame msg cookie q conn svr w r svr' w' :
  queue_write msg cookie q conn svr w = Some (r, svr', w') ->
  svr_stats svr' = svr_stats svr /\
  rate_metrics (metrics w') = rate_metrics (metrics w).
Proof.
  unfold queue_write.
  destruct (After _ _ && _).
  - destruct (send q _ svr) as [svr1|] eqn:Hs1; [|discriminate].
    apply send_stats in Hs1. simpl.
    destruct (Rotate _ _ _ _ _) as [[[conn2 w2] err]|] eqn:HR; [|discriminate].
    apply Rotate_rates in HR. simpl in HR.
    destruct err as [e|].
    + intros [= <- <- <-]. simpl. split; [exact Hs1|exact HR].
    + destruct (send q _ _) as [svr3|] eqn:Hs3; [|discriminate].
      apply send_stats in Hs3. intros [= <- <- <-]. simpl in Hs3.
      split; [congruence|exact HR].
  - destruct (Writer conn) as [wr|].
    + destruct (send q _ svr) as [svr3|] eqn:Hs3; [|discriminate].
      apply send_stats in Hs3. intros [= <- <- <-]. split; [exact Hs3|reflexivity].
    + destruct (Rotate _ _ _ _ _) as [[[conn2 w2] err]|] eqn:HR; [|discriminate].
      apply Rotate_rates in HR. simpl in HR.
      destruct err as [e|].
      * intros [= <- <- <-]. simpl. split; [reflexivity|exact HR].
      * destruct (send q _ _) as [svr3|] eqn:Hs3; [|discriminate].
        apply send_stats in Hs3. intros [= <- <- <-]. simpl in Hs3.
        split; [congruence|exact HR].
Qed.

Lemma queue_frame msg svr w r svr' w' :
  queue msg svr w = Some (r, svr', w') ->
  svr_stats svr' = svr_stats svr /\
  rate_metrics (metrics w') = rate_metrics (metrics w).
Proof.
  unfold queue. destruct (Parse _) as [[idm|] perr]; [|discriminate].
  destruct (_ =? 0); [now intros [= <- <- <-]|].
  destruct (_ <? 1)%nat; [now intros [= <- <- <-]|].
  destruct (Connections svr !! _) as [conn|].
  - apply queue_write_frame.
  - destruct (FIN_WAIT1 <=? _); [now intros [= <- <- <-]|].
    unfold newConnection. intros H. apply queue_write_frame in H. exact H.
Qed.

(** What one call of [swapAndQueue] does to the counters. *)
Lemma swapAndQueue_step pm svr w svr' w' :
  swapAndQueue pm svr w = Some (svr', w') ->
  TotalCount (svr_stats svr') = wrap_int (TotalCount (svr_stats svr) + 1) /\
  ExpiredCount (svr_stats svr') = ExpiredCount (svr_stats svr) /\
  ((NewCount (svr_stats svr') = NewCount (svr_stats svr) /\
    DiffCount (svr_stats svr') = DiffCount (svr_stats svr)) \/
   (NewCount (svr_stats svr') = wrap_int (NewCount (svr_stats svr) + 1) /\
    DiffCount (svr_stats svr') = DiffCount (svr_stats svr)) \/
   (NewCount (svr_stats svr') = NewCount (svr_stats svr) /\
    DiffCount (svr_stats svr') = wrap_int (DiffCount (svr_stats svr) + 1))) /\
  rate_metrics (metrics w') = rate_metrics (metrics w).
Proof.
  unfold swapAndQueue. simpl.
  destruct (cache_Update _ pm) as [c [old err]].
  destruct err as [e|]; [intros [= <- <-]; simpl; tauto|].
  destruct old as [old|].
  - destruct (Parse (Netlink.RawIDM old)) as [oldIDM err1].
    destruct err1 as [e|]; [intros [= <- <-]; simpl; tauto|].
    destruct (Parse (Netlink.RawIDM pm)) as [pmIDM err2].
    destruct err2 as [e|]; [intros [= <- <-]; simpl; tauto|].
    destruct oldIDM as [o|]; [|discriminate].
    destruct pmIDM as [p|]; [|discriminate].
    destruct (ar_Compare pm old) as [change err3].
    destruct err3 as [e|]; [intros [= <- <-]; simpl; tauto|].
    destruct (change >? NoMajorChange).
    + destruct (queue pm _ _) as [[[r svr1] w1]|] eqn:Hq; [|discriminate].
      apply queue_frame in Hq. destruct Hq as [Hs Hr]. intros [= <- <-].
      rewrite Hs, Hr. simpl. tauto.
    + intros [= <- <-]. simpl. tauto.
  - destruct (queue pm _ _) as [[[r svr1] w1]|] eqn:Hq; [|discriminate].
    apply queue_frame in Hq. destruct Hq as [Hs Hr]. intros [= <- <-].
    rewrite Hs, Hr. simpl. tauto.
Qed.

(** C10.  After a sequence of swapAndQueue calls that starts in a state
    where NewCount and DiffCount are not negative and NewCount + DiffCount
    <= TotalCount (as in a new saver), and that keeps TotalCount below
    2^63: TotalCount has grown by one per call, NewCount and DiffCount have
    not decreased and have together grown by at most one per call, so
    NewCount + DiffCount <= TotalCount still holds and the derived "same"
    count TotalCount - (NewCount + DiffCount) is not negative. *)
Theorem swapAndQueue_counts (pms : list Netlink.ArchivalRecord) (svr : Saver)
    (w : World) (svr' : Saver) (w' : World) :
  swapAndQueue_all pms svr w = Some (svr', w') ->
  0 <= NewCount (svr_stats svr) ->
  0 <= DiffCount (svr_stats svr) ->
  NewCount (svr_stats svr) + DiffCount (svr_stats svr) <= TotalCount (svr_stats svr) ->
  TotalCount (svr_stats svr) + Z.of_nat (length pms) < 2 ^ 63 ->
  TotalCount (svr_stats svr') = TotalCount (svr_stats svr) + Z.of_nat (length pms) /\
  NewCount (svr_stats svr) <= NewCount (svr_stats svr') /\
  DiffCount (svr_stats svr) <= DiffCount (svr_stats svr') /\
  (NewCount (svr_stats svr') - NewCount (svr_stats svr))
    + (DiffCount (svr_stats svr') - DiffCount (svr_stats svr)) <= Z.of_nat (length pms) /\
  NewCount (svr_stats svr') + DiffCount (svr_stats svr') <= TotalCount (svr_stats svr') /\
  same_count (svr_stats svr')
    = TotalCount (svr_stats svr') - (NewCount (svr_stats svr') + DiffCount (svr_stats svr')) /\
  0 <= same_count (svr_stats svr').
Proof.
  revert svr w. induction pms as [|pm pms IH]; intros svr w Hrun HN HD HI HB.
  - simpl in Hrun. injection Hrun as <- <-. simpl length in *.
    assert (Hs : same_count (svr_stats svr)
                 = TotalCount (svr_stats svr)
                   - (NewCount (svr_stats svr) + DiffCount (svr_stats svr))).
    { unfold same_count.
      rewrite (wrap_int_id (NewCount _ + DiffCount _)) by lia.
      rewrite wrap_int_id by lia. reflexivity. }
    rewrite Hs. lia.
  - simpl in Hrun.
    destruct (swapAndQueue pm svr w) as [[svr1 w1]|] eqn:Hstep; [|discriminate].
    apply swapAndQueue_step in Hstep.
    destruct Hstep as (HT & _ & Hcases & _).
    rewrite wrap_int_succ in HT by (simpl length in HB; lia).
    assert (HB1 : TotalCount (svr_stats svr1) + Z.of_nat (length pms) < 2 ^ 63)
      by (simpl length in HB; lia).
    destruct Hcases as [[Hn Hd]|[[Hn Hd]|[Hn Hd]]];
      try rewrite wrap_int_succ in Hn by (simpl length in HB; lia);
      try rewrite wrap_int_succ in Hd by (simpl length in HB; lia);
      (specialize (IH svr1 w1 Hrun ltac:(lia) ltac:(lia) ltac:(lia) HB1);
       simpl length; lia).
Qed.

(** *** The throughput report *)

Lemma capacity_value : 10 * maxSwitchSpeed / 8 = 12500000000.
Proof. reflexivity. Qed.

(** The three ways one direction of the report can go.  In the second the
    total is above the reported one by more than the capacity, or the sum
    [10*maxSwitchSpeed/8+reported] has wrapped. *)
Lemma report_one_cases lless lmore obs t r m :
  0 <= r < 2 ^ 64 -> 0 <= t < 2 ^ 64 ->
  (t < r /\ report_one lless lmore obs t r m = (r, ErrorCount_Inc lless m)) \/
  (r <= t /\ report_one lless lmore obs t r m = (r, ErrorCount_Inc lmore m) /\
   (r + 10 * maxSwitchSpeed / 8 < t \/ 2 ^ 64 <= r + 10 * maxSwitchSpeed / 8)) \/
  (r <= t <= r + 10 * maxSwitchSpeed / 8 /\
   report_one lless lmore obs t r m = (t, obs (8 * (t - r)) m)).
Proof.
  intros Hr Ht. unfold report_one. rewrite capacity_value.
  destruct (Z.ltb_spec t r) as [Hlt|Hge].
  - left. rewrite orb_true_r. auto.
  - right. rewrite orb_false_r.
    destruct (Z.gtb_spec t (wrap64 (12500000000 + r))) as [Hgt|Hle].
    + left. split; [exact Hge|]. split; [reflexivity|].
      destruct (Z_lt_ge_dec (r + 12500000000) (2 ^ 64)) as [Hs|Hb]; [|right; lia].
      left. unfold wrap64 in Hgt. rewrite Z.mod_small in Hgt by lia. lia.
    + right.
      assert (Hs : r + 12500000000 < 2 ^ 64).
      { destruct (Z_lt_ge_dec (r + 12500000000) (2 ^ 64)) as [Hs|Hb]; [exact Hs|].
        exfalso. unfold wrap64 in Hle.
        replace (12500000000 + r) with ((12500000000 + r - 2 ^ 64) + 1 * 2 ^ 64)
          in Hle by lia.
        rewrite Z.mod_add in Hle by lia.
        rewrite Z.mod_small in Hle by lia. lia. }
      unfold wrap64 in Hle. rewrite Z.mod_small in Hle by lia.
      split; [lia|]. unfold wrap64. rewrite (Z.mod_small (t - r)) by lia. reflexivity.
Qed.

Lemma ErrorCount_Inc_same l m :
  ErrorCount (ErrorCount_Inc l m) !! l = Some (default 0 (ErrorCount m !! l) + 1).
Proof. unfold ErrorCount_Inc. simpl. apply lookup_insert_eq. Qed.

(** [report_outcome] looks at the metrics only through the histogram of
    the direction and the two error labels. *)
Lemma report_outcome_ext b ll lm hist t r r' m0 m1 m0' m1' :
  hist m0' = hist m0 -> hist m1' = hist m1 ->
  ErrorCount m0' !! ll = ErrorCount m0 !! ll ->
  ErrorCount m0' !! lm = ErrorCount m0 !! lm ->
  ErrorCount m1' !! ll = ErrorCount m1 !! ll ->
  ErrorCount m1' !! lm = ErrorCount m1 !! lm ->
  report_outcome b ll lm hist t r r' m0 m1 ->
  report_outcome b ll lm hist t r r' m0' m1'.
Proof.
  intros H0 H1 Hl0 Hm0 Hl1 Hm1. unfold report_outcome.
  rewrite H0, H1, Hl0, Hm0, Hl1, Hm1. tauto.
Qed.

(** One direction, on its own. *)
Lemma report_one_outcome ll lm obs hist t r m r' m' :
  (forall v x, hist (obs v x) = (hist x ++ [v])%list) ->
  (forall v x, ErrorCount (obs v x) = ErrorCount x) ->
  (forall l x, hist (ErrorCount_Inc l x) = hist x) ->
  ll <> lm ->
  0 <= r < 2 ^ 64 -> 0 <= t < 2 ^ 64 ->
  report_one ll lm obs t r m = (r', m') ->
  report_outcome true ll lm hist t r r' m m' /\ r <= r' < 2 ^ 64.
Proof.
  intros Hobs Hoe Hinc Hne Hr Ht Hrep.
  pose proof capacity_value as HC.
  destruct (report_one_cases ll lm obs t r m Hr Ht)
    as [[Hc He]|[[Hc [He Hw]]|[Hc He]]];
    rewrite He in Hrep; injection Hrep as <- <-; (split; [|lia]);
    unfold report_outcome; rewrite ?Hinc, ?Hobs, ?Hoe.
  - split; [|split].
    + intros _ _. rewrite ErrorCount_Inc_same. auto.
    + intros _ Habs. lia.
    + intros [Habs|Habs]; congruence.
  - split; [|split].
    + intros _ Habs. lia.
    + intros _ _. rewrite ErrorCount_Inc_same. auto.
    + intros [Habs|Habs]; congruence.
  - split; [|split].
    + intros _ Habs. lia.
    + intros _ Habs. lia.
    + intros _. repeat split; try lia.
Qed.

(** A direction that does not report. *)
Lemma report_outcome_idle ll lm hist t r m :
  report_outcome false ll lm hist t r r m m.
Proof.
  unfold report_outcome. split; [|split].
  - intros Habs. discriminate Habs.
  - intros Habs. discriminate Habs.
  - intros [Habs|Habs]; congruence.
Qed.

Ltac label_neq := let H := fresh in intros H; discriminate H.

(** The effect of a report on the metrics of the other direction. *)
Lemma report_one_sent_frame t r m r' m' :
  report_one "totalSent < reportedSent"
    "totalSent-reportedSent exceeds network capacity" SendRate_Observe t r m = (r', m') ->
  ReceiveRateHistogram m' = ReceiveRateHistogram m /\
  ErrorCount m' !! "totalReceived < reportedReceived"%string
    = ErrorCount m !! "totalReceived < reportedReceived"%string /\
  ErrorCount m' !! "totalReceived-reportedReceived exceeds network capacity"%string
    = ErrorCount m !! "totalReceived-reportedReceived exceeds network capacity"%string.
Proof.
  unfold report_one.
  destruct (_ || _); [destruct (t <? r)|]; intros [= <- <-]; simpl;
    rewrite ?lookup_insert_ne by label_neq; auto.
Qed.

Lemma report_one_received_frame t r m r' m' :
  report_one "totalReceived < reportedReceived"
    "totalReceived-reportedReceived exceeds network capacity" ReceiveRate_Observe
    t r m = (r', m') ->
  SendRateHistogram m' = SendRateHistogram m /\
  ErrorCount m' !! "totalSent < reportedSent"%string
    = ErrorCount m !! "totalSent < reportedSent"%string /\
  ErrorCount m' !! "totalSent-reportedSent exceeds network capacity"%string
    = ErrorCount m !! "totalSent-reportedSent exceeds network capacity"%string.
Proof.
  unfold report_one.
  destruct (_ || _); [destruct (t <? r)|]; intros [= <- <-]; simpl;
    rewrite ?lookup_insert_ne by label_neq; auto.
Qed.

(** The report block meets [report_outcome] in both directions, and keeps
    the reported totals within [uint64] and from decreasing. *)
Lemma report_spec v4time sent received loc m loc' m' :
  report v4time sent received loc m = (loc', m') ->
  0 <= reportedSent loc < 2 ^ 64 -> 0 <= reportedReceived loc < 2 ^ 64 ->
  report_outcome (Unix v4time >? lastReportTime loc)
    "totalSent < reportedSent" "totalSent-reportedSent exceeds network capacity"
    SendRateHistogram (total sent) (reportedSent loc) (reportedSent loc') m m' /\
  report_outcome (Unix v4time >? lastReportTime loc)
    "totalReceived < reportedReceived"
    "totalReceived-reportedReceived exceeds network capacity"
    ReceiveRateHistogram (total received) (reportedReceived loc)
    (reportedReceived loc') m m' /\
  reportedSent loc <= reportedSent loc' < 2 ^ 64 /\
  reportedReceived loc <= reportedReceived loc' < 2 ^ 64 /\
  sentClosed loc' = sentClosed loc /\ receivedClosed loc' = receivedClosed loc.
Proof.
  intros Hrep Hs Hr. unfold report in Hrep.
  destruct (Unix v4time >? lastReportTime loc) eqn:Hrt.
  2:{ injection Hrep as <- <-.
      split; [apply report_outcome_idle|].
      split; [apply report_outcome_idle|]. lia. }
  destruct (report_one _ _ SendRate_Observe _ _ _) as [rs m1] eqn:H1.
  destruct (report_one _ _ ReceiveRate_Observe _ _ _) as [rr m2] eqn:H2.
  injection Hrep as <- <-. simpl.
  destruct (report_one_sent_frame _ _ _ _ _ H1) as (Hf1 & Hf2 & Hf3).
  destruct (report_one_received_frame _ _ _ _ _ H2) as (Hg1 & Hg2 & Hg3).
  apply (report_one_outcome _ _ _ SendRateHistogram) in H1;
    [|reflexivity|reflexivity|reflexivity|label_neq|exact Hs|apply total_range].
  apply (report_one_outcome _ _ _ ReceiveRateHistogram) in H2;
    [|reflexivity|reflexivity|reflexivity|label_neq|exact Hr|apply total_range].
  destruct H1 as [Ho1 Hb1]. destruct H2 as [Ho2 Hb2].
  split; [|split; [|lia]].
  - eapply report_outcome_ext; [| | | | | |exact Ho1]; auto.
  - eapply report_outcome_ext; [| | | | | |exact Ho2]; auto.
Qed.

(** *** The loop *)

Lemma handleType_from_rates ls lr t msgs svr w s r svr' w' :
  handleType_from ls lr t msgs svr w = Some (s, r, svr', w') ->
  rate_metrics (metrics w') = rate_metrics (metrics w).
Proof.
  revert ls lr svr w. induction msgs as [|[msg|] msgs IH]; intros ls lr svr w; simpl.
  - now intros [= _ _ _ <-].
  - destruct (fst (MakeArchivalRecord msg true)) as [ar|]; [|apply IH].
    destruct (GetStats _) as [bs br].
    destruct (swapAndQueue _ svr w) as [[svr1 w1]|] eqn:Hq; [|discriminate].
    apply swapAndQueue_step in Hq. destruct Hq as (_ & _ & _ & Hr).
    intros H. apply IH in H. congruence.
  - apply IH.
Qed.

Lemma rate_metrics_eq m m' :
  rate_metrics m' = rate_metrics m ->
  ErrorCount m' = ErrorCount m /\
  SendRateHistogram m' = SendRateHistogram m /\
  ReceiveRateHistogram m' = ReceiveRateHistogram m.
Proof. unfold rate_metrics. intros [= -> -> ->]. auto. Qed.

(** One iteration: the reports of both directions are as the specification
    asks, measured from the metrics at the start of the iteration. *)
Lemma loop_body_spec loc msgs svr w loc' svr' w' :
  loop_body loc msgs svr w = Some (loc', svr', w') ->
  0 <= reportedSent loc < 2 ^ 64 -> 0 <= reportedReceived loc < 2 ^ 64 ->
  report_outcome (Unix (V4Time msgs) >? lastReportTime loc)
    "totalSent < reportedSent" "totalSent-reportedSent exceeds network capacity"
    SendRateHistogram (total (lastSent loc')) (reportedSent loc) (reportedSent loc')
    (metrics w) (metrics w') /\
  report_outcome (Unix (V4Time msgs) >? lastReportTime loc)
    "totalReceived < reportedReceived"
    "totalReceived-reportedReceived exceeds network capacity"
    ReceiveRateHistogram (total (lastReceived loc')) (reportedReceived loc)
    (reportedReceived loc') (metrics w) (metrics w') /\
  reportedSent loc <= reportedSent loc' < 2 ^ 64 /\
  reportedReceived loc <= reportedReceived loc' < 2 ^ 64.
Proof.
  intros Hbody Hs Hr. unfold loop_body, handleType in Hbody.
  destruct (handleType_from 0 0 (V4Time msgs) _ svr w)
    as [[[[s4 r4] svr1] w1]|] eqn:H4; [|discriminate].
  destruct (handleType_from 0 0 (V6Time msgs) _ svr1 w1)
    as [[[[s6 r6] svr2] w2]|] eqn:H6; [|discriminate].
  destruct (cache_EndCycle _) as [c residual].
  destruct (end_residual _ _ _ _) as [[[rs rr] svr3]|]; [|discriminate].
  destruct (report _ _ _ _ _) as [loc2 m] eqn:Hrep.
  injection Hbody as <- <- <-. simpl.
  apply handleType_from_rates in H4. apply handleType_from_rates in H6.
  assert (Hrates : rate_metrics (metrics w2) = rate_metrics (metrics w))
    by congruence.
  apply rate_metrics_eq in Hrates. destruct Hrates as (He & Hhs & Hhr).
  apply report_spec in Hrep; [|exact Hs|exact Hr].
  simpl in Hrep. destruct Hrep as (Ho1 & Ho2 & Hb1 & Hb2 & _).
  split; [|split; [|split; assumption]].
  - eapply report_outcome_ext; [| | | | | |exact Ho1]; auto; now rewrite He.
  - eapply report_outcome_ext; [| | | | | |exact Ho2]; auto; now rewrite He.
Qed.

Lemma loop_reported loc blocks svr w loc' svr' w' :
  loop loc blocks svr w = Some (loc', svr', w') ->
  0 <= reportedSent loc < 2 ^ 64 -> 0 <= reportedReceived loc < 2 ^ 64 ->
  reportedSent loc <= reportedSent loc' < 2 ^ 64 /\
  reportedReceived loc <= reportedReceived loc' < 2 ^ 64.
Proof.
  revert loc svr w. induction blocks as [|b blocks IH]; intros loc svr w; simpl.
  - intros [= <- _ _]. lia.
  - destruct (loop_body loc b svr w) as [[[loc1 svr1] w1]|] eqn:Hb; [|discriminate].
    intros Hl Hs Hr.
    apply loop_body_spec in Hb; [|exact Hs|exact Hr].
    destruct Hb as (_ & _ & Hs1 & Hr1).
    apply IH in Hl; lia.
Qed.

(** C7.  Take the loop of MessageSaverLoop after any number of iterations
    (the blocks [before]).  Over any further iterations (the blocks
    [after]) reportedSent and reportedReceived do not decrease.  In the
    next iteration, for each direction, with the iteration's total and the
    total reported before it: a total below the reported one, or above it
    by more than 10*maxSwitchSpeed/8, in an iteration that reports, leaves
    the reported total and the histogram unchanged and adds one to the
    error counter of the case; and the reported total or the histogram
    change only in an iteration that reports a total that is neither, which
    sets the reported total to it and observes 8 times the difference. *)
Theorem MessageSaverLoop_reports (before after : list MessageBlock)
    (svr : Saver) (w : World)
    (loc1 : Locals) (svr1 : Saver) (w1 : World)
    (loc3 : Locals) (svr3 : Saver) (w3 : World) :
  loop initial_locals before svr w = Some (loc1, svr1, w1) ->
  loop loc1 after svr1 w1 = Some (loc3, svr3, w3) ->
  (reportedSent loc1 <= reportedSent loc3 /\
   reportedReceived loc1 <= reportedReceived loc3) /\
  (forall msgs loc2 svr2 w2,
     loop_body loc1 msgs svr1 w1 = Some (loc2, svr2, w2) ->
     report_outcome (Unix (V4Time msgs) >? lastReportTime loc1)
       "totalSent < reportedSent" "totalSent-reportedSent exceeds network capacity"
       SendRateHistogram (total (lastSent loc2)) (reportedSent loc1)
       (reportedSent loc2) (metrics w1) (metrics w2) /\
     report_outcome (Unix (V4Time msgs) >? lastReportTime loc1)
       "totalReceived < reportedReceived"
       "totalReceived-reportedReceived exceeds network capacity"
       ReceiveRateHistogram (total (lastReceived loc2)) (reportedReceived loc1)
       (reportedReceived loc2) (metrics w1) (metrics w2)).
Proof.
  intros Hbefore Hafter.
  apply loop_reported in Hbefore; [|simpl; lia|simpl; lia].
  simpl in Hbefore.
  split.
  - apply loop_reported in Hafter; lia.
  - intros msgs loc2 svr2 w2 Hbody.
    apply loop_body_spec in Hbody; [|lia|lia]. tauto.
Qed.

End SaverAccounting.

(** ** Concrete runs *)
Section Runs.
Import InetDiag Fixture.

(** The decoder on a three-byte INFO value. *)
Lemma ToLinuxTCPInfo_zero_pads_witness :
  exists h' p buf,
    TcpInfo.ToLinuxTCPInfo [[Byte.x0a; Byte.x0b; Byte.x0c]] (Mem.mkSlice 0 0 3)
      = (h', Some p) /\
    Mem.p_arr p = 1 /\ Mem.p_off p = 0 /\ Mem.p_ext p = 224 /\
    length h' = 2 /\
    nth_error h' (Mem.p_arr p) = Some buf /\
    length buf = 224 /\
    firstn 3 buf = [Byte.x0a; Byte.x0b; Byte.x0c] /\
    skipn 3 buf = repeat Byte.x00 221 /\
    (forall i, i < 1 -> nth_error h' i = nth_error [[Byte.x0a; Byte.x0b; Byte.x0c]] i) /\
    Mem.slice_bytes h' (Mem.mkSlice 0 0 3) = Some [Byte.x0a; Byte.x0b; Byte.x0c].
Proof.
  apply (ToLinuxTCPInfo_zero_pads [[Byte.x0a; Byte.x0b; Byte.x0c]] (Mem.mkSlice 0 0 3)
           [Byte.x0a; Byte.x0b; Byte.x0c]).
  - reflexivity.
  - vm_compute. lia.
Defined.

(** Identical records whose INFO payload has 44 bytes, fewer than
    PmtuOffset: the state is equal, INFO is present, every other attribute
    is identical and the payloads differ nowhere, and Compare does not
    return NoMajorChange: the slice [a.Value[PmtuOffset:]] is out of
    range. *)
Lemma Compare_short_info_counterexample :
  let info := repeat Byte.x00 44 in
  let p := parsed info (Some [Byte.x01]) (Some cubic) in
  Differ.InetDiagMsg p = Some idm_established /\
  nth_error (Differ.Attributes p) Differ.INET_DIAG_INFO = Some (attr 2 info) /\
  length info < Differ.PmtuOffset /\
  Differ.Compare p p = None /\
  Differ.Compare p p <> Some Differ.NoMajorChange.
Proof.
  repeat split; try reflexivity.
  - vm_compute. lia.
  - discriminate.
Qed.

Lemma fixture_attrs_same info info' meminfo cong (tp : nat) :
  tp <> Differ.INET_DIAG_INFO ->
  nth_error (Differ.Attributes (parsed info meminfo cong)) tp
  = nth_error (Differ.Attributes (parsed info' meminfo cong)) tp.
Proof.
  intros H. destruct tp as [|[|[|tp]]]; try reflexivity.
  exfalso. apply H. reflexivity.
Qed.

(** Only [lastDataRecv] changes: no major change.  Only [bytesAcked]
    changes: a state or counter change. *)
Lemma Compare_info_regions_witness :
  Differ.Compare (parsed info_zero (Some [Byte.x01]) (Some cubic))
    (parsed info_last_data_recv (Some [Byte.x01]) (Some cubic))
  = Some Differ.NoMajorChange /\
  Differ.Compare (parsed info_zero (Some [Byte.x01]) (Some cubic))
    (parsed info_bytes_acked (Some [Byte.x01]) (Some cubic))
  = Some Differ.StateOrCounterChange.
Proof.
  split.
  - apply (proj1 (Compare_info_regions
                    (parsed info_zero (Some [Byte.x01]) (Some cubic))
                    (parsed info_last_data_recv (Some [Byte.x01]) (Some cubic))
                    idm_established idm_established
                    (Differ.mkRouteAttr 228 2 info_zero)
                    (Differ.mkRouteAttr 228 2 info_last_data_recv)
                    eq_refl eq_refl eq_refl eq_refl eq_refl
                    (fixture_attrs_same _ _ _ _)
                    ltac:(vm_compute; lia) ltac:(vm_compute; lia))).
    apply agree_outside; reflexivity.
  - apply (proj2 (Compare_info_regions
                    (parsed info_zero (Some [Byte.x01]) (Some cubic))
                    (parsed info_bytes_acked (Some [Byte.x01]) (Some cubic))
                    idm_established idm_established
                    (Differ.mkRouteAttr 228 2 info_zero)
                    (Differ.mkRouteAttr 228 2 info_bytes_acked)
                    eq_refl eq_refl eq_refl eq_refl eq_refl
                    (fixture_attrs_same _ _ _ _)
                    ltac:(vm_compute; lia) ltac:(vm_compute; lia))).
    exists 120. split; [right; vm_compute; lia|]. vm_compute. discriminate.
Defined.

(** The previous record has MEMINFO (type 1) and no CONG (type 4); the
    current one has CONG and no MEMINFO.  CONG is present in current and
    absent in previous, and Compare returns LostAttribute, not
    NewAttribute.  With MEMINFO present in both but with another byte,
    Compare returns Other. *)
Lemma Compare_new_and_lost_counterexample :
  let previous := parsed info_zero (Some [Byte.x01]) None in
  let current := parsed info_zero None (Some cubic) in
  let current' := parsed info_zero (Some [Byte.x02]) (Some cubic) in
  nth_error (Differ.Attributes previous) 4 = Some None /\
  nth_error (Differ.Attributes current) 4 = Some (attr 4 cubic) /\
  nth_error (Differ.Attributes current') 4 = Some (attr 4 cubic) /\
  Differ.Compare previous current = Some Differ.LostAttribute /\
  Differ.Compare previous current <> Some Differ.NewAttribute /\
  Differ.Compare previous current' = Some Differ.Other /\
  Differ.Compare previous current' <> Some Differ.NewAttribute.
Proof.
  repeat split; try reflexivity; discriminate.
Qed.

(** CONG appears, and CONG disappears, with everything below it the same;
    MEMINFO and CONG both appear, and MEMINFO, the lower type, decides; CONG
    appears at a type beyond the end of the table of previous, and is not
    seen. *)
Lemma Compare_first_attribute_difference_witness :
  Differ.Compare (parsed info_zero (Some [Byte.x01]) None)
    (parsed info_last_data_recv (Some [Byte.x01]) (Some cubic))
  = Some Differ.NewAttribute /\
  Differ.Compare (parsed info_zero (Some [Byte.x01]) (Some cubic))
    (parsed info_last_data_recv (Some [Byte.x01]) None)
  = Some Differ.LostAttribute /\
  Differ.Compare (parsed info_zero None None)
    (parsed info_zero (Some [Byte.x01]) (Some cubic))
  = Some Differ.NewAttribute /\
  Differ.Compare
    (Differ.mkParsedMessage (Some idm_established) [None; None; attr 2 info_zero])
    (parsed info_zero None (Some cubic))
  = Some Differ.NoMajorChange.
Proof.
  assert (Hbelow : forall p c t, t < 4 -> t <> Differ.INET_DIAG_INFO ->
            DifferSpec.same_entry
              (Differ.Attributes (parsed info_zero (Some [Byte.x01]) p))
              (Differ.Attributes (parsed info_last_data_recv (Some [Byte.x01]) c)) t).
  { intros p c t Hlt Hne. unfold Differ.INET_DIAG_INFO in Hne.
    destruct t as [|[|[|[|t]]]]; try lia; try exact I. reflexivity. }
  split; [|split; [|split]].
  - apply (proj1 (Compare_first_attribute_difference
                    (parsed info_zero (Some [Byte.x01]) None)
                    (parsed info_last_data_recv (Some [Byte.x01]) (Some cubic))
                    idm_established idm_established
                    (Differ.mkRouteAttr 228 2 info_zero)
                    (Differ.mkRouteAttr 228 2 info_last_data_recv)
                    eq_refl eq_refl eq_refl eq_refl eq_refl
                    ltac:(vm_compute; lia) ltac:(vm_compute; lia)
                    eq_refl eq_refl)).
    exists 4. eexists. split; [discriminate|]. split; [apply Hbelow|].
    split; reflexivity.
  - apply (proj1 (proj2 (Compare_first_attribute_difference
                    (parsed info_zero (Some [Byte.x01]) (Some cubic))
                    (parsed info_last_data_recv (Some [Byte.x01]) None)
                    idm_established idm_established
                    (Differ.mkRouteAttr 228 2 info_zero)
                    (Differ.mkRouteAttr 228 2 info_last_data_recv)
                    eq_refl eq_refl eq_refl eq_refl eq_refl
                    ltac:(vm_compute; lia) ltac:(vm_compute; lia)
                    eq_refl eq_refl))).
    exists 4. eexists. split; [discriminate|]. split; [apply Hbelow|].
    split; reflexivity.
  - apply (proj1 (Compare_first_attribute_difference
                    (parsed info_zero None None)
                    (parsed info_zero (Some [Byte.x01]) (Some cubic))
                    idm_established idm_established
                    (Differ.mkRouteAttr 228 2 info_zero)
                    (Differ.mkRouteAttr 228 2 info_zero)
                    eq_refl eq_refl eq_refl eq_refl eq_refl
                    ltac:(vm_compute; lia) ltac:(vm_compute; lia)
                    eq_refl eq_refl)).
    exists 1. eexists. split; [discriminate|]. split; [|split; reflexivity].
    intros t Hlt Hne. destruct t as [|t]; [exact I|lia].
  - rewrite (proj2 (proj2 (Compare_first_attribute_difference
                    (Differ.mkParsedMessage (Some idm_established)
                       [None; None; attr 2 info_zero])
                    (parsed info_zero None (Some cubic))
                    idm_established idm_established
                    (Differ.mkRouteAttr 228 2 info_zero)
                    (Differ.mkRouteAttr 228 2 info_zero)
                    eq_refl eq_refl eq_refl eq_refl eq_refl
                    ltac:(vm_compute; lia) ltac:(vm_compute; lia)
                    eq_refl eq_refl))).
    reflexivity.
Defined.

End Runs.

(** ** Concrete runs of the saver *)
Section SaverRuns.
Import InetDiag Saver Fixture.
Local Open Scope Z_scope.

(** A record with an all-zero cookie is turned down and nothing changes. *)
Lemma queue_zero_cookie_witness :
  exists e,
    @queue ext (record (5 * Second) Byte.x01 [] info_zero) (new_saver 3) world0
    = Some (Some e, new_saver 3, world0).
Proof.
  eapply (@queue_zero_cookie ext).
  - reflexivity.
  - reflexivity.
Defined.

(** A saver made with no marshaller: the record of an unseen connection in
    TIME_WAIT (state 6, cookie 7) gets [ErrNoMarshallers], not nil. *)
Lemma queue_no_marshallers_counterexample :
  let msg := record (5 * Second) Byte.x06 [Byte.x07] info_zero in
  @NewSaver ext "mlab1" "abc01" 0 = Some (new_saver 0) /\
  (exists idm,
     @Parse ext (Netlink.RawIDM msg) = (Some idm, None) /\
     Cookie (InetDiag.ID idm) = 7 /\ IDiagState idm = 6) /\
  Connections (new_saver 0) !! 7 = None /\
  @queue ext msg (new_saver 0) world0
    = Some (Some ErrNoMarshallers, new_saver 0, world0) /\
  @queue ext msg (new_saver 0) world0 <> Some (None, new_saver 0, world0).
Proof.
  repeat split; try reflexivity.
  - eexists. repeat split; reflexivity.
  - discriminate.
Qed.

(** An unseen connection in TIME_WAIT is skipped; an unseen established one
    gets a Connection that starts at the record's timestamp. *)
Lemma queue_unseen_connection_witness :
  @queue ext (record (5 * Second) Byte.x06 [Byte.x07] info_zero) (new_saver 3) world0
    = Some (None, new_saver 3, world0) /\
  exists r svr' w' conn,
    @queue ext (record (5 * Second) Byte.x01 [Byte.x07] info_zero) (new_saver 3) world0
      = Some (r, svr', w') /\
    Connections svr' !! 7 = Some conn /\
    StartTime conn = 5 * Second.
Proof.
  split.
  - apply (proj1 (@queue_unseen_connection ext
                    (record (5 * Second) Byte.x06 [Byte.x07] info_zero)
                    (new_saver 3) world0 _ None eq_refl
                    ltac:(vm_compute; discriminate) eq_refl
                    ltac:(vm_compute; lia) eq_refl)).
    vm_compute. discriminate.
  - apply (proj2 (@queue_unseen_connection ext
                    (record (5 * Second) Byte.x01 [Byte.x07] info_zero)
                    (new_saver 3) world0 _ None eq_refl
                    ltac:(vm_compute; discriminate) eq_refl
                    ltac:(vm_compute; lia) eq_refl)).
    vm_compute. reflexivity.
Defined.

(** Rotate on a connection without a writer: the call succeeds and Writer,
    which the specification does not name among the changes, is no longer nil. *)
Lemma Rotate_sets_Writer_counterexample :
  exists conn' w',
    @Rotate ext conn_new "mlab1" "abc01" (10 * Minute) world0 = Some (conn', w', None) /\
    Writer conn_new = None /\
    Writer conn' = Some 0%nat /\
    Writer conn' <> Writer conn_new.
Proof.
  eexists _, _. split; [reflexivity|]. repeat split. discriminate.
Qed.

(** The first file of the connection of cookie 7. *)
Lemma Rotate_success_witness :
  exists conn' w',
    @Rotate ext conn_new "mlab1" "abc01" (10 * Minute) world0 = Some (conn', w', None) /\
    sinks w' = [mkSink "2019/01/01/host_0_7.00000.jsonl.zst"
                  ["{Metadata:host_0_7,0}"%string; newline]] /\
    Writer conn' = Some 0%nat /\
    Expiration conn' = 6 * Second + 10 * Minute /\
    Sequence conn' = 1 /\
    StartTime conn' = 5 * Second.
Proof.
  eexists _, _. split; [reflexivity|].
  pose proof (@Rotate_success ext conn_new "mlab1" "abc01" (10 * Minute) world0
                _ _ eq_refl) as H.
  cbv zeta in H.
  destruct H as (Hs & Hw & He & _ & Hq & _ & _ & _ & _ & Hst).
  split; [exact Hs|]. split; [exact Hw|]. split; [exact He|].
  split; [apply Hq; split; [vm_compute; discriminate|vm_compute; reflexivity]|].
  exact Hst.
Defined.

(** A connection whose last rotation failed has no writer; endConn then
    returns the saver as it is: no close task is sent, and the cookie is
    still in the map. *)
Lemma endConn_nil_writer_counterexample :
  Connections (saver_holding conn_new) !! 7 = Some conn_new /\
  Writer conn_new = None /\
  @endConn ext 7 (saver_holding conn_new) = Some (saver_holding conn_new) /\
  (forall svr', @endConn ext 7 (saver_holding conn_new) = Some svr' ->
     Connections svr' !! 7 = Some conn_new /\
     MarshalChans svr' = repeat (mkChan [] false) 3).
Proof.
  repeat split; try reflexivity; injection H as <-; reflexivity.
Qed.

(** The connection of cookie 7 with writer 0, three marshallers: the close
    task goes to channel 7 mod 3 = 1 and the cookie leaves the map. *)
Lemma endConn_closes_open_writer_witness :
  exists svr',
    @endConn ext 7 (saver_holding conn_writing) = Some svr' /\
    MarshalChans svr' =
      [mkChan [] false; mkChan [mkTask None (Some 0%nat)] false; mkChan [] false] /\
    Connections svr' !! 7 = None.
Proof.
  destruct (proj1 (@endConn_closes_open_writer ext (saver_holding conn_writing) 7
                     conn_writing eq_refl ltac:(vm_compute; lia) eq_refl)
              0%nat eq_refl) as (c & svr' & He & Hc & Hm & Hd).
  exists svr'. split; [exact He|].
  injection Hc as <-. split; [exact Hm|].
  rewrite Hd. apply lookup_delete_eq.
Defined.

(** One scan over a saver whose cache knows cookie 7: a record that is the
    same, one that differs, one that is new. *)
Lemma swapAndQueue_counts_witness :
  exists svr' w',
    @swapAndQueue_all ext scan saver_cached world0 = Some (svr', w') /\
    TotalCount (svr_stats svr') = 3 /\
    NewCount (svr_stats svr') + DiffCount (svr_stats svr') <= TotalCount (svr_stats svr') /\
    0 <= same_count (svr_stats svr').
Proof.
  assert (Hruns : match @swapAndQueue_all ext scan saver_cached world0 with
                  | Some _ => true
                  | None => false
                  end = true) by (vm_compute; reflexivity).
  destruct (@swapAndQueue_all ext scan saver_cached world0) as [[svr' w']|] eqn:Hrun;
    [|discriminate Hruns].
  exists svr', w'. split; [reflexivity|].
  pose proof (@swapAndQueue_counts ext scan saver_cached world0 svr' w' Hrun
                ltac:(vm_compute; discriminate) ltac:(vm_compute; discriminate)
                ltac:(vm_compute; discriminate) ltac:(vm_compute; reflexivity)) as H.
  destruct H as (Ht & _ & _ & _ & Hsum & _ & Hsame).
  split; [exact Ht|]. split; [exact Hsum|exact Hsame].
Defined.

End SaverRuns.

(** ** A concrete run of the loop *)
Section LoopRuns.
Import InetDiag Saver Fixture.
Local Open Scope Z_scope.

(** Two scans in which the connection of cookie 7 has acknowledged 0 and
    then 1 byte, followed by a scan in which its counter is back at 0: the
    third report is turned down, the reported total stays at 1, the send
    histogram is not touched and the error is counted once. *)
Lemma MessageSaverLoop_reports_witness :
  exists loc1 svr1 w1 loc3 svr3 w3,
    @loop ext initial_locals [block1; block2] (new_saver 3) world0
      = Some (loc1, svr1, w1) /\
    @loop ext loc1 [block3] svr1 w1 = Some (loc3, svr3, w3) /\
    reportedSent loc1 = 1 /\
    total (lastSent loc3) = 0 /\
    reportedSent loc1 <= reportedSent loc3 /\
    reportedSent loc3 = reportedSent loc1 /\
    SendRateHistogram (metrics w3) = SendRateHistogram (metrics w1) /\
    ErrorCount (metrics w3) !! "totalSent < reportedSent"%string = Some 1.
Proof.
  assert (Hchk :
    match @loop ext initial_locals [block1; block2] (new_saver 3) world0 with
    | Some (loc1, svr1, w1) =>
        match @loop_body ext loc1 block3 svr1 w1 with
        | Some (loc2, _, _) =>
            (reportedSent loc1 =? 1) && (total (lastSent loc2) =? 0)
            && (Unix (@V4Time ext block3) >? lastReportTime loc1)
            && (default 0 (ErrorCount (metrics w1) !! "totalSent < reportedSent"%string) =? 0)
        | None => false
        end
    | None => false
    end = true) by (vm_compute; reflexivity).
  destruct (@loop ext initial_locals [block1; block2] (new_saver 3) world0)
    as [[[loc1 svr1] w1]|] eqn:H1; [|discriminate Hchk].
  destruct (@loop_body ext loc1 block3 svr1 w1) as [[[loc2 svr2] w2]|] eqn:Hb;
    [|discriminate Hchk].
  apply andb_prop in Hchk. destruct Hchk as [Hchk Herr].
  apply andb_prop in Hchk. destruct Hchk as [Hchk Hrep].
  apply andb_prop in Hchk. destruct Hchk as [Hone Htot].
  apply Z.eqb_eq in Hone. apply Z.eqb_eq in Htot. apply Z.eqb_eq in Herr.
  assert (H3 : @loop ext loc1 [block3] svr1 w1 = Some (loc2, svr2, w2)).
  { simpl. rewrite Hb. reflexivity. }
  exists loc1, svr1, w1, loc2, svr2, w2.
  split; [reflexivity|]. split; [exact H3|].
  pose proof (@MessageSaverLoop_reports ext [block1; block2] [block3]
                (new_saver 3) world0 loc1 svr1 w1 loc2 svr2 w2 H1 H3)
    as [[Hmono _] Hiter].
  destruct (Hiter block3 loc2 svr2 w2 Hb) as [[Hless _] _].
  destruct (Hless Hrep ltac:(rewrite Htot, Hone; reflexivity)) as (Hr & Hh & He).
  split; [exact Hone|]. split; [exact Htot|]. split; [exact Hmono|].
  split; [exact Hr|]. split; [exact Hh|].
  rewrite He, Herr. reflexivity.
Defined.

End LoopRuns.

(** ** More on the differ *)
Section DifferMore.
Import InetDiag Differ DifferSpec.

Lemma bytes_test_sym (a b : list byte) :
  negb (bytes_Compare a b =? 0)%Z = negb (bytes_Compare b a =? 0)%Z.
Proof.
  destruct (negb (bytes_Compare a b =? 0)%Z) eqn:H1;
    destruct (negb (bytes_Compare b a =? 0)%Z) eqn:H2; try reflexivity.
  - apply bytes_differ_test in H1. apply negb_false_iff, Z.eqb_eq, bytes_Compare_eq in H2.
    congruence.
  - apply bytes_differ_test in H2. apply negb_false_iff, Z.eqb_eq, bytes_Compare_eq in H1.
    congruence.
Qed.

Lemma bytes_test_false (a b : list byte) :
  negb (bytes_Compare a b =? 0)%Z = false <-> a = b.
Proof. rewrite negb_false_iff, Z.eqb_eq. apply bytes_Compare_eq. Qed.

(** The attribute loop answers NoMajorChange exactly when every type it
    visits, INFO apart, has the same entry on both sides. *)
Lemma compare_attrs_NoMajorChange previous current (tps : list nat) :
  compare_attrs previous current tps = Some NoMajorChange <->
  (forall tp, In tp tps -> tp <> INET_DIAG_INFO -> same_entry previous current tp).
Proof.
  induction tps as [|tp tps IH]; simpl.
  - split; [intros _ tp []|reflexivity].
  - destruct (Nat.eqb_spec tp INET_DIAG_INFO) as [Heq|Hne].
    + rewrite IH. split.
      * intros H t [<-|Hin] Ht; [contradiction|apply H; assumption].
      * intros H t Hin. apply H. now right.
    + unfold same_entry in *.
      destruct (nth_error previous tp) as [[a|]|] eqn:Hp;
        destruct (nth_error current tp) as [[b|]|] eqn:Hc;
        try (split; [discriminate|];
             intros H; specialize (H tp (or_introl eq_refl) Hne);
             rewrite Hp in H; try rewrite Hc in H; contradiction).
      * destruct (Nat.eqb_spec (length (Value a)) (length (Value b))) as [Hl|Hl]; simpl.
        -- destruct (negb (bytes_Compare (Value a) (Value b) =? 0)%Z) eqn:Hb.
           ++ split; [discriminate|]. intros H.
              specialize (H tp (or_introl eq_refl) Hne). rewrite Hp, Hc in H.
              apply bytes_differ_test in Hb. contradiction.
           ++ apply bytes_test_false in Hb. rewrite IH. split.
              ** intros H t [<-|Hin] Ht; [rewrite Hp, Hc; auto|apply H; assumption].
              ** intros H t Hin. apply H. now right.
        -- split; [discriminate|]. intros H.
           specialize (H tp (or_introl eq_refl) Hne). rewrite Hp, Hc in H.
           congruence.
      * rewrite IH. split.
        -- intros H t [<-|Hin] Ht; [rewrite Hp, Hc; auto|apply H; assumption].
        -- intros H t Hin. apply H. now right.
Qed.

(** The classes the attribute loop can answer. *)
Lemma compare_attrs_classes previous current tps c :
  compare_attrs previous current tps = Some c ->
  c = NoMajorChange \/ c = NewAttribute \/ c = LostAttribute \/
  c = AttributeLength \/ c = Other.
Proof.
  induction tps as [|tp tps IH]; simpl.
  - intros [= <-]. auto.
  - destruct (tp =? INET_DIAG_INFO); [exact IH|].
    destruct (nth_error previous tp) as [[a|]|]; [| |discriminate];
      destruct (nth_error current tp) as [[b|]|]; try discriminate;
      try (intros [= <-]; tauto); try exact IH.
    destruct (negb (length (Value a) =? length (Value b))); [intros [= <-]; tauto|].
    destruct (negb (bytes_Compare (Value a) (Value b) =? 0)%Z); [intros [= <-]; tauto|].
    exact IH.
Qed.

(** What [Compare] is on two messages with headers, whatever their
    attributes. *)
Lemma Compare_with_headers previous current pidm cidm :
  InetDiagMsg previous = Some pidm -> InetDiagMsg current = Some cidm ->
  Compare previous current =
    if negb (IDiagState pidm =? IDiagState cidm)%Z then Some IDiagStateChange
    else
      match nth_error (Attributes previous) INET_DIAG_INFO,
            nth_error (Attributes current) INET_DIAG_INFO with
      | Some (Some a), Some (Some b) =>
          if (PmtuOffset <=? length (Value a)) && (PmtuOffset <=? length (Value b))
          then
            if negb (bytes_Compare (skipn PmtuOffset (Value a))
                       (skipn PmtuOffset (Value b)) =? 0)%Z
            then Some StateOrCounterChange
            else if negb (bytes_Compare (firstn LastDataSentOffset (Value a))
                            (firstn LastDataSentOffset (Value b)) =? 0)%Z
            then Some StateOrCounterChange
            else compare_attrs (Attributes previous) (Attributes current)
                   (seq 0 (length (Attributes previous)))
          else None
      | Some _, Some _ => Some NoTCPInfo
      | _, _ => None
      end.
Proof.
  intros Hp Hc. unfold Compare. rewrite Hp, Hc.
  destruct (negb _); [reflexivity|].
  destruct (nth_error (Attributes previous) INET_DIAG_INFO) as [[a|]|]; try reflexivity;
    destruct (nth_error (Attributes current) INET_DIAG_INFO) as [[b|]|]; try reflexivity.
  unfold slice_from, slice_to.
  assert (HL : LastDataSentOffset <= PmtuOffset) by (vm_compute; lia).
  destruct (PmtuOffset <=? length (Value a)) eqn:Ea; cbn [andb]; [|reflexivity].
  destruct (PmtuOffset <=? length (Value b)) eqn:Eb; cbn [andb]; [|reflexivity].
  apply Nat.leb_le in Ea. apply Nat.leb_le in Eb.
  destruct (Nat.leb_spec LastDataSentOffset (length (Value a))) as [_|?]; [|lia].
  destruct (Nat.leb_spec LastDataSentOffset (length (Value b))) as [_|?]; [|lia].
  reflexivity.
Qed.

(** X1.  [Compare] returns NoMajorChange exactly when both messages have a
    header with the same IDiagState, both carry an INFO attribute whose
    values are at least PmtuOffset bytes long and agree outside the bytes
    from LastDataSentOffset to PmtuOffset, and every other attribute type
    of the previous table is absent on both sides or present on both sides
    with the same value. *)
Theorem Compare_NoMajorChange_iff (previous current : ParsedMessage) :
  Compare previous current = Some NoMajorChange <->
  exists pidm cidm a b,
    InetDiagMsg previous = Some pidm /\ InetDiagMsg current = Some cidm /\
    IDiagState pidm = IDiagState cidm /\
    nth_error (Attributes previous) INET_DIAG_INFO = Some (Some a) /\
    nth_error (Attributes current) INET_DIAG_INFO = Some (Some b) /\
    PmtuOffset <= length (Value a) /\ PmtuOffset <= length (Value b) /\
    skipn PmtuOffset (Value a) = skipn PmtuOffset (Value b) /\
    firstn LastDataSentOffset (Value a) = firstn LastDataSentOffset (Value b) /\
    (forall tp, tp < length (Attributes previous) -> tp <> INET_DIAG_INFO ->
       same_entry (Attributes previous) (Attributes current) tp).
Proof.
  split.
  - intros H.
    destruct (InetDiagMsg previous) as [pidm|] eqn:Hp;
      [|unfold Compare in H; rewrite Hp in H; discriminate].
    destruct (InetDiagMsg current) as [cidm|] eqn:Hc;
      [|unfold Compare in H; rewrite Hp, Hc in H; discriminate].
    rewrite (Compare_with_headers _ _ _ _ Hp Hc) in H.
    destruct (Z.eqb_spec (IDiagState pidm) (IDiagState cidm)) as [Hst|Hst];
      cbn [negb] in H; [|discriminate].
    destruct (nth_error (Attributes previous) INET_DIAG_INFO) as [[a|]|] eqn:Ha;
      try discriminate;
      destruct (nth_error (Attributes current) INET_DIAG_INFO) as [[b|]|] eqn:Hb;
      try discriminate.
    destruct (Nat.leb_spec PmtuOffset (length (Value a))) as [Hla|]; [|discriminate].
    destruct (Nat.leb_spec PmtuOffset (length (Value b))) as [Hlb|]; [|discriminate].
    cbn [andb] in H.
    destruct (negb (bytes_Compare (skipn _ _) (skipn _ _) =? 0)%Z) eqn:H1; [discriminate|].
    destruct (negb (bytes_Compare (firstn _ _) (firstn _ _) =? 0)%Z) eqn:H2; [discriminate|].
    apply bytes_test_false in H1. apply bytes_test_false in H2.
    exists pidm, cidm, a, b. repeat split; auto.
    intros tp Hlt Hne. apply compare_attrs_NoMajorChange with (tp := tp) in H; auto.
    apply in_seq. lia.
  - intros (pidm & cidm & a & b & Hp & Hc & Hst & Ha & Hb & Hla & Hlb & H1 & H2 & Hall).
    rewrite (Compare_with_headers _ _ _ _ Hp Hc), Hst, Z.eqb_refl, Ha, Hb. cbn [negb].
    destruct (Nat.leb_spec PmtuOffset (length (Value a))) as [_|]; [|lia].
    destruct (Nat.leb_spec PmtuOffset (length (Value b))) as [_|]; [|lia].
    cbn [andb]. rewrite H1, H2, !bytes_Compare_refl. cbn [Z.eqb negb].
    apply compare_attrs_NoMajorChange. intros tp Hin Hne. apply Hall; auto.
    apply in_seq in Hin. lia.
Qed.

(** The attribute loop cannot fail on types that both tables cover. *)
Lemma compare_attrs_returns previous current tps :
  (forall tp, In tp tps -> tp < length previous /\ tp < length current) ->
  compare_attrs previous current tps <> None.
Proof.
  induction tps as [|tp tps IH]; intros H; simpl; [discriminate|].
  assert (IH' : compare_attrs previous current tps <> None)
    by (apply IH; intros t Ht; apply H; now right).
  destruct (tp =? INET_DIAG_INFO); [exact IH'|].
  destruct (H tp (or_introl eq_refl)) as [Hp Hc].
  apply nth_error_Some in Hp. apply nth_error_Some in Hc.
  destruct (nth_error previous tp) as [[a|]|]; [| |contradiction];
    destruct (nth_error current tp) as [[b|]|]; try contradiction; try discriminate;
    try exact IH'.
  destruct (negb (length (Value a) =? length (Value b))); [discriminate|].
  destruct (negb (bytes_Compare (Value a) (Value b) =? 0)%Z); [discriminate|exact IH'].
Qed.

(** The attribute loop with its arguments exchanged. *)
Lemma compare_attrs_swap previous current tps :
  compare_attrs current previous tps
  = option_map swap_change (compare_attrs previous current tps).
Proof.
  induction tps as [|tp tps IH]; simpl; [reflexivity|].
  destruct (tp =? INET_DIAG_INFO); [exact IH|].
  destruct (nth_error previous tp) as [[a|]|];
    destruct (nth_error current tp) as [[b|]|]; try reflexivity; try exact IH.
  rewrite (Nat.eqb_sym (length (Value b))), (bytes_test_sym (Value b)).
  destruct (negb (length (Value a) =? length (Value b))); [reflexivity|].
  destruct (negb (bytes_Compare (Value a) (Value b) =? 0)%Z); [reflexivity|exact IH].
Qed.

(** X2.  Comparing in the other direction gives the same class, with
    NewAttribute and LostAttribute exchanged, when the two attribute tables
    cover the same types. *)
Theorem Compare_swap (previous current : ParsedMessage) :
  length (Attributes previous) = length (Attributes current) ->
  Compare current previous = option_map swap_change (Compare previous current).
Proof.
  intros Hlen. unfold Compare.
  destruct (InetDiagMsg previous) as [pidm|];
    destruct (InetDiagMsg current) as [cidm|]; try reflexivity.
  rewrite (Z.eqb_sym (IDiagState cidm)).
  destruct (negb (IDiagState pidm =? IDiagState cidm)%Z); [reflexivity|].
  destruct (nth_error (Attributes previous) INET_DIAG_INFO) as [[a|]|];
    destruct (nth_error (Attributes current) INET_DIAG_INFO) as [[b|]|];
    try reflexivity.
  destruct (slice_from (Value a) PmtuOffset) as [ta|];
    destruct (slice_from (Value b) PmtuOffset) as [tb|]; try reflexivity.
  rewrite (bytes_test_sym tb).
  destruct (negb (bytes_Compare ta tb =? 0)%Z); [reflexivity|].
  destruct (slice_to (Value a) LastDataSentOffset) as [ha|];
    destruct (slice_to (Value b) LastDataSentOffset) as [hb|]; try reflexivity.
  rewrite (bytes_test_sym hb).
  destruct (negb (bytes_Compare ha hb =? 0)%Z); [reflexivity|].
  rewrite <- Hlen. apply compare_attrs_swap.
Qed.

(** X3.  On messages with headers whose attribute tables cover the same types,
    INFO among them, [Compare] panics exactly when the states are equal,
    both carry INFO and one of the payloads is shorter than PmtuOffset. *)
Theorem Compare_panics_iff (previous current : ParsedMessage) pidm cidm :
  InetDiagMsg previous = Some pidm -> InetDiagMsg current = Some cidm ->
  length (Attributes previous) = length (Attributes current) ->
  INET_DIAG_INFO < length (Attributes previous) ->
  (Compare previous current = None <->
   IDiagState pidm = IDiagState cidm /\
   exists a b,
     nth_error (Attributes previous) INET_DIAG_INFO = Some (Some a) /\
     nth_error (Attributes current) INET_DIAG_INFO = Some (Some b) /\
     (length (Value a) < PmtuOffset \/ length (Value b) < PmtuOffset)).
Proof.
  intros Hp Hc Hlen Hin.
  rewrite (Compare_with_headers _ _ _ _ Hp Hc).
  assert (Hpi : nth_error (Attributes previous) INET_DIAG_INFO <> None)
    by (apply nth_error_Some; lia).
  assert (Hci : nth_error (Attributes current) INET_DIAG_INFO <> None)
    by (apply nth_error_Some; lia).
  assert (Hloop : compare_attrs (Attributes previous) (Attributes current)
                    (seq 0 (length (Attributes previous))) <> None).
  { apply compare_attrs_returns. intros tp Ht. apply in_seq in Ht. lia. }
  destruct (Z.eqb_spec (IDiagState pidm) (IDiagState cidm)) as [Hst|Hst]; cbn [negb].
  2:{ split; [discriminate|]. intros [H _]. contradiction. }
  destruct (nth_error (Attributes previous) INET_DIAG_INFO) as [[a|]|]; [| |contradiction];
    (destruct (nth_error (Attributes current) INET_DIAG_INFO) as [[b|]|]; [| |contradiction]);
    try (split; [discriminate|]; intros (_ & a' & b' & Ha' & Hb' & _); discriminate).
  destruct (Nat.leb_spec PmtuOffset (length (Value a))) as [Hla|Hla]; cbn [andb].
  - destruct (Nat.leb_spec PmtuOffset (length (Value b))) as [Hlb|Hlb]; cbn [andb].
    + split.
      * intros H. exfalso.
        destruct (negb (bytes_Compare (skipn _ _) (skipn _ _) =? 0)%Z); [discriminate|].
        destruct (negb (bytes_Compare (firstn _ _) (firstn _ _) =? 0)%Z); [discriminate|].
        contradiction.
      * intros (_ & a' & b' & [= <-] & [= <-] & [H|H]); lia.
    + split; [|reflexivity]. intros _. split; [exact Hst|]. exists a, b. auto.
  - split; [|reflexivity]. intros _. split; [exact Hst|]. exists a, b. auto.
Qed.

(** X4.  For two messages with headers, [Compare] returns IDiagStateChange
    exactly when the states differ; NoTCPInfo exactly when the states are
    equal, both tables reach the INFO type and one of them has no INFO
    attribute; StateOrCounterChange exactly when the states are equal and
    the two INFO values, each at least PmtuOffset bytes long, differ from
    PmtuOffset on or before LastDataSentOffset.  No path returns
    PacketCountChange. *)
Theorem Compare_header_classes (previous current : ParsedMessage) pidm cidm :
  InetDiagMsg previous = Some pidm -> InetDiagMsg current = Some cidm ->
  (Compare previous current = Some IDiagStateChange <->
   IDiagState pidm <> IDiagState cidm) /\
  (Compare previous current = Some NoTCPInfo <->
   IDiagState pidm = IDiagState cidm /\
   exists ea eb,
     nth_error (Attributes previous) INET_DIAG_INFO = Some ea /\
     nth_error (Attributes current) INET_DIAG_INFO = Some eb /\
     (ea = None \/ eb = None)) /\
  (Compare previous current = Some StateOrCounterChange <->
   IDiagState pidm = IDiagState cidm /\
   exists a b,
     nth_error (Attributes previous) INET_DIAG_INFO = Some (Some a) /\
     nth_error (Attributes current) INET_DIAG_INFO = Some (Some b) /\
     PmtuOffset <= length (Value a) /\ PmtuOffset <= length (Value b) /\
     (skipn PmtuOffset (Value a) <> skipn PmtuOffset (Value b) \/
      firstn LastDataSentOffset (Value a) <> firstn LastDataSentOffset (Value b))) /\
  Compare previous current <> Some PacketCountChange.
Proof.
  intros Hp Hc. rewrite (Compare_with_headers _ _ _ _ Hp Hc).
  assert (Hloop : forall c,
            compare_attrs (Attributes previous) (Attributes current)
              (seq 0 (length (Attributes previous))) = Some c ->
            c <> IDiagStateChange /\ c <> NoTCPInfo /\ c <> StateOrCounterChange /\
            c <> PacketCountChange).
  { intros c H. apply compare_attrs_classes in H.
    destruct H as [->|[->|[->|[->| ->]]]]; repeat split; discriminate. }
  destruct (Z.eqb_spec (IDiagState pidm) (IDiagState cidm)) as [Hst|Hst]; cbn [negb].
  2:{ split; [tauto|]. split; [split; [discriminate|tauto]|].
      split; [split; [discriminate|tauto]|discriminate]. }
  destruct (nth_error (Attributes previous) INET_DIAG_INFO) as [[a|]|] eqn:Ha;
    destruct (nth_error (Attributes current) INET_DIAG_INFO) as [[b|]|] eqn:Hb.
  1:{ (* both carry INFO *)
    assert (Hno : ~ (IDiagState pidm = IDiagState cidm /\
                     exists ea eb : option RouteAttr,
                       Some (Some a) = Some ea /\ Some (Some b) = Some eb /\
                       (ea = None \/ eb = None))).
    { intros (_ & ea & eb & [= <-] & [= <-] & [H|H]); discriminate. }
    destruct (Nat.leb_spec PmtuOffset (length (Value a))) as [Hla|Hla]; cbn [andb].
    2:{ split; [split; [discriminate|tauto]|]. split; [split; [discriminate|tauto]|].
        split; [|discriminate]. split; [discriminate|].
        intros (_ & a' & b' & [= <-] & [= <-] & H1 & H2 & _). lia. }
    destruct (Nat.leb_spec PmtuOffset (length (Value b))) as [Hlb|Hlb]; cbn [andb].
    2:{ split; [split; [discriminate|tauto]|]. split; [split; [discriminate|tauto]|].
        split; [|discriminate]. split; [discriminate|].
        intros (_ & a' & b' & [= <-] & [= <-] & H1 & H2 & _). lia. }
    destruct (negb (bytes_Compare (skipn _ _) (skipn _ _) =? 0)%Z) eqn:H1.
    { apply bytes_differ_test in H1.
      split; [split; [discriminate|tauto]|]. split; [split; [discriminate|tauto]|].
      split; [|discriminate]. split; [|reflexivity].
      intros _. split; [exact Hst|]. exists a, b. auto 10. }
    destruct (negb (bytes_Compare (firstn _ _) (firstn _ _) =? 0)%Z) eqn:H2.
    { apply bytes_differ_test in H2.
      split; [split; [discriminate|tauto]|]. split; [split; [discriminate|tauto]|].
      split; [|discriminate]. split; [|reflexivity].
      intros _. split; [exact Hst|]. exists a, b. auto 10. }
    apply bytes_test_false in H1. apply bytes_test_false in H2.
    split; [split; [intros H; apply Hloop in H; tauto|tauto]|].
    split; [split; [intros H; apply Hloop in H; tauto|tauto]|].
    split; [|intros H; apply Hloop in H; tauto].
    split; [intros H; apply Hloop in H; tauto|].
    intros (_ & a' & b' & [= <-] & [= <-] & _ & _ & [H|H]); contradiction. }
  all: split; [split; [discriminate|tauto]|].
  all: split; [|split; [|discriminate]].
  all: try (split; [discriminate|];
            intros (_ & ea & eb & H1 & H2 & _); discriminate).
  all: try (split; [discriminate|];
            intros (_ & a' & b' & H1 & H2 & _); discriminate).
  all: try (split; [|reflexivity]; intros _; split; [exact Hst|];
            eexists _, _; split; [reflexivity|]; split; [reflexivity|]; auto).
Qed.

(** The loop passes over every type with the same entry on both sides. *)
Lemma compare_attrs_skip_same previous current (pre rest : list nat) :
  (forall tp, In tp pre -> tp <> INET_DIAG_INFO -> same_entry previous current tp) ->
  compare_attrs previous current (pre ++ rest) = compare_attrs previous current rest.
Proof.
  induction pre as [|tp pre IH]; intros H; simpl; [reflexivity|].
  assert (IH' : compare_attrs previous current (pre ++ rest)
                = compare_attrs previous current rest)
    by (apply IH; intros t Ht; apply H; now right).
  destruct (Nat.eqb_spec tp INET_DIAG_INFO) as [Heq|Hne]; [exact IH'|].
  specialize (H tp (or_introl eq_refl) Hne). unfold same_entry in H.
  destruct (nth_error previous tp) as [[a|]|]; [| |contradiction];
    destruct (nth_error current tp) as [[b|]|]; try contradiction; [|exact IH'].
  rewrite H, Nat.eqb_refl, bytes_Compare_refl. exact IH'.
Qed.

(** X5.  The two classes of a changed attribute: with everything below the type
    [tp] equal and an attribute of type [tp] on both sides, a different
    length gives AttributeLength and the same length with other bytes gives
    Other. *)
Theorem Compare_attribute_changed previous current pidm cidm
    (a b x y : RouteAttr) (tp : nat) :
  InetDiagMsg previous = Some pidm -> InetDiagMsg current = Some cidm ->
  IDiagState pidm = IDiagState cidm ->
  nth_error (Attributes previous) INET_DIAG_INFO = Some (Some a) ->
  nth_error (Attributes current) INET_DIAG_INFO = Some (Some b) ->
  PmtuOffset <= length (Value a) -> PmtuOffset <= length (Value b) ->
  skipn PmtuOffset (Value a) = skipn PmtuOffset (Value b) ->
  firstn LastDataSentOffset (Value a) = firstn LastDataSentOffset (Value b) ->
  tp <> INET_DIAG_INFO ->
  (forall t, t < tp -> t <> INET_DIAG_INFO ->
     same_entry (Attributes previous) (Attributes current) t) ->
  nth_error (Attributes previous) tp = Some (Some x) ->
  nth_error (Attributes current) tp = Some (Some y) ->
  (length (Value x) <> length (Value y) ->
   Compare previous current = Some AttributeLength) /\
  (length (Value x) = length (Value y) -> Value x <> Value y ->
   Compare previous current = Some Other).
Proof.
  intros Hp Hc Hst Ha Hb Hla Hlb Htail Hhead Htp Hbefore Hx Hy.
  rewrite (Compare_unfold _ _ _ _ _ _ Hp Hc Hst Ha Hb Hla Hlb).
  rewrite Htail, Hhead, !bytes_Compare_refl. cbn [Z.eqb negb].
  assert (Hlt : tp < length (Attributes previous))
    by (apply nth_error_Some; congruence).
  rewrite (seq_split_at _ tp Hlt).
  rewrite compare_attrs_skip_same
    by (intros t Hin Hne; apply in_seq in Hin; apply Hbefore; lia).
  simpl. destruct (Nat.eqb_spec tp INET_DIAG_INFO) as [|_]; [contradiction|].
  rewrite Hx, Hy. split.
  - intros Hl. apply Nat.eqb_neq in Hl. now rewrite Hl.
  - intros Hl Hv. rewrite Hl, Nat.eqb_refl. cbn [negb].
    apply bytes_differ_test in Hv. now rewrite Hv.
Qed.

End DifferMore.

(** ** The socket identifier *)
Section SockIDFacts.
Import InetDiag.
Local Open Scope Z_scope.

Lemma byte_value_range (b : byte) : 0 <= Z.of_N (Byte.to_N b) < 256.
Proof.
  pose proof (Byte.to_N_bounded b). lia.
Qed.

Lemma le_uint_range (bs : list byte) : 0 <= le_uint bs < 256 ^ Z.of_nat (length bs).
Proof.
  induction bs as [|b bs IH].
  - simpl. lia.
  - cbn [le_uint length]. rewrite Nat2Z.inj_succ, Z.pow_succ_r by lia.
    pose proof (byte_value_range b). lia.
Qed.

Lemma le_uint_zeros (n : nat) : le_uint (repeat Byte.x00 n) = 0.
Proof.
  induction n as [|n IH]; [reflexivity|]. cbn [repeat le_uint]. rewrite IH. reflexivity.
Qed.

(** Byte sequences of one length with the same value are the same. *)
Lemma le_uint_inj (a b : list byte) :
  length a = length b -> le_uint a = le_uint b -> a = b.
Proof.
  revert b. induction a as [|x a IH]; intros [|y b] Hl H; try discriminate; [reflexivity|].
  cbn [le_uint] in H. injection Hl as Hl.
  pose proof (byte_value_range x). pose proof (byte_value_range y).
  assert (Hxy : Z.of_N (Byte.to_N x) = Z.of_N (Byte.to_N y)) by lia.
  assert (Hr : le_uint a = le_uint b) by lia.
  f_equal; [|now apply IH].
  apply byte_to_N_inj. lia.
Qed.

(** X6.  The cookie is a 64-bit number that stands for the eight bytes on the
    wire: it is zero only for eight zero bytes, and two socket ids have the
    same cookie only if their cookie bytes are the same. *)
Theorem Cookie_identifies_bytes (id id' : InetDiagSockID) :
  length (IDiagCookie id) = 8%nat -> length (IDiagCookie id') = 8%nat ->
  0 <= Cookie id < 2 ^ 64 /\
  (Cookie id = 0 <-> IDiagCookie id = repeat Byte.x00 8) /\
  (Cookie id = Cookie id' <-> IDiagCookie id = IDiagCookie id').
Proof.
  intros H8 H8'. unfold Cookie.
  rewrite !firstn_all2 by lia.
  split; [|split].
  - pose proof (le_uint_range (IDiagCookie id)) as H. rewrite H8 in H. exact H.
  - split.
    + intros H. apply le_uint_inj; [now rewrite repeat_length|].
      now rewrite le_uint_zeros.
    + intros ->. apply le_uint_zeros.
  - split; [|now intros ->].
    intros H. apply le_uint_inj; [lia|exact H].
Qed.

(** X7.  [SPort] and [DPort] read the two port bytes in network byte order,
    the first byte times 256 plus the second, and lie between 0 and
    65535. *)
Theorem ports_network_order (id : InetDiagSockID) (sh sl dh dl : byte) :
  IDiagSPort id = [sh; sl] -> IDiagDPort id = [dh; dl] ->
  SPort id = 256 * Z.of_N (Byte.to_N sh) + Z.of_N (Byte.to_N sl) /\
  DPort id = 256 * Z.of_N (Byte.to_N dh) + Z.of_N (Byte.to_N dl) /\
  0 <= SPort id < 65536 /\ 0 <= DPort id < 65536.
Proof.
  intros Hs Hd. unfold SPort, DPort, be_uint. rewrite Hs, Hd. cbn.
  pose proof (byte_value_range sh). pose proof (byte_value_range sl).
  pose proof (byte_value_range dh). pose proof (byte_value_range dl).
  lia.
Qed.

Lemma all_zero_iff (bs : list byte) :
  existsb (fun b => negb (Byte.eqb b Byte.x00)) bs = false <->
  bs = repeat Byte.x00 (length bs).
Proof.
  induction bs as [|b bs IH]; simpl; [tauto|].
  rewrite orb_false_iff, negb_false_iff, IH. split.
  - intros [Hb Hr]. apply Byte.byte_dec_bl in Hb. subst b. f_equal. exact Hr.
  - intros [= Hb Hr]. split; [subst b; reflexivity|exact Hr].
Qed.

(** X8.  [ip] gives the four-byte form exactly for the addresses whose last
    twelve bytes are zero, whatever the family, and the sixteen bytes
    otherwise; filled again with zeros it is the address on the wire. *)
Theorem ip_keeps_address (bytes : list byte) :
  length bytes = 16%nat ->
  (isIpv6 bytes = false <-> skipn 4 bytes = repeat Byte.x00 12) /\
  (isIpv6 bytes = false -> ip bytes = firstn 4 bytes) /\
  (isIpv6 bytes = true -> ip bytes = bytes) /\
  (ip bytes ++ repeat Byte.x00 (16 - length (ip bytes)) = bytes)%list.
Proof.
  intros H16.
  assert (Hz : isIpv6 bytes = false <-> skipn 4 bytes = repeat Byte.x00 12).
  { unfold isIpv6. rewrite all_zero_iff, length_skipn, H16. reflexivity. }
  split; [exact Hz|]. unfold ip, ipv4, ipv6.
  destruct (isIpv6 bytes) eqn:H6.
  - split; [discriminate|]. split; [reflexivity|].
    rewrite H16. simpl. apply app_nil_r.
  - split; [reflexivity|]. split; [discriminate|].
    rewrite length_firstn, H16.
    change (16 - Nat.min 4 16)%nat with 12%nat.
    rewrite <- (proj1 Hz eq_refl). apply firstn_skipn.
Qed.

End SockIDFacts.

(** ** Struct layout and the decoders *)
Section LayoutFacts.
Import GoLayout Mem TcpInfo Attr.

Lemma align_up_ge (n a : nat) : 0 < a -> n <= align_up n a.
Proof.
  intros Ha. unfold align_up.
  pose proof (Nat.div_mod_eq (n + a - 1) a) as Hd.
  pose proof (Nat.mod_upper_bound (n + a - 1) a ltac:(lia)) as Hm.
  nia.
Qed.

Lemma kind_align_pos (k : kind) : 0 < kind_align k.
Proof. destruct k; simpl; lia. Qed.

Lemma struct_align_pos (t : StructType) : 0 < struct_align t.
Proof.
  unfold struct_align. induction t as [|f t IH]; simpl; lia.
Qed.

Lemma end_of_ge (fs : StructType) (off : nat) : off <= end_of off fs.
Proof.
  revert off. induction fs as [|[name k] fs IH]; intros off; simpl; [lia|].
  pose proof (IH (align_up off (kind_align k) + kind_size k)).
  pose proof (align_up_ge off (kind_align k) (kind_align_pos k)). lia.
Qed.

(** Every field is placed before the end of the struct. *)
Lemma place_bound (fs : StructType) (off : nat) name o k :
  In (name, (o, k)) (place off fs) -> o + kind_size k <= end_of off fs.
Proof.
  revert off. induction fs as [|[n k'] fs IH]; intros off; simpl; [tauto|].
  intros [H|H].
  - injection H as _ <- <-. apply end_of_ge.
  - now apply IH.
Qed.

Lemma find_field_In name l ok :
  find_field name l = Some ok -> exists n, In (n, ok) l.
Proof.
  induction l as [|[n ok'] l IH]; simpl; [discriminate|].
  destruct (String.eqb n name).
  - intros [= <-]. eauto.
  - intros H. destruct (IH H) as [n' Hn]. eauto.
Qed.

Lemma find_field_place (fs : StructType) (off : nat) f :
  In f fs -> find_field (fst f) (place off fs) <> None.
Proof.
  revert off. induction fs as [|[n k] fs IH]; intros off; simpl; [tauto|].
  intros [<-|H]; simpl.
  - now rewrite String.eqb_refl.
  - destruct (String.eqb n (fst f)); [discriminate|]. now apply IH.
Qed.

(** A buffer of [sizeof(t)] bytes holds every field of [t]. *)
Lemma view_in_bounds_of_size h p (t : StructType) :
  Sizeof t <= length (reachable h p) -> view_in_bounds h p t = true.
Proof.
  intros Hsz. unfold view_in_bounds. apply forallb_forall. intros f Hf.
  unfold read_field, field.
  destruct (find_field (fst f) (place 0 t)) as [[o k]|] eqn:Hfind.
  - destruct (find_field_In _ _ _ Hfind) as [n Hn].
    apply place_bound in Hn.
    pose proof (align_up_ge (end_of 0 t) (struct_align t) (struct_align_pos t)) as Hup.
    unfold Sizeof in Hsz.
    destruct (Nat.leb_spec (o + kind_size k) (length (reachable h p))); [reflexivity|lia].
  - exfalso. now apply (find_field_place t 0 f Hf).
Qed.

Lemma reachable_slice h s bs :
  slice_bytes h s = Some bs -> 0 < s_len s ->
  reachable h (mkPointer (s_arr s) (s_off s) (s_len s)) = bs.
Proof.
  unfold slice_bytes, reachable. cbn [p_arr p_off p_ext].
  intros H Hpos. destruct (Nat.eqb_spec (s_len s) 0) as [H0|_]; [lia|].
  destruct (nth_error h (s_arr s)) as [a|]; [|discriminate].
  destruct (s_off s + s_len s <=? length a); [|discriminate].
  now injection H.
Qed.

(** [MaybeCopy] at the size of a struct type: the result can be viewed as
    that type. *)
Lemma MaybeCopy_views_struct (t : StructType) h src bs :
  slice_bytes h src = Some bs -> 0 < Sizeof t ->
  views_value t h bs (MaybeCopy h src (Z.of_nat (Sizeof t))).
Proof.
  intros Hs Hpos. pose proof (slice_bytes_length _ _ _ Hs) as Hl.
  unfold views_value.
  destruct (Nat.lt_ge_cases (s_len src) (Sizeof t)) as [Hshort|Hlong].
  - rewrite (MaybeCopy_short h src bs _ Hs Hshort). cbn [fst snd].
    eexists. split; [reflexivity|].
    rewrite reachable_new.
    assert (Hlen : length (bs ++ repeat Byte.x00 (Sizeof t - s_len src)) = Sizeof t).
    { rewrite length_app, repeat_length. lia. }
    split; [|split].
    + apply view_in_bounds_of_size. rewrite reachable_new, length_firstn. lia.
    + rewrite Hl, List.firstn_firstn, Nat.min_id. reflexivity.
    + intros i Hi. now rewrite nth_error_app1.
  - rewrite (MaybeCopy_long h src _ Hlong) by lia. cbn [fst snd].
    eexists. split; [reflexivity|].
    rewrite (reachable_slice h src bs Hs) by lia.
    split; [|split].
    + apply view_in_bounds_of_size. rewrite (reachable_slice h src bs Hs) by lia. lia.
    + replace (Sizeof t - length bs) with 0 by lia. simpl. now rewrite app_nil_r.
    + reflexivity.
Qed.

(** X9.  The decoders of the INFO, SKMEMINFO and MEMINFO values never panic and
    never read outside the buffer they return, whatever the length of the
    value: the struct is viewed over the value cut or zero-filled to the size
    of the decoder's own type, and the arrays that existed are unchanged. *)
Theorem decoders_view_in_bounds (h : Heap) (raw : Slice) (bs : list byte) :
  slice_bytes h raw = Some bs ->
  views_value LinuxTCPInfo h bs (ToLinuxTCPInfo h raw) /\
  views_value SocketMemInfo h bs (ToSockMemInfo h raw) /\
  views_value MemInfo h bs (ToMemInfo h raw).
Proof.
  intros Hs. unfold ToLinuxTCPInfo, ToSockMemInfo, ToMemInfo.
  split; [|split]; apply MaybeCopy_views_struct; try exact Hs.
  - change (Sizeof LinuxTCPInfo) with 224. lia.
  - change (Sizeof SocketMemInfo) with 36. lia.
  - change (Sizeof MemInfo) with 16. lia.
Qed.


(** X11.  The name of the congestion algorithm is the value without its last
    byte, the terminating NUL of the kernel's string; an empty value
    panics. *)
Theorem Cong_drops_last_byte :
  Cong [] = None /\
  (forall (name : list byte) (c : byte), Cong (name ++ [c]) = Some name) /\
  (forall value, Cong value = None <-> value = []) /\
  (forall value, ParseCong value = Cong value).
Proof.
  split; [reflexivity|]. split; [|split; [|reflexivity]].
  - intros name c. unfold Cong. rewrite length_app. simpl.
    destruct (Nat.eqb_spec (length name + 1) 0) as [H|_]; [lia|].
    replace (length name + 1 - 1) with (length name) by lia.
    rewrite firstn_app, Nat.sub_diag, firstn_all. simpl. now rewrite app_nil_r.
  - intros value. unfold Cong. destruct value as [|b value]; simpl; [tauto|].
    split; discriminate.
Qed.

(** X12.  The earlier decoder [ParseLinuxTCPInfo], which pads in line, and
    [ToLinuxTCPInfo], which calls [MaybeCopy], give the same heap and the
    same pointer on every value; the struct of the earlier file, with its
    unexported fields, has the same size and the same two offsets. *)
Theorem ParseLinuxTCPInfo_is_ToLinuxTCPInfo (h : Heap) (value : Slice) :
  ParseLinuxTCPInfo h value = ToLinuxTCPInfo h value /\
  Sizeof Differ.LinuxTCPInfo = Sizeof LinuxTCPInfo /\
  Differ.LastDataSentOffset = LastDataSentOffset /\
  Differ.PmtuOffset = PmtuOffset.
Proof.
  split; [|repeat split; reflexivity].
  unfold ParseLinuxTCPInfo, ToLinuxTCPInfo, MaybeCopy.
  change (Sizeof Differ.LinuxTCPInfo) with 224. change (Sizeof LinuxTCPInfo) with 224.
  destruct (Nat.ltb_spec (s_len value) 224) as [H|H];
    destruct (Z.ltb_spec (Z.of_nat (s_len value)) (Z.of_nat 224)) as [H'|H'];
    try lia; [|reflexivity].
  rewrite Nat2Z.id. reflexivity.
Qed.

End LayoutFacts.

(** ** The channels, the connection map and the marshallers *)
Section ChannelFacts.
Import InetDiag Saver Marshaller.
Context `{E : Externals}.

(** *** Task sequences *)

Lemma closes_of_app (a b : list Task) :
  closes_of (a ++ b) = closes_of a ++ closes_of b.
Proof.
  induction a as [|t a IH]; simpl; [reflexivity|].
  destruct (Message t); [exact IH|].
  destruct (Task_Writer t); [|exact IH]. simpl. now rewrite IH.
Qed.

Lemma closes_of_In (r : WriterRef) (tasks : list Task) :
  In r (closes_of tasks) <->
  exists t, In t tasks /\ Message t = None /\ Task_Writer t = Some r.
Proof.
  induction tasks as [|t tasks IH]; simpl.
  - split; [tauto|]. intros (t & [] & _).
  - destruct (Message t) as [m|] eqn:Hm.
    + rewrite IH. split.
      * intros (t' & Hin & H). eauto.
      * intros (t' & [<-|Hin] & Hm' & Hw); [congruence|eauto].
    + destruct (Task_Writer t) as [r'|] eqn:Hw.
      * simpl. rewrite IH. split.
        -- intros [<-|(t' & Hin & H)]; [exists t; auto|eauto].
        -- intros (t' & [<-|Hin] & Hm' & Hw'); [left; congruence|right; eauto].
      * rewrite IH. split.
        -- intros (t' & Hin & H). eauto.
        -- intros (t' & [<-|Hin] & Hm' & Hw'); [congruence|eauto].
Qed.

Lemma ordered_nil : ordered [].
Proof.
  intros pre t post r H. destruct pre; discriminate.
Qed.

Lemma ordered_snoc (tasks : list Task) (t : Task) :
  ordered tasks ->
  (forall r, Task_Writer t = Some r -> ~ In r (closes_of tasks)) ->
  ordered (tasks ++ [t]).
Proof.
  intros Ho Ht pre t' post r Heq Hw.
  destruct post as [|x post _] using rev_ind.
  - apply app_inj_tail in Heq. destruct Heq as [<- <-]. now apply Ht.
  - change (pre ++ t' :: post ++ [x]) with (pre ++ (t' :: post) ++ [x]) in Heq.
    rewrite app_assoc in Heq. apply app_inj_tail in Heq. destruct Heq as [Heq _].
    eapply Ho; eauto.
Qed.

Lemma ordered_prefix (a b : list Task) : ordered (a ++ b) -> ordered a.
Proof.
  intros Ho pre t post r Heq Hw. apply (Ho pre t (post ++ b) r); [|exact Hw].
  rewrite Heq, <- app_assoc. reflexivity.
Qed.

Lemma NoDup_snoc {A : Type} (l : list A) (x : A) :
  List.NoDup l -> ~ In x l -> List.NoDup (l ++ [x]).
Proof.
  induction l as [|y l IH]; simpl; intros Hnd Hx.
  - constructor; [tauto|constructor].
  - inversion Hnd as [|? ? Hy Hl]; subst. constructor.
    + rewrite in_app_iff. simpl. intros [H|[H|[]]]; [tauto|]. apply Hx. now left.
    + apply IH; [exact Hl|tauto].
Qed.

(** No writer is closed twice by an ordered sequence. *)
Lemma ordered_NoDup (tasks : list Task) :
  ordered tasks -> List.NoDup (closes_of tasks).
Proof.
  induction tasks as [|t tasks IH] using rev_ind; intros Ho.
  - constructor.
  - rewrite closes_of_app. pose proof (ordered_prefix _ _ Ho) as Hp.
    simpl. destruct (Message t) eqn:Hm; [rewrite app_nil_r; auto|].
    destruct (Task_Writer t) as [r|] eqn:Hw; [|rewrite app_nil_r; auto].
    apply NoDup_snoc; [auto|]. apply (Ho tasks t [] r); auto.
Qed.

(** *** Sending *)

Lemma forallb_set_nth {A : Type} (f : A -> bool) (l : list A) (i : nat) (x : A) :
  forallb f l = true -> f x = true -> forallb f (Mem.set_nth l i x) = true.
Proof.
  revert i. induction l as [|y l IH]; intros [|i] Hl Hx; simpl in *; auto.
  - apply andb_prop in Hl. destruct Hl as [_ Hl]. now rewrite Hx.
  - apply andb_prop in Hl. destruct Hl as [Hy Hl]. rewrite Hy. simpl. now apply IH.
Qed.

Lemma send_spec (q : nat) (t : Task) (svr svr' : Saver) :
  send q t svr = Some svr' ->
  (forall i, chan_tasks svr' i
             = if i =? q then chan_tasks svr q ++ [t] else chan_tasks svr i) /\
  Connections svr' = Connections svr /\
  length (MarshalChans svr') = length (MarshalChans svr) /\
  (all_open svr -> all_open svr') /\
  q < length (MarshalChans svr) /\
  Host svr' = Host svr /\ Pod svr' = Pod svr /\ FileAgeLimit svr' = FileAgeLimit svr.
Proof.
  unfold send. destruct (nth_error (MarshalChans svr) q) as [c|] eqn:Hc; [|discriminate].
  destruct (ch_closed c) eqn:Hcl; [discriminate|]. intros [= <-].
  assert (Hq : q < length (MarshalChans svr)) by (apply nth_error_Some; congruence).
  split; [|split; [reflexivity|split; [apply length_set_nth|split; [|auto]]]].
  - intros i. unfold chan_tasks. simpl.
    rewrite nth_error_set_nth by exact Hq.
    destruct (Nat.eqb_spec i q) as [->|_]; [|reflexivity]. now rewrite Hc.
  - unfold all_open. simpl. intros Ho. now apply forallb_set_nth.
Qed.

Lemma chan_index_length (svr svr' : Saver) (cookie : Z) :
  length (MarshalChans svr') = length (MarshalChans svr) ->
  chan_index svr' cookie = chan_index svr cookie.
Proof. unfold chan_index. now intros ->. Qed.

(** *** The three steps that change the channels or the map *)

Lemma tasks_after_send (svr svr' : Saver) (q : nat) (t : Task) :
  (forall i, chan_tasks svr' i
             = if i =? q then chan_tasks svr q ++ [t] else chan_tasks svr i) ->
  forall i x, In x (chan_tasks svr' i) ->
              In x (chan_tasks svr i) \/ (i = q /\ x = t).
Proof.
  intros H i x. rewrite H. destruct (Nat.eqb_spec i q) as [->|_]; [|auto].
  rewrite in_app_iff. simpl. intuition.
Qed.

Lemma tasks_before_send (svr svr' : Saver) (q : nat) (t : Task) :
  (forall i, chan_tasks svr' i
             = if i =? q then chan_tasks svr q ++ [t] else chan_tasks svr i) ->
  forall i x, In x (chan_tasks svr i) -> In x (chan_tasks svr' i).
Proof.
  intros H i x Hx. rewrite H. destruct (Nat.eqb_spec i q) as [->|_]; [|auto].
  rewrite in_app_iff. now left.
Qed.

(** A record task for the writer of a connection, sent on the channel of
    its cookie. *)
Lemma inv_write n0 (svr svr' : Saver) w cookie conn r msg :
  chans_inv n0 svr w ->
  Connections svr !! cookie = Some conn -> Writer conn = Some r ->
  (forall i, chan_tasks svr' i
             = if i =? chan_index svr cookie
               then chan_tasks svr (chan_index svr cookie) ++ [mkTask (Some msg) (Some r)]
               else chan_tasks svr i) ->
  Connections svr' = Connections svr ->
  length (MarshalChans svr') = length (MarshalChans svr) ->
  chans_inv n0 svr' w.
Proof.
  intros (Hv & Hd & Ht & Hc & Ho & Hown & Hone & Hacc) Hl Hw Htasks Hconns Hlen.
  pose proof (tasks_after_send _ _ _ _ Htasks) as Hafter.
  assert (Hcl : forall i, closes_of (chan_tasks svr' i) = closes_of (chan_tasks svr i)).
  { intros i. rewrite Htasks. destruct (i =? chan_index svr cookie) eqn:Hi; [|reflexivity].
    apply Nat.eqb_eq in Hi. subst i. rewrite closes_of_app. simpl. apply app_nil_r. }
  unfold chans_inv, writers_valid, writers_distinct, tasks_valid, closed_dead,
    owner, one_chan, accounted.
  rewrite Hconns. repeat apply conj.
  - exact Hv.
  - exact Hd.
  - intros i t Hin. destruct (Hafter i t Hin) as [Hold|[_ ->]]; [eauto|].
    exists r. split; [reflexivity|eauto].
  - intros i r' c conn'. rewrite Hcl. apply Hc.
  - intros i. rewrite Htasks. destruct (Nat.eqb_spec i (chan_index svr cookie)) as [->|_]; [|apply Ho].
    apply ordered_snoc; [apply Ho|]. simpl. intros r' [= <-] Hin.
    exact (Hc _ _ _ _ Hin Hl Hw).
  - intros c conn' r' i t Hl' Hw' Hin Ht'.
    rewrite (chan_index_length svr svr' c Hlen).
    destruct (Hafter i t Hin) as [Hold|[-> ->]]; [eauto|].
    simpl in Ht'. injection Ht' as <-.
    now rewrite (Hd _ _ _ _ _ Hl' Hl Hw' Hw).
  - intros i j t1 t2 r' H1 H2 Hw1 Hw2.
    destruct (Hafter i t1 H1) as [Ho1|[-> ->]]; destruct (Hafter j t2 H2) as [Ho2|[-> ->]].
    + eauto.
    + simpl in Hw2. injection Hw2 as <-. eauto.
    + simpl in Hw1. injection Hw1 as <-. symmetry. eauto.
    + reflexivity.
  - intros r' Hr. destruct (Hacc r' Hr) as [Hlive|[i Hi]]; [now left|].
    right. exists i. now rewrite Hcl.
Qed.

(** A close task for the writer of a connection, sent on the channel of its
    cookie, with the connection then losing its writer or leaving the
    map. *)
Lemma inv_close n0 (svr svr' : Saver) w cookie conn r :
  chans_inv n0 svr w ->
  Connections svr !! cookie = Some conn -> Writer conn = Some r ->
  (forall i, chan_tasks svr' i
             = if i =? chan_index svr cookie
               then chan_tasks svr (chan_index svr cookie) ++ [mkTask None (Some r)]
               else chan_tasks svr i) ->
  length (MarshalChans svr') = length (MarshalChans svr) ->
  (forall c, c <> cookie -> Connections svr' !! c = Connections svr !! c) ->
  (forall conn', Connections svr' !! cookie = Some conn' -> Writer conn' = None) ->
  chans_inv n0 svr' w.
Proof.
  intros (Hv & Hd & Ht & Hc & Ho & Hown & Hone & Hacc) Hl Hw Htasks Hlen Hother Hself.
  pose proof (tasks_after_send _ _ _ _ Htasks) as Hafter.
  pose proof (tasks_before_send _ _ _ _ Htasks) as Hbefore.
  assert (Hlive : forall c conn' r', Connections svr' !! c = Some conn' ->
                    Writer conn' = Some r' ->
                    c <> cookie /\ Connections svr !! c = Some conn').
  { intros c conn' r' Hl' Hw'. destruct (decide (c = cookie)) as [->|Hne].
    - rewrite (Hself _ Hl') in Hw'. discriminate.
    - split; [exact Hne|]. now rewrite <- Hother. }
  assert (Hcl : forall i r', In r' (closes_of (chan_tasks svr' i)) ->
                  In r' (closes_of (chan_tasks svr i)) \/ r' = r).
  { intros i r'. rewrite Htasks.
    destruct (i =? chan_index svr cookie) eqn:Hi; [|auto].
    apply Nat.eqb_eq in Hi. subst i. rewrite closes_of_app, in_app_iff. simpl.
    intuition. }
  repeat apply conj.
  - intros c conn' r' Hl' Hw'. destruct (Hlive _ _ _ Hl' Hw') as [_ H]. eauto.
  - intros c1 c2 conn1 conn2 r' H1 H2 Hw1 Hw2.
    destruct (Hlive _ _ _ H1 Hw1) as [_ H1']. destruct (Hlive _ _ _ H2 Hw2) as [_ H2'].
    eauto.
  - intros i t Hin. destruct (Hafter i t Hin) as [Hold|[_ ->]]; [eauto|].
    exists r. split; [reflexivity|eauto].
  - intros i r' c conn' Hin Hl' Hw'.
    destruct (Hlive _ _ _ Hl' Hw') as [Hne Hl0].
    destruct (Hcl _ _ Hin) as [Hold| ->].
    + exact (Hc _ _ _ _ Hold Hl0 Hw').
    + apply Hne. exact (Hd _ _ _ _ _ Hl0 Hl Hw' Hw).
  - intros i. rewrite Htasks. destruct (Nat.eqb_spec i (chan_index svr cookie)) as [->|_]; [|apply Ho].
    apply ordered_snoc; [apply Ho|]. simpl. intros r' [= <-] Hin.
    exact (Hc _ _ _ _ Hin Hl Hw).
  - intros c conn' r' i t Hl' Hw' Hin Ht'.
    rewrite (chan_index_length svr svr' c Hlen).
    destruct (Hlive _ _ _ Hl' Hw') as [Hne Hl0].
    destruct (Hafter i t Hin) as [Hold|[-> ->]]; [eauto|].
    simpl in Ht'. injection Ht' as <-.
    exfalso. apply Hne. exact (Hd _ _ _ _ _ Hl0 Hl Hw' Hw).
  - intros i j t1 t2 r' H1 H2 Hw1 Hw2.
    destruct (Hafter i t1 H1) as [Ho1|[-> ->]]; destruct (Hafter j t2 H2) as [Ho2|[-> ->]].
    + eauto.
    + simpl in Hw2. injection Hw2 as <-. eauto.
    + simpl in Hw1. injection Hw1 as <-. symmetry. eauto.
    + reflexivity.
  - intros r' Hr. destruct (Hacc r' Hr) as [(c & conn0 & Hl0 & Hw0)|[i Hi]].
    + destruct (decide (c = cookie)) as [->|Hne].
      * right. exists (chan_index svr cookie). rewrite Htasks, Nat.eqb_refl.
        rewrite closes_of_app, in_app_iff. right. simpl.
        left. congruence.
      * left. exists c, conn0. split; [|exact Hw0]. now rewrite Hother.
    + right. exists i. apply closes_of_In in Hi. destruct Hi as (t & Hin & Hm & Ht').
      apply closes_of_In. exists t. auto.
Qed.

(** A change of the entry of one cookie that had no writer: it gets none,
    or one of the sinks opened since. *)
Lemma inv_conns n0 (svr svr' : Saver) w w' cookie :
  chans_inv n0 svr w ->
  (forall i, chan_tasks svr' i = chan_tasks svr i) ->
  length (MarshalChans svr') = length (MarshalChans svr) ->
  length (sinks w) <= length (sinks w') ->
  (forall c, c <> cookie -> Connections svr' !! c = Connections svr !! c) ->
  (forall conn0, Connections svr !! cookie = Some conn0 -> Writer conn0 = None) ->
  (forall conn' r', Connections svr' !! cookie = Some conn' -> Writer conn' = Some r' ->
     length (sinks w) <= r' < length (sinks w')) ->
  (forall r', length (sinks w) <= r' < length (sinks w') ->
     exists conn', Connections svr' !! cookie = Some conn' /\ Writer conn' = Some r') ->
  chans_inv n0 svr' w'.
Proof.
  intros (Hv & Hd & Ht & Hc & Ho & Hown & Hone & Hacc) Htasks Hlen Hgrow Hother Hnone
    Hfresh Hnew.
  assert (Hlive : forall c conn' r', Connections svr' !! c = Some conn' ->
                    Writer conn' = Some r' ->
                    (c <> cookie /\ Connections svr !! c = Some conn') \/
                    (c = cookie /\ length (sinks w) <= r' < length (sinks w'))).
  { intros c conn' r' Hl' Hw'. destruct (decide (c = cookie)) as [->|Hne].
    - right. split; [reflexivity|eauto].
    - left. split; [exact Hne|]. now rewrite <- Hother. }
  assert (Htv : forall i t r', In t (chan_tasks svr i) -> Task_Writer t = Some r' ->
                  r' < length (sinks w)).
  { intros i t r' Hin Hw'. destruct (Ht i t Hin) as (r0 & Hr0 & Hlt). congruence. }
  repeat apply conj.
  - intros c conn' r' Hl' Hw'.
    destruct (Hlive _ _ _ Hl' Hw') as [[_ H]|[_ H]]; [|lia].
    pose proof (Hv _ _ _ H Hw'). lia.
  - intros c1 c2 conn1 conn2 r' H1 H2 Hw1 Hw2.
    destruct (Hlive _ _ _ H1 Hw1) as [[_ H1']|[-> Hr1]];
      destruct (Hlive _ _ _ H2 Hw2) as [[_ H2']|[-> Hr2]].
    + eauto.
    + pose proof (Hv _ _ _ H1' Hw1). lia.
    + pose proof (Hv _ _ _ H2' Hw2). lia.
    + reflexivity.
  - intros i t. rewrite Htasks. intros Hin. destruct (Ht i t Hin) as (r0 & Hr0 & Hlt).
    exists r0. split; [exact Hr0|lia].
  - intros i r' c conn'. rewrite Htasks. intros Hin Hl' Hw'.
    destruct (Hlive _ _ _ Hl' Hw') as [[_ H]|[_ H]].
    + exact (Hc _ _ _ _ Hin H Hw').
    + apply closes_of_In in Hin. destruct Hin as (t & Hin & _ & Ht').
      pose proof (Htv _ _ _ Hin Ht'). lia.
  - intros i. rewrite Htasks. apply Ho.
  - intros c conn' r' i t Hl' Hw'. rewrite Htasks. intros Hin Ht'.
    rewrite (chan_index_length svr svr' c Hlen).
    destruct (Hlive _ _ _ Hl' Hw') as [[_ H]|[_ H]]; [eauto|].
    pose proof (Htv _ _ _ Hin Ht'). lia.
  - intros i j t1 t2 r'. rewrite !Htasks. apply Hone.
  - intros r' Hr. destruct (Nat.lt_ge_cases r' (length (sinks w))) as [Hlt|Hge].
    + destruct (Hacc r' ltac:(lia)) as [(c & conn0 & Hl0 & Hw0)|[i Hi]].
      * left. exists c, conn0. split; [|exact Hw0].
        destruct (decide (c = cookie)) as [->|Hne]; [|now rewrite Hother].
        rewrite (Hnone _ Hl0) in Hw0. discriminate.
      * right. exists i. now rewrite Htasks.
    + left. destruct (Hnew r' ltac:(lia)) as (conn' & Hl' & Hw'). eauto.
Qed.

(** A new saver, in any world. *)
Lemma NewSaver_inv host pod n svr w :
  NewSaver host pod n = Some svr -> saver_inv (length (sinks w)) svr w.
Proof.
  unfold NewSaver. destruct (n <? 0)%Z; [discriminate|]. intros [= <-].
  assert (Hopen : forall k, forallb (fun c => negb (ch_closed c))
                              (repeat (mkChan [] false) k) = true).
  { intros k. induction k as [|k IH]; [reflexivity|exact IH]. }
  assert (Hnil : forall i, chan_tasks
                   (mkSaver host pod (10 * Minute)
                      (repeat (mkChan [] false) (Z.to_nat n)) ∅ NewCache
                      (mkStats 0 0 0 0)) i = []).
  { intros i. unfold chan_tasks. simpl.
    destruct (nth_error _ i) as [c|] eqn:Hc; [|reflexivity].
    apply nth_error_In, repeat_spec in Hc. now subst c. }
  split.
  - apply Hopen.
  - repeat apply conj.
    + intros c conn r H. simpl in H. rewrite lookup_empty in H. discriminate.
    + intros c1 c2 conn1 conn2 r H. simpl in H. rewrite lookup_empty in H. discriminate.
    + intros i t. rewrite Hnil. intros [].
    + intros i r c conn. rewrite Hnil. intros [].
    + intros i. rewrite Hnil. apply ordered_nil.
    + intros c conn r i t H. simpl in H. rewrite lookup_empty in H. discriminate.
    + intros i j t1 t2 r. rewrite Hnil. intros [].
    + intros r Hr. lia.
Qed.

(** *** The world *)

Lemma opens_files_refl (w w' : World) :
  sinks w' = sinks w -> NewFileCount (metrics w') = NewFileCount (metrics w) ->
  opens_files w w'.
Proof.
  intros Hs Hn. exists []. rewrite app_nil_r. simpl.
  repeat split; [exact Hs|intros s []|lia].
Qed.

Lemma opens_files_trans (w1 w2 w3 : World) :
  opens_files w1 w2 -> opens_files w2 w3 -> opens_files w1 w3.
Proof.
  intros (n1 & Hs1 & Hh1 & Hc1) (n2 & Hs2 & Hh2 & Hc2).
  exists (n1 ++ n2). repeat split.
  - now rewrite Hs2, Hs1, app_assoc.
  - intros s Hin. apply in_app_iff in Hin. destruct Hin; auto.
  - rewrite length_app. lia.
Qed.

Lemma opens_files_length (w w' : World) :
  opens_files w w' -> length (sinks w) <= length (sinks w').
Proof.
  intros (new & Hs & _). rewrite Hs, length_app. lia.
Qed.

(** What [Rotate] does to the world and to the writer of the connection. *)
Lemma Rotate_world conn host pod age w conn' w' err :
  Rotate conn host pod age w = Some (conn', w', err) ->
  match err with
  | None =>
      Writer conn' = Some (length (sinks w)) /\
      (exists s, sinks w' = sinks w ++ [s] /\ header_only s) /\
      (NewFileCount (metrics w') = NewFileCount (metrics w) + 1)%Z
  | Some _ =>
      (Writer conn = None -> Writer conn' = None) /\
      sinks w' = sinks w /\ metrics w' = metrics w
  end.
Proof.
  unfold Rotate.
  destruct (MkdirAll w _) as [e|]; [intros [= <- <- <-]; auto|].
  destruct (NewWriter _ _) as [e|]; [intros [= <- <- <-]; auto|].
  unfold writeHeader. simpl. intros [= <- <- <-]. simpl.
  split; [reflexivity|]. split; [|reflexivity].
  eexists. split.
  - unfold sink_Write. simpl.
    rewrite !nth_error_app2 by lia. rewrite Nat.sub_diag. simpl.
    rewrite !set_nth_app_last. simpl.
    rewrite nth_error_app2 by lia. rewrite Nat.sub_diag. simpl.
    rewrite set_nth_app_last. reflexivity.
  - eexists. reflexivity.
Qed.

(** *** [queue] *)

(** The end of [queue] for a connection without a writer: [Rotate], and the
    record on the channel when a file could be opened. *)
Lemma rotate_tail_inv n0 msg cookie conn (svr : Saver) w res svr' w' :
  saver_inv n0 svr w -> Connections svr !! cookie = Some conn -> Writer conn = None ->
  match Rotate conn (Host svr) (Pod svr) (FileAgeLimit svr) w with
  | None => None
  | Some (conn2, w2, err) =>
      let svr2 := set_conn cookie conn2 svr in
      match err with
      | Some e => Some (Some e, svr2, w2)
      | None =>
          match send (chan_index svr cookie) (mkTask (Some msg) (Writer conn2)) svr2 with
          | Some svr3 => Some (None, svr3, w2)
          | None => None
          end
      end
  end = Some (res, svr', w') ->
  saver_inv n0 svr' w' /\ opens_files w w'.
Proof.
  intros [Hopen Hinv] Hl Hw.
  destruct (Rotate _ _ _ _ _) as [[[conn2 w2] err]|] eqn:HR; [|discriminate].
  apply Rotate_world in HR. cbv zeta.
  assert (Hother : forall c, c <> cookie ->
            Connections (set_conn cookie conn2 svr) !! c = Connections svr !! c).
  { intros c Hne. simpl. now apply lookup_insert_ne. }
  assert (Hnone : forall conn0, Connections svr !! cookie = Some conn0 ->
                    Writer conn0 = None) by (intros conn0 H0; congruence).
  destruct err as [e|].
  - destruct HR as (Hw2 & Hs2 & Hm2). intros [= <- <- <-].
    split; [split; [exact Hopen|]|apply opens_files_refl; [exact Hs2|now rewrite Hm2]].
    apply (inv_conns n0 svr _ w w2 cookie Hinv); auto.
    + rewrite Hs2. lia.
    + intros conn' r'. simpl. rewrite lookup_insert_eq. intros [= <-].
      rewrite (Hw2 Hw). discriminate.
    + intros r'. rewrite Hs2. lia.
  - destruct HR as (Hw2 & (s & Hs2 & Hh) & Hm2).
    assert (Hinv2 : chans_inv n0 (set_conn cookie conn2 svr) w2).
    { apply (inv_conns n0 svr _ w w2 cookie Hinv); auto.
      - rewrite Hs2, length_app. simpl. lia.
      - intros conn' r'. simpl. rewrite lookup_insert_eq. intros [= <-].
        rewrite Hw2. intros [= <-]. rewrite Hs2, length_app. simpl. lia.
      - intros r'. rewrite Hs2, length_app. simpl. intros Hr.
        exists conn2. simpl. rewrite lookup_insert_eq. split; [reflexivity|].
        rewrite Hw2. f_equal. lia. }
    rewrite Hw2.
    destruct (send _ _ _) as [svr3|] eqn:Hs3; [|discriminate].
    apply send_spec in Hs3. destruct Hs3 as (Ht3 & Hc3 & Hl3 & Ho3 & _).
    intros [= <- <- <-]. split.
    + split; [apply Ho3; exact Hopen|].
      apply (inv_write n0 (set_conn cookie conn2 svr) svr3 w2 cookie conn2
               (length (sinks w)) msg Hinv2); auto.
      simpl. apply lookup_insert_eq.
    + exists [s]. repeat split; [exact Hs2| |simpl; lia].
      intros s' [<-|[]]. exact Hh.
Qed.

Lemma queue_write_inv n0 msg cookie conn (svr : Saver) w res svr' w' :
  saver_inv n0 svr w -> Connections svr !! cookie = Some conn ->
  queue_write msg cookie (chan_index svr cookie) conn svr w = Some (res, svr', w') ->
  saver_inv n0 svr' w' /\ opens_files w w'.
Proof.
  intros [Hopen Hinv] Hl. unfold queue_write.
  destruct (After _ _ && _) eqn:Hexp.
  - apply andb_prop in Hexp. destruct Hexp as [_ Hwr].
    apply bool_decide_eq_true_1 in Hwr.
    destruct (Writer conn) as [r|] eqn:Hw; [|congruence].
    destruct (send _ _ svr) as [svr1|] eqn:Hs1; [|discriminate].
    apply send_spec in Hs1. destruct Hs1 as (Ht1 & Hc1 & Hl1 & Ho1 & _ & Hh1 & Hp1 & Ha1).
    set (conn1 := set_Writer conn None).
    assert (HinvA : saver_inv n0 (set_conn cookie conn1 svr1) (tick w)).
    { split; [apply Ho1; exact Hopen|].
      apply (inv_close n0 svr _ w cookie conn r Hinv Hl Hw); auto.
      - intros c Hne. simpl. rewrite lookup_insert_ne by auto. now rewrite Hc1.
      - intros conn'. simpl. rewrite lookup_insert_eq. now intros [= <-]. }
    cbv beta iota. change (Writer conn1) with (@None WriterRef). cbv beta iota.
    intros H.
    apply (rotate_tail_inv n0 msg cookie conn1 (set_conn cookie conn1 svr1) (tick w)
             res svr' w' HinvA).
    + simpl. apply lookup_insert_eq.
    + reflexivity.
    + rewrite (chan_index_length svr (set_conn cookie conn1 svr1) cookie Hl1).
      exact H.
  - destruct (Writer conn) as [r|] eqn:Hw.
    + destruct (send _ _ svr) as [svr3|] eqn:Hs3; [|discriminate].
      apply send_spec in Hs3. destruct Hs3 as (Ht3 & Hc3 & Hl3 & Ho3 & _).
      intros [= <- <- <-]. split; [|now apply opens_files_refl].
      split; [apply Ho3; exact Hopen|].
      apply (inv_write n0 svr svr3 w cookie conn r msg Hinv); auto.
    + intros H.
      apply (rotate_tail_inv n0 msg cookie conn svr (tick w) res svr' w'); auto.
      split; [exact Hopen|exact Hinv].
Qed.

Lemma queue_inv n0 msg (svr : Saver) w res svr' w' :
  saver_inv n0 svr w -> queue msg svr w = Some (res, svr', w') ->
  saver_inv n0 svr' w' /\ opens_files w w'.
Proof.
  intros Hinv. unfold queue. destruct (Parse _) as [[idm|] perr]; [|discriminate].
  destruct (_ =? 0)%Z; [intros [= <- <- <-]; split; [exact Hinv|now apply opens_files_refl]|].
  destruct (_ <? 1); [intros [= <- <- <-]; split; [exact Hinv|now apply opens_files_refl]|].
  fold (chan_index svr (Cookie (InetDiag.ID idm))).
  destruct (Connections svr !! _) as [conn|] eqn:Hl.
  - now apply queue_write_inv.
  - destruct (FIN_WAIT1 <=? _)%Z;
      [intros [= <- <- <-]; split; [exact Hinv|now apply opens_files_refl]|].
    unfold newConnection.
    set (conn := mkConnection _ _ _ _ _ _ _ _).
    intros H.
    apply (queue_write_inv n0 msg (Cookie (InetDiag.ID idm)) conn
             (set_conn (Cookie (InetDiag.ID idm)) conn svr) (tick w) res svr' w');
      [| simpl; apply lookup_insert_eq | exact H].
    destruct Hinv as [Hopen Hinv]. split; [exact Hopen|].
    apply (inv_conns n0 svr _ w (tick w) (Cookie (InetDiag.ID idm)) Hinv); auto.
    + intros c Hne. simpl. now apply lookup_insert_ne.
    + intros conn0 H0. congruence.
    + intros conn' r'. simpl. rewrite lookup_insert_eq. intros [= <-]. discriminate.
    + intros r'. simpl. lia.
Qed.

(** *** [endConn] *)

Lemma endConn_inv n0 cookie (svr svr' : Saver) w :
  saver_inv n0 svr w -> endConn cookie svr = Some svr' -> saver_inv n0 svr' w.
Proof.
  intros [Hopen Hinv]. unfold endConn.
  destruct (_ =? 0); [discriminate|]. fold (chan_index svr cookie).
  destruct (Connections svr !! cookie) as [conn|] eqn:Hl;
    [|intros [= <-]; split; assumption].
  destruct (Writer conn) as [r|] eqn:Hw; [|intros [= <-]; split; assumption].
  destruct (send _ _ svr) as [svr1|] eqn:Hs1; [|discriminate].
  apply send_spec in Hs1. destruct Hs1 as (Ht1 & Hc1 & Hl1 & Ho1 & _).
  intros [= <-]. split; [apply Ho1; exact Hopen|].
  apply (inv_close n0 svr _ w cookie conn r Hinv Hl Hw); auto.
  - intros c Hne. simpl. rewrite lookup_delete_ne by auto. now rewrite Hc1.
  - intros conn'. simpl. rewrite lookup_delete_eq. discriminate.
Qed.

(** *** The loop *)

Lemma swapAndQueue_inv n0 pm (svr : Saver) w svr' w' :
  saver_inv n0 svr w -> swapAndQueue pm svr w = Some (svr', w') ->
  saver_inv n0 svr' w' /\ opens_files w w'.
Proof.
  intros Hinv. unfold swapAndQueue. simpl.
  assert (Hsame : saver_inv n0 svr w /\ opens_files w w)
    by (split; [exact Hinv|now apply opens_files_refl]).
  destruct (cache_Update _ pm) as [c [old err]].
  destruct err as [e|]; [intros [= <- <-]; exact Hsame|].
  destruct old as [old|].
  - destruct (Parse (Netlink.RawIDM old)) as [oldIDM err1].
    destruct err1 as [e|]; [intros [= <- <-]; exact Hsame|].
    destruct (Parse (Netlink.RawIDM pm)) as [pmIDM err2].
    destruct err2 as [e|]; [intros [= <- <-]; exact Hsame|].
    destruct oldIDM as [o|]; [|discriminate].
    destruct pmIDM as [p|]; [|discriminate].
    destruct (ar_Compare pm old) as [change err3].
    destruct err3 as [e|]; [intros [= <- <-]; exact Hsame|].
    destruct (change >? NoMajorChange)%Z; [|intros [= <- <-]; exact Hsame].
    destruct (queue pm _ _) as [[[r svr1] w1]|] eqn:Hq; [|discriminate].
    intros [= <- <-]. apply queue_inv with (n0 := n0) in Hq; [|exact Hinv].
    exact Hq.
  - destruct (queue pm _ _) as [[[r svr1] w1]|] eqn:Hq; [|discriminate].
    intros [= <- <-]. apply queue_inv with (n0 := n0) in Hq; [|exact Hinv].
    exact Hq.
Qed.

Lemma handleType_from_inv n0 msgs : forall ls lr t (svr : Saver) w ls' lr' svr' w',
  saver_inv n0 svr w ->
  handleType_from ls lr t msgs svr w = Some (ls', lr', svr', w') ->
  saver_inv n0 svr' w' /\ opens_files w w'.
Proof.
  induction msgs as [|[msg|] msgs IH]; intros ls lr t svr w ls' lr' svr' w' Hinv; simpl.
  - intros [= <- <- <- <-]. split; [exact Hinv|now apply opens_files_refl].
  - destruct (fst (MakeArchivalRecord msg true)) as [ar|]; [|now apply IH].
    destruct (GetStats _) as [s r].
    destruct (swapAndQueue _ svr w) as [[svr1 w1]|] eqn:Hs; [|discriminate].
    apply swapAndQueue_inv with (n0 := n0) in Hs; [|exact Hinv].
    destruct Hs as [Hinv1 Hw1]. intros H. apply IH in H; [|exact Hinv1].
    destruct H as [Hinv' Hw']. split; [exact Hinv'|]. eapply opens_files_trans; eauto.
  - now apply IH.
Qed.

Lemma end_residual_inv n0 residual : forall rs rr (svr : Saver) w rs' rr' svr',
  saver_inv n0 svr w ->
  end_residual residual rs rr svr = Some (rs', rr', svr') ->
  saver_inv n0 svr' w.
Proof.
  induction residual as [|[cookie ar] residual IH]; intros rs rr svr w rs' rr' svr' Hinv;
    simpl.
  - now intros [= <- <- <-].
  - destruct (GetStats ar) as [s r].
    destruct (endConn cookie svr) as [svr1|] eqn:He; [|discriminate].
    apply endConn_inv with (n0 := n0) (w := w) in He; [|exact Hinv].
    intros H. eapply IH; [|exact H]. exact He.
Qed.

Lemma report_one_files l1 l2 observe t r (m : Metrics) :
  (forall v m0, NewFileCount (observe v m0) = NewFileCount m0) ->
  NewFileCount (snd (report_one l1 l2 observe t r m)) = NewFileCount m.
Proof.
  intros Hobs. unfold report_one.
  destruct (_ || _); [destruct (_ <? _)%Z; reflexivity|]. simpl. apply Hobs.
Qed.

Lemma report_files v4 sent received loc (m : Metrics) :
  NewFileCount (snd (report v4 sent received loc m)) = NewFileCount m.
Proof.
  unfold report. destruct (_ >? _)%Z; [|reflexivity].
  destruct (report_one _ _ SendRate_Observe _ _ m) as [rs m1] eqn:H1.
  destruct (report_one _ _ ReceiveRate_Observe _ _ m1) as [rr m2] eqn:H2.
  simpl. apply (f_equal snd) in H1, H2. simpl in H1, H2. subst m1 m2.
  rewrite !report_one_files; reflexivity.
Qed.

Lemma loop_body_inv n0 loc msgs (svr : Saver) w loc' svr' w' :
  saver_inv n0 svr w -> loop_body loc msgs svr w = Some (loc', svr', w') ->
  saver_inv n0 svr' w' /\ opens_files w w'.
Proof.
  intros Hinv. unfold loop_body, handleType.
  destruct (handleType_from 0 0 _ (V4Messages msgs) svr w) as [[[[s4 r4] svr1] w1]|] eqn:H4;
    [|discriminate].
  apply handleType_from_inv with (n0 := n0) in H4; [|exact Hinv].
  destruct H4 as [Hinv1 Hw1].
  destruct (handleType_from 0 0 _ (V6Messages msgs) svr1 w1) as [[[[s6 r6] svr2] w2]|] eqn:H6;
    [|discriminate].
  apply handleType_from_inv with (n0 := n0) in H6; [|exact Hinv1].
  destruct H6 as [Hinv2 Hw2].
  destruct (cache_EndCycle _) as [c residual].
  destruct (end_residual _ _ _ _) as [[[rs rr] svr3]|] eqn:Hr; [|discriminate].
  apply end_residual_inv with (n0 := n0) (w := w2) in Hr; [|exact Hinv2].
  destruct (report _ _ _ _ _) as [loc2 m] eqn:Hrep.
  intros [= <- <- <-]. split; [exact Hr|].
  eapply opens_files_trans; [exact Hw1|]. eapply opens_files_trans; [exact Hw2|].
  apply opens_files_refl; [reflexivity|]. simpl.
  apply (f_equal snd) in Hrep. simpl in Hrep. subst m. apply report_files.
Qed.

Lemma loop_inv n0 blocks : forall loc (svr : Saver) w loc' svr' w',
  saver_inv n0 svr w -> loop loc blocks svr w = Some (loc', svr', w') ->
  saver_inv n0 svr' w' /\ opens_files w w'.
Proof.
  induction blocks as [|msgs blocks IH]; intros loc svr w loc' svr' w' Hinv; simpl.
  - intros [= <- <- <-]. split; [exact Hinv|now apply opens_files_refl].
  - destruct (loop_body loc msgs svr w) as [[[loc1 svr1] w1]|] eqn:Hb; [|discriminate].
    apply loop_body_inv with (n0 := n0) in Hb; [|exact Hinv].
    destruct Hb as [Hinv1 Hw1]. intros H. apply IH in H; [|exact Hinv1].
    destruct H as [Hinv' Hw']. split; [exact Hinv'|]. eapply opens_files_trans; eauto.
Qed.

(** *** The number of channels is fixed *)

Lemma send_length q t (svr svr' : Saver) :
  send q t svr = Some svr' ->
  length (MarshalChans svr') = length (MarshalChans svr).
Proof. intros H. apply send_spec in H. tauto. Qed.

Lemma queue_write_length msg cookie q conn (svr : Saver) w res svr' w' :
  queue_write msg cookie q conn svr w = Some (res, svr', w') ->
  length (MarshalChans svr') = length (MarshalChans svr).
Proof.
  unfold queue_write.
  destruct (After _ _ && _).
  - destruct (send q _ svr) as [svr1|] eqn:Hs1; [|discriminate].
    apply send_length in Hs1. simpl.
    destruct (Rotate _ _ _ _ _) as [[[conn2 w2] err]|]; [|discriminate].
    destruct err as [e|]; [now intros [= <- <- <-]|].
    destruct (send q _ _) as [svr3|] eqn:Hs3; [|discriminate].
    apply send_length in Hs3. intros [= <- <- <-]. simpl in Hs3. congruence.
  - destruct (Writer conn) as [wr|].
    + destruct (send q _ svr) as [svr3|] eqn:Hs3; [|discriminate].
      apply send_length in Hs3. now intros [= <- <- <-].
    + destruct (Rotate _ _ _ _ _) as [[[conn2 w2] err]|]; [|discriminate].
      destruct err as [e|]; [now intros [= <- <- <-]|].
      destruct (send q _ _) as [svr3|] eqn:Hs3; [|discriminate].
      apply send_length in Hs3. intros [= <- <- <-]. exact Hs3.
Qed.

Lemma queue_length msg (svr : Saver) w res svr' w' :
  queue msg svr w = Some (res, svr', w') ->
  length (MarshalChans svr') = length (MarshalChans svr).
Proof.
  unfold queue. destruct (Parse _) as [[idm|] perr]; [|discriminate].
  destruct (_ =? 0)%Z; [now intros [= <- <- <-]|].
  destruct (_ <? 1); [now intros [= <- <- <-]|].
  destruct (Connections svr !! _) as [conn|].
  - apply queue_write_length.
  - destruct (FIN_WAIT1 <=? _)%Z; [now intros [= <- <- <-]|].
    unfold newConnection. intros H. apply queue_write_length in H. exact H.
Qed.

Lemma endConn_length cookie (svr svr' : Saver) :
  endConn cookie svr = Some svr' ->
  length (MarshalChans svr') = length (MarshalChans svr).
Proof.
  unfold endConn. destruct (_ =? 0); [discriminate|].
  destruct (Connections svr !! cookie) as [conn|]; [|now intros [= <-]].
  destruct (Writer conn) as [r|]; [|now intros [= <-]].
  destruct (send _ _ svr) as [svr1|] eqn:Hs1; [|discriminate].
  apply send_length in Hs1. now intros [= <-].
Qed.

Lemma swapAndQueue_length pm (svr : Saver) w svr' w' :
  swapAndQueue pm svr w = Some (svr', w') ->
  length (MarshalChans svr') = length (MarshalChans svr).
Proof.
  unfold swapAndQueue. simpl.
  destruct (cache_Update _ pm) as [c [old err]].
  destruct err as [e|]; [now intros [= <- <-]|].
  destruct old as [old|].
  - destruct (Parse (Netlink.RawIDM old)) as [oldIDM err1].
    destruct err1 as [e|]; [now intros [= <- <-]|].
    destruct (Parse (Netlink.RawIDM pm)) as [pmIDM err2].
    destruct err2 as [e|]; [now intros [= <- <-]|].
    destruct oldIDM as [o|]; [|discriminate].
    destruct pmIDM as [p|]; [|discriminate].
    destruct (ar_Compare pm old) as [change err3].
    destruct err3 as [e|]; [now intros [= <- <-]|].
    destruct (change >? NoMajorChange)%Z; [|now intros [= <- <-]].
    destruct (queue pm _ _) as [[[r svr1] w1]|] eqn:Hq; [|discriminate].
    apply queue_length in Hq. now intros [= <- <-].
  - destruct (queue pm _ _) as [[[r svr1] w1]|] eqn:Hq; [|discriminate].
    apply queue_length in Hq. now intros [= <- <-].
Qed.

Lemma handleType_from_length msgs : forall ls lr t (svr : Saver) w ls' lr' svr' w',
  handleType_from ls lr t msgs svr w = Some (ls', lr', svr', w') ->
  length (MarshalChans svr') = length (MarshalChans svr).
Proof.
  induction msgs as [|[msg|] msgs IH]; intros ls lr t svr w ls' lr' svr' w'; simpl.
  - now intros [= <- <- <- <-].
  - destruct (fst (MakeArchivalRecord msg true)) as [ar|]; [|now apply IH].
    destruct (GetStats _) as [s r].
    destruct (swapAndQueue _ svr w) as [[svr1 w1]|] eqn:Hs; [|discriminate].
    apply swapAndQueue_length in Hs. intros H. apply IH in H. congruence.
  - now apply IH.
Qed.

Lemma end_residual_length residual : forall rs rr (svr : Saver) rs' rr' svr',
  end_residual residual rs rr svr = Some (rs', rr', svr') ->
  length (MarshalChans svr') = length (MarshalChans svr).
Proof.
  induction residual as [|[cookie ar] residual IH]; intros rs rr svr rs' rr' svr'; simpl.
  - now intros [= <- <- <-].
  - destruct (GetStats ar) as [s r].
    destruct (endConn cookie svr) as [svr1|] eqn:He; [|discriminate].
    apply endConn_length in He. intros H. apply IH in H. simpl in H. congruence.
Qed.

Lemma loop_body_length loc msgs (svr : Saver) w loc' svr' w' :
  loop_body loc msgs svr w = Some (loc', svr', w') ->
  length (MarshalChans svr') = length (MarshalChans svr).
Proof.
  unfold loop_body, handleType.
  destruct (handleType_from 0 0 _ (V4Messages msgs) svr w) as [[[[s4 r4] svr1] w1]|] eqn:H4;
    [|discriminate].
  apply handleType_from_length in H4.
  destruct (handleType_from 0 0 _ (V6Messages msgs) svr1 w1) as [[[[s6 r6] svr2] w2]|] eqn:H6;
    [|discriminate].
  apply handleType_from_length in H6.
  destruct (cache_EndCycle _) as [c residual].
  destruct (end_residual _ _ _ _) as [[[rs rr] svr3]|] eqn:Hr; [|discriminate].
  apply end_residual_length in Hr. simpl in Hr.
  destruct (report _ _ _ _ _) as [loc2 m].
  intros [= <- <- <-]. congruence.
Qed.

Lemma loop_length blocks : forall loc (svr : Saver) w loc' svr' w',
  loop loc blocks svr w = Some (loc', svr', w') ->
  length (MarshalChans svr') = length (MarshalChans svr).
Proof.
  induction blocks as [|msgs blocks IH]; intros loc svr w loc' svr' w'; simpl.
  - now intros [= <- <- <-].
  - destruct (loop_body loc msgs svr w) as [[[loc1 svr1] w1]|] eqn:Hb; [|discriminate].
    apply loop_body_length in Hb. intros H. apply IH in H. congruence.
Qed.

(** *** Nothing panics while the channels are open *)

Lemma queue_write_returns msg cookie conn (svr : Saver) w :
  all_open svr -> 1 <= length (MarshalChans svr) ->
  exists res svr' w',
    queue_write msg cookie (chan_index svr cookie) conn svr w = Some (res, svr', w').
Proof.
  intros Hopen Hn. pose proof (chan_index_lt svr cookie Hn) as Hq.
  assert (Htail : forall conn0 (svr0 : Saver) w0,
            all_open svr0 -> length (MarshalChans svr0) = length (MarshalChans svr) ->
            exists res svr' w',
              match Rotate conn0 (Host svr0) (Pod svr0) (FileAgeLimit svr0) w0 with
              | None => None
              | Some (conn2, w2, err) =>
                  let svr2 := set_conn cookie conn2 svr0 in
                  match err with
                  | Some e => Some (Some e, svr2, w2)
                  | None =>
                      match send (chan_index svr cookie)
                              (mkTask (Some msg) (Writer conn2)) svr2 with
                      | Some svr3 => Some (None, svr3, w2)
                      | None => None
                      end
                  end
              end = Some (res, svr', w')).
  { intros conn0 svr0 w0 Ho0 Hl0.
    destruct (Rotate_returns conn0 (Host svr0) (Pod svr0) (FileAgeLimit svr0) w0)
      as (conn2 & w2 & err & HR).
    rewrite HR. cbv zeta. destruct err as [e|]; [eauto|].
    destruct (send_open (chan_index svr cookie) (mkTask (Some msg) (Writer conn2))
                (set_conn cookie conn2 svr0)) as (c & svr3 & _ & Hs & _).
    { exact Ho0. }
    { simpl. lia. }
    rewrite Hs. eauto. }
  unfold queue_write.
  destruct (After _ _ && _).
  - destruct (send_open (chan_index svr cookie) (mkTask None (Writer conn)) svr Hopen Hq)
      as (c & svr1 & _ & Hs & _).
    rewrite Hs. apply send_spec in Hs. destruct Hs as (_ & _ & Hl1 & Ho1 & _).
    cbv beta iota. change (Writer (set_Writer conn None)) with (@None WriterRef).
    cbv beta iota. apply Htail; [apply Ho1; exact Hopen|exact Hl1].
  - destruct (Writer conn) as [r|] eqn:Hw.
    + destruct (send_open (chan_index svr cookie) (mkTask (Some msg) (Some r)) svr Hopen Hq)
        as (c & svr3 & _ & Hs & _).
      rewrite Hs. eauto.
    + apply Htail; [exact Hopen|reflexivity].
Qed.

Lemma queue_returns msg (svr : Saver) w :
  all_open svr -> fst (Parse (Netlink.RawIDM msg)) <> None ->
  exists res svr' w', queue msg svr w = Some (res, svr', w').
Proof.
  intros Hopen Hp. unfold queue.
  destruct (Parse _) as [[idm|] perr]; [|now elim Hp].
  destruct (_ =? 0)%Z; [eauto|].
  destruct (Nat.ltb_spec (length (MarshalChans svr)) 1) as [|Hn]; [eauto|].
  fold (chan_index svr (Cookie (InetDiag.ID idm))).
  destruct (Connections svr !! _) as [conn|].
  - now apply queue_write_returns.
  - destruct (FIN_WAIT1 <=? _)%Z; [eauto|].
    unfold newConnection.
    apply (queue_write_returns msg _ _ (set_conn _ _ svr)); assumption.
Qed.

Lemma swapAndQueue_returns pm (svr : Saver) w :
  all_open svr -> (forall raw, fst (Parse raw) <> None) ->
  exists svr' w', swapAndQueue pm svr w = Some (svr', w').
Proof.
  intros Hopen Hp. unfold swapAndQueue. simpl.
  destruct (cache_Update _ pm) as [c [old err]].
  destruct err as [e|]; [eauto|].
  destruct old as [old|].
  - pose proof (Hp (Netlink.RawIDM old)) as Ho. pose proof (Hp (Netlink.RawIDM pm)) as Hm.
    destruct (Parse (Netlink.RawIDM old)) as [oldIDM err1].
    destruct err1 as [e|]; [eauto|].
    destruct (Parse (Netlink.RawIDM pm)) as [pmIDM err2] eqn:Hpm.
    destruct err2 as [e|]; [eauto|].
    destruct oldIDM as [o|]; [|now elim Ho].
    destruct pmIDM as [p|]; [|now elim Hm].
    destruct (ar_Compare pm old) as [change err3].
    destruct err3 as [e|]; [eauto|].
    destruct (change >? NoMajorChange)%Z; [|eauto].
    match goal with
    | |- context [queue pm ?s ?w0] =>
        destruct (queue_returns pm s w0) as (r & svr1 & w1 & Hq);
          [exact Hopen|apply Hp|rewrite Hq; eauto]
    end.
  - match goal with
    | |- context [queue pm ?s ?w0] =>
        destruct (queue_returns pm s w0) as (r & svr1 & w1 & Hq);
          [exact Hopen|apply Hp|rewrite Hq; eauto]
    end.
Qed.

Lemma handleType_from_returns n0 msgs : forall ls lr t (svr : Saver) w,
  saver_inv n0 svr w -> (forall raw, fst (Parse raw) <> None) ->
  exists ls' lr' svr' w', handleType_from ls lr t msgs svr w = Some (ls', lr', svr', w').
Proof.
  induction msgs as [|[msg|] msgs IH]; intros ls lr t svr w Hinv Hp; simpl.
  - eauto.
  - destruct (fst (MakeArchivalRecord msg true)) as [ar|]; [|now apply IH].
    destruct (GetStats _) as [s r].
    destruct (swapAndQueue_returns (Netlink.set_Timestamp ar t) svr w (proj1 Hinv) Hp)
      as (svr1 & w1 & Hs).
    rewrite Hs. apply swapAndQueue_inv with (n0 := n0) in Hs; [|exact Hinv].
    apply IH; [tauto|exact Hp].
  - now apply IH.
Qed.

Lemma endConn_returns cookie (svr : Saver) :
  all_open svr -> 1 <= length (MarshalChans svr) ->
  exists svr', endConn cookie svr = Some svr'.
Proof.
  intros Hopen Hn. unfold endConn.
  destruct (Nat.eqb_spec (length (MarshalChans svr)) 0) as [|_]; [lia|].
  destruct (Connections svr !! cookie) as [conn|]; [|eauto].
  destruct (Writer conn) as [r|]; [|eauto].
  destruct (send_open (chan_index svr cookie) (mkTask None (Some r)) svr Hopen
              (chan_index_lt svr cookie Hn)) as (c & svr1 & _ & Hs & _).
  fold (chan_index svr cookie). rewrite Hs. eauto.
Qed.

Lemma end_residual_returns n0 residual : forall rs rr (svr : Saver) w,
  saver_inv n0 svr w -> 1 <= length (MarshalChans svr) ->
  exists rs' rr' svr', end_residual residual rs rr svr = Some (rs', rr', svr').
Proof.
  induction residual as [|[cookie ar] residual IH]; intros rs rr svr w Hinv Hn; simpl.
  - eauto.
  - destruct (GetStats ar) as [s r].
    destruct (endConn_returns cookie svr (proj1 Hinv) Hn) as (svr1 & He).
    rewrite He. pose proof (endConn_length _ _ _ He) as Hl.
    apply endConn_inv with (n0 := n0) (w := w) in He; [|exact Hinv].
    apply (IH _ _ _ w); [exact He|simpl; lia].
Qed.

Lemma loop_body_returns n0 loc msgs (svr : Saver) w :
  saver_inv n0 svr w -> 1 <= length (MarshalChans svr) ->
  (forall raw, fst (Parse raw) <> None) ->
  exists loc' svr' w', loop_body loc msgs svr w = Some (loc', svr', w').
Proof.
  intros Hinv Hn Hp. unfold loop_body, handleType.
  destruct (handleType_from_returns n0 (V4Messages msgs) 0%Z 0%Z (V4Time msgs) svr w Hinv Hp)
    as (s4 & r4 & svr1 & w1 & H4).
  rewrite H4. pose proof (handleType_from_length _ _ _ _ _ _ _ _ _ _ H4) as Hl1.
  apply handleType_from_inv with (n0 := n0) in H4; [|exact Hinv].
  destruct H4 as [Hinv1 _].
  destruct (handleType_from_returns n0 (V6Messages msgs) 0%Z 0%Z (V6Time msgs) svr1 w1 Hinv1 Hp)
    as (s6 & r6 & svr2 & w2 & H6).
  rewrite H6. pose proof (handleType_from_length _ _ _ _ _ _ _ _ _ _ H6) as Hl2.
  apply handleType_from_inv with (n0 := n0) in H6; [|exact Hinv1].
  destruct H6 as [Hinv2 _].
  destruct (cache_EndCycle _) as [c residual].
  destruct (end_residual_returns n0 residual 0%Z 0%Z (set_cache svr2 c) w2)
    as (rs & rr & svr3 & Hr); [exact Hinv2|simpl; lia|].
  rewrite Hr. destruct (report _ _ _ _ _) as [loc2 m]. eauto.
Qed.

Lemma loop_returns n0 blocks : forall loc (svr : Saver) w,
  saver_inv n0 svr w -> 1 <= length (MarshalChans svr) ->
  (forall raw, fst (Parse raw) <> None) ->
  exists loc' svr' w', loop loc blocks svr w = Some (loc', svr', w').
Proof.
  induction blocks as [|msgs blocks IH]; intros loc svr w Hinv Hn Hp; simpl.
  - eauto.
  - destruct (loop_body_returns n0 loc msgs svr w Hinv Hn Hp) as (loc1 & svr1 & w1 & Hb).
    rewrite Hb. pose proof (loop_body_length _ _ _ _ _ _ _ Hb) as Hl.
    apply loop_body_inv with (n0 := n0) in Hb; [|exact Hinv].
    apply IH; [tauto|lia|exact Hp].
Qed.

(** *** [Close] *)

Lemma endConn_conns cookie (svr svr' : Saver) :
  endConn cookie svr = Some svr' ->
  (forall c conn, Connections svr' !! c = Some conn -> Connections svr !! c = Some conn) /\
  (forall conn, Connections svr' !! cookie = Some conn -> Writer conn = None).
Proof.
  unfold endConn. destruct (_ =? 0); [discriminate|].
  destruct (Connections svr !! cookie) as [conn|] eqn:Hl.
  - destruct (Writer conn) as [r|] eqn:Hw.
    + destruct (send _ _ svr) as [svr1|] eqn:Hs1; [|discriminate].
      apply send_spec in Hs1. destruct Hs1 as (_ & Hc1 & _).
      intros [= <-]. simpl. rewrite Hc1. split.
      * intros c conn0 H. apply lookup_delete_Some in H. tauto.
      * intros conn0. rewrite lookup_delete_eq. discriminate.
    + intros [= <-]. split; [auto|]. intros conn0 H. congruence.
  - intros [= <-]. split; [auto|]. intros conn0 H. congruence.
Qed.

Lemma endConn_all_spec n0 cookies : forall (svr svr' : Saver) w,
  saver_inv n0 svr w -> endConn_all cookies svr = Some svr' ->
  saver_inv n0 svr' w /\
  length (MarshalChans svr') = length (MarshalChans svr) /\
  (forall c conn, Connections svr' !! c = Some conn -> Connections svr !! c = Some conn) /\
  (forall c conn, In c cookies -> Connections svr' !! c = Some conn -> Writer conn = None).
Proof.
  induction cookies as [|k cookies IH]; intros svr svr' w Hinv; simpl.
  - intros [= <-]. split; [exact Hinv|]. split; [reflexivity|]. split; [auto|].
    intros c conn [].
  - destruct (endConn k svr) as [svr1|] eqn:He; [|discriminate].
    pose proof (endConn_length _ _ _ He) as Hl1.
    pose proof (endConn_conns _ _ _ He) as [Hsub1 Hk].
    apply endConn_inv with (n0 := n0) (w := w) in He; [|exact Hinv].
    intros H. destruct (IH _ _ w He H) as (Hinv' & Hl' & Hsub & Hnil).
    split; [exact Hinv'|]. split; [lia|]. split; [auto|].
    intros c conn [<-|Hin] Hc; [|eauto].
    apply Hk. auto.
Qed.

Lemma endConn_all_returns n0 cookies : forall (svr : Saver) w,
  saver_inv n0 svr w -> 1 <= length (MarshalChans svr) ->
  exists svr', endConn_all cookies svr = Some svr'.
Proof.
  induction cookies as [|k cookies IH]; intros svr w Hinv Hn; simpl; [eauto|].
  destruct (endConn_returns k svr (proj1 Hinv) Hn) as (svr1 & He).
  rewrite He. pose proof (endConn_length _ _ _ He) as Hl1.
  apply endConn_inv with (n0 := n0) (w := w) in He; [|exact Hinv].
  apply (IH _ w); [exact He|lia].
Qed.

Lemma chan_tasks_closed (svr : Saver) (i : nat) :
  chan_tasks (set_chans svr (map (fun c => mkChan (ch_sent c) true) (MarshalChans svr))) i
  = chan_tasks svr i.
Proof.
  unfold chan_tasks. simpl. rewrite nth_error_map.
  destruct (nth_error (MarshalChans svr) i); reflexivity.
Qed.

Lemma Close_spec n0 (svr svr' : Saver) w :
  saver_inv n0 svr w -> Close svr = Some svr' ->
  chans_inv n0 svr' w /\
  length (MarshalChans svr') = length (MarshalChans svr) /\
  (forall c, In c (MarshalChans svr') -> ch_closed c = true) /\
  (forall c conn, Connections svr' !! c = Some conn -> Writer conn = None).
Proof.
  intros Hinv. unfold Close.
  destruct (endConn_all _ svr) as [svr1|] eqn:He; [|discriminate].
  destruct (endConn_all_spec n0 _ _ _ w Hinv He) as ([_ Hinv1] & Hl1 & Hsub & Hnil).
  intros [= <-].
  assert (Hall : forall c conn, Connections svr1 !! c = Some conn -> Writer conn = None).
  { intros c conn Hc. apply (Hnil c conn); [|exact Hc].
    apply Hsub in Hc. apply in_map_iff. exists (c, conn). split; [reflexivity|].
    apply list_elem_of_In, elem_of_map_to_list. exact Hc. }
  split; [|split; [|split]].
  - apply (inv_conns n0 svr1 _ w w 0%Z Hinv1); auto.
    + intros i. apply chan_tasks_closed.
    + simpl. apply length_map.
    + intros conn0 H0. eauto.
    + intros conn' r' Hc Hw'. simpl in Hc. rewrite (Hall _ _ Hc) in Hw'. discriminate.
    + intros r' Hr. lia.
  - simpl. rewrite length_map. exact Hl1.
  - simpl. intros c Hin. apply in_map_iff in Hin. destruct Hin as (c0 & <- & _). reflexivity.
  - exact Hall.
Qed.

Lemma Close_returns n0 (svr : Saver) w :
  saver_inv n0 svr w -> 1 <= length (MarshalChans svr) ->
  exists svr', Close svr = Some svr'.
Proof.
  intros Hinv Hn. unfold Close.
  destruct (endConn_all_returns n0 (map fst (map_to_list (Connections svr))) svr w Hinv Hn)
    as (svr1 & He).
  rewrite He. eauto.
Qed.

(** *** The marshaller *)

Lemma sink_Write_spec (r : WriterRef) (b : string) (w : World) :
  ticks (sink_Write r b w) = ticks w /\ dirs (sink_Write r b w) = dirs w /\
  metrics (sink_Write r b w) = metrics w /\
  length (sinks (sink_Write r b w)) = length (sinks w) /\
  (forall r' s, nth_error (sinks w) r' = Some s ->
     nth_error (sinks (sink_Write r b w)) r'
     = Some (if r' =? r then mkSink (sink_path s) (sink_written s ++ [b]) else s)).
Proof.
  unfold sink_Write. simpl. repeat split.
  - destruct (nth_error (sinks w) r); [apply length_set_nth|reflexivity].
  - intros r' s Hs. destruct (nth_error (sinks w) r) as [s0|] eqn:Hr.
    + rewrite nth_error_set_nth by (apply nth_error_Some; congruence).
      destruct (Nat.eqb_spec r' r) as [->|_]; congruence.
    + destruct (Nat.eqb_spec r' r) as [->|_]; congruence.
Qed.

Lemma runMarshaller_app (a b : list Task) : forall w closed,
  runMarshaller (a ++ b) w closed
  = match runMarshaller a w closed with
    | Some (Done, w1, closed1) => runMarshaller b w1 closed1
    | other => other
    end.
Proof.
  induction a as [|t a IH]; intros w closed; simpl; [reflexivity|].
  destruct (Message t); destruct (Task_Writer t); try reflexivity; apply IH.
Qed.

Lemma runMarshaller_spec (tasks : list Task) : forall w closed,
  (forall t, In t tasks -> Task_Writer t <> None) ->
  exists w',
    runMarshaller tasks w closed = Some (Done, w', closed ++ closes_of tasks) /\
    ticks w' = ticks w /\ dirs w' = dirs w /\ metrics w' = metrics w /\
    length (sinks w') = length (sinks w) /\
    (forall r s, nth_error (sinks w) r = Some s ->
       nth_error (sinks w') r
       = Some (mkSink (sink_path s) (sink_written s ++ lines_for r tasks))).
Proof.
  induction tasks as [|t tasks IH]; intros w closed Hall; simpl.
  - exists w. rewrite app_nil_r. repeat split. intros r [p l] Hs. simpl.
    now rewrite app_nil_r.
  - assert (Hrest : forall x, In x tasks -> Task_Writer x <> None)
      by (intros x Hx; apply Hall; now right).
    pose proof (Hall t (or_introl eq_refl)) as Ht.
    destruct (Task_Writer t) as [r0|] eqn:Hw; [|congruence].
    destruct (Message t) as [msg|] eqn:Hm.
    + set (w1 := sink_Write r0 newline (sink_Write r0 (json_Marshal msg) w)).
      destruct (IH w1 closed Hrest) as (w' & Hrun & Hti & Hdi & Hme & Hlen & Hsinks).
      destruct (sink_Write_spec r0 (json_Marshal msg) w) as (Ht1 & Hd1 & Hm1 & Hl1 & Hs1).
      destruct (sink_Write_spec r0 newline (sink_Write r0 (json_Marshal msg) w))
        as (Ht2 & Hd2 & Hm2 & Hl2 & Hs2).
      exists w'. split; [exact Hrun|].
      split; [unfold w1 in Hti; congruence|].
      split; [unfold w1 in Hdi; congruence|].
      split; [unfold w1 in Hme; congruence|].
      split; [unfold w1 in Hlen; congruence|].
      intros r s Hs. pose proof (Hs2 _ _ (Hs1 _ _ Hs)) as Hs'.
      rewrite (Hsinks r _ Hs').
      destruct (Nat.eqb_spec r r0) as [->|Hne].
      * rewrite Nat.eqb_refl. simpl. now rewrite <- !app_assoc.
      * destruct (Nat.eqb_spec r0 r) as [->|_]; [congruence|]. now destruct s.
    + destruct (IH w (closed ++ [r0]) Hrest) as (w' & Hrun & Hrest').
      exists w'. split; [|exact Hrest'].
      rewrite Hrun. now rewrite <- app_assoc.
Qed.

(** X21.  Run on the tasks of a channel whose tasks all carry a writer,
    [runMarshaller] ends with [wg.Done()] after it has written, to each
    sink, the marshalled records of the tasks that name the sink, each
    followed by a newline, in the order of the tasks, and has called [Close]
    on the writers of the close tasks, in order; it touches nothing else. *)
Theorem runMarshaller_writes_in_order (tasks : list Task) (w : World)
    (closed : list WriterRef) :
  (forall t, In t tasks -> Task_Writer t <> None) ->
  exists w',
    runMarshaller tasks w closed = Some (Done, w', closed ++ closes_of tasks) /\
    ticks w' = ticks w /\ dirs w' = dirs w /\ metrics w' = metrics w /\
    length (sinks w') = length (sinks w) /\
    (forall r s, nth_error (sinks w) r = Some s ->
       nth_error (sinks w') r
       = Some (mkSink (sink_path s) (sink_written s ++ lines_for r tasks))).
Proof.
  apply runMarshaller_spec.
Qed.

(** X22.  The first task without a writer ends the marshaller: a record task
    ends the process by [log.Fatal], after the tasks before it have been
    carried out and with the tasks after it left undone; a close task
    panics on the nil writer. *)
Theorem runMarshaller_nil_writer (pre : list Task) (t : Task) (post : list Task)
    (w : World) (closed : list WriterRef) :
  (forall x, In x pre -> Task_Writer x <> None) ->
  Task_Writer t = None ->
  exists w1,
    runMarshaller pre w closed = Some (Done, w1, closed ++ closes_of pre) /\
    runMarshaller (pre ++ t :: post) w closed
    = match Message t with
      | Some _ => Some (Fatal, w1, closed ++ closes_of pre)
      | None => None
      end.
Proof.
  intros Hpre Ht.
  destruct (runMarshaller_spec pre w closed Hpre) as (w1 & Hrun & _).
  exists w1. split; [exact Hrun|].
  rewrite runMarshaller_app, Hrun. simpl. rewrite Ht.
  destruct (Message t); reflexivity.
Qed.

(** *** What the loop keeps and what it leaves behind *)

(** X18.  The loop keeps the invariant of the saver, whatever records it is fed:
    no channel is closed; every task carries the writer of an opened file;
    no task names a writer after a close task for it; all tasks for one
    writer are on one channel, that of the connection's cookie; no two
    connections share a writer; every file opened is the writer of a
    connection in the map or has been sent a close task.  On the way the
    loop only opens files: what it wrote to each is the header line, and
    [NewFileCount] counts them. *)
Theorem loop_keeps_saver_inv (n0 : nat) (blocks : list MessageBlock) (loc : Locals)
    (svr : Saver) (w : World) (loc' : Locals) (svr' : Saver) (w' : World) :
  saver_inv n0 svr w ->
  loop loc blocks svr w = Some (loc', svr', w') ->
  saver_inv n0 svr' w' /\ opens_files w w' /\
  length (MarshalChans svr') = length (MarshalChans svr).
Proof.
  intros Hinv Hrun. destruct (loop_inv n0 blocks _ _ _ _ _ _ Hinv Hrun) as [Hi Hw].
  split; [exact Hi|]. split; [exact Hw|]. exact (loop_length _ _ _ _ _ _ _ Hrun).
Qed.

(** X17.  One call of [queue] keeps the invariant of the saver ([saver_inv]: no
    channel closed, every task with the writer of an opened file, no task
    for a writer after its close task, the tasks of a writer on the channel
    of its connection's cookie, no writer shared, every opened file held by
    a connection or sent a close task), and opens at most one file, which
    then holds its header line. *)
Theorem queue_keeps_saver_inv (n0 : nat) (msg : Netlink.ArchivalRecord) (svr : Saver)
    (w : World) (res : option string) (svr' : Saver) (w' : World) :
  saver_inv n0 svr w ->
  queue msg svr w = Some (res, svr', w') ->
  saver_inv n0 svr' w' /\ opens_files w w' /\
  length (sinks w') <= S (length (sinks w)) /\
  length (MarshalChans svr') = length (MarshalChans svr).
Proof.
  intros Hinv Hrun. destruct (queue_inv n0 _ _ _ _ _ _ Hinv Hrun) as [Hi Hw].
  split; [exact Hi|]. split; [exact Hw|]. split; [|exact (queue_length _ _ _ _ _ _ Hrun)].
  revert Hrun. unfold queue. destruct (Parse _) as [[idm|] perr]; [|discriminate].
  destruct (_ =? 0)%Z; [intros [= _ _ <-]; lia|].
  destruct (_ <? 1); [intros [= _ _ <-]; lia|].
  assert (Hqw : forall conn (s : Saver) w0 q,
            queue_write msg (Cookie (InetDiag.ID idm)) q conn s w0 = Some (res, svr', w') ->
            length (sinks w') <= S (length (sinks w0))).
  { intros conn s w0 q. unfold queue_write.
    destruct (After _ _ && _).
    - destruct (send q _ s) as [s1|]; [|discriminate]. cbv beta iota.
      change (Writer (set_Writer conn None)) with (@None WriterRef). cbv beta iota.
      destruct (Rotate _ _ _ _ _) as [[[c2 w2] err]|] eqn:HR; [|discriminate].
      apply Rotate_world in HR. destruct err as [e|].
      + destruct HR as (_ & Hs & _). intros [= _ _ <-]. rewrite Hs. simpl. lia.
      + destruct HR as (_ & (x & Hs & _) & _).
        destruct (send q _ _); [|discriminate]. intros [= _ _ <-].
        rewrite Hs, length_app. simpl. lia.
    - destruct (Writer conn).
      + destruct (send q _ s); [|discriminate]. intros [= _ _ <-]. simpl. lia.
      + destruct (Rotate _ _ _ _ _) as [[[c2 w2] err]|] eqn:HR; [|discriminate].
        apply Rotate_world in HR. destruct err as [e|].
        * destruct HR as (_ & Hs & _). intros [= _ _ <-]. rewrite Hs. simpl. lia.
        * destruct HR as (_ & (x & Hs & _) & _).
          destruct (send q _ _); [|discriminate]. intros [= _ _ <-].
          rewrite Hs, length_app. simpl. lia. }
  destruct (Connections svr !! _) as [conn|].
  - apply Hqw.
  - destruct (FIN_WAIT1 <=? _)%Z; [intros [= _ _ <-]; lia|].
    unfold newConnection. intros H. apply Hqw in H. exact H.
Qed.

(** X19.  Started on a new saver with at least one marshaller, and with a header
    parser that never returns a nil pointer, [MessageSaverLoop] returns for
    every sequence of blocks: it does not panic. *)
Theorem MessageSaverLoop_returns (host pod : string) (n : Z) (svr : Saver) (w : World)
    (blocks : list MessageBlock) :
  NewSaver host pod n = Some svr ->
  (1 <= n)%Z ->
  (forall raw, fst (Parse raw) <> None) ->
  exists svr' w', MessageSaverLoop blocks svr w = Some (svr', w').
Proof.
  intros Hnew Hn Hp.
  pose proof (NewSaver_inv host pod n svr w Hnew) as Hinv.
  assert (Hlen : 1 <= length (MarshalChans svr)).
  { revert Hnew. unfold NewSaver. destruct (n <? 0)%Z; [discriminate|].
    intros [= <-]. simpl. rewrite repeat_length. lia. }
  unfold MessageSaverLoop.
  destruct (loop_returns _ blocks initial_locals svr w Hinv Hlen Hp)
    as (loc1 & svr1 & w1 & Hloop).
  rewrite Hloop. pose proof (loop_length _ _ _ _ _ _ _ Hloop) as Hl1.
  apply loop_inv with (n0 := length (sinks w)) in Hloop; [|exact Hinv].
  destruct (Close_returns _ svr1 w1 (proj1 Hloop)) as (svr2 & Hc); [lia|].
  rewrite Hc. eauto.
Qed.

(** X20.  When [MessageSaverLoop], started on a new saver, has returned, every
    channel is closed, no connection left in the map has a writer, and
    every file opened during the run has been sent a close task: on one
    channel only, and once. *)
Theorem MessageSaverLoop_closes_files (host pod : string) (n : Z) (svr : Saver)
    (w : World) (blocks : list MessageBlock) (svr' : Saver) (w' : World) :
  NewSaver host pod n = Some svr ->
  MessageSaverLoop blocks svr w = Some (svr', w') ->
  opens_files w w' /\
  (forall c, In c (MarshalChans svr') -> ch_closed c = true) /\
  (forall cookie conn, Connections svr' !! cookie = Some conn -> Writer conn = None) /\
  (forall r, length (sinks w) <= r < length (sinks w') ->
     exists i, In r (closes_of (chan_tasks svr' i)) /\
               forall j, In r (closes_of (chan_tasks svr' j)) -> j = i) /\
  (forall i, List.NoDup (closes_of (chan_tasks svr' i))).
Proof.
  intros Hnew. unfold MessageSaverLoop.
  pose proof (NewSaver_inv host pod n svr w Hnew) as Hinv.
  destruct (loop _ blocks svr w) as [[[loc1 svr1] w1]|] eqn:Hloop; [|discriminate].
  apply loop_inv with (n0 := length (sinks w)) in Hloop; [|exact Hinv].
  destruct Hloop as [Hinv1 Hfiles].
  destruct (Close svr1) as [svr2|] eqn:Hc; [|discriminate].
  intros [= <- <-].
  destruct (Close_spec _ _ _ _ Hinv1 Hc) as (Hci & _ & Hclosed & Hnil).
  destruct Hci as (_ & _ & _ & _ & Hord & _ & Hone & Hacc).
  split; [exact Hfiles|]. split; [exact Hclosed|]. split; [exact Hnil|]. split.
  - intros r Hr. destruct (Hacc r Hr) as [(c & conn & Hl & Hw)|[i Hi]].
    + rewrite (Hnil _ _ Hl) in Hw. discriminate.
    + exists i. split; [exact Hi|]. intros j Hj.
      apply closes_of_In in Hi, Hj.
      destruct Hi as (t1 & H1 & _ & Hw1). destruct Hj as (t2 & H2 & _ & Hw2).
      exact (Hone j i t2 t1 r H2 H1 Hw2 Hw1).
  - intros i. apply ordered_NoDup, Hord.
Qed.

(** X23.  The tasks [MessageSaverLoop] leaves on a channel, run by
    [runMarshaller], end with [wg.Done()]: no task lacks a writer and none
    names a writer that an earlier task closed.  A file opened during the
    run then holds its header line followed by the record lines of the
    tasks of the one channel that names it. *)
Theorem marshallers_finish (host pod : string) (n : Z) (svr : Saver) (w : World)
    (blocks : list MessageBlock) (svr' : Saver) (w' : World) (i : nat) :
  NewSaver host pod n = Some svr ->
  MessageSaverLoop blocks svr w = Some (svr', w') ->
  ordered (chan_tasks svr' i) /\
  exists w1,
    runMarshaller (chan_tasks svr' i) w' [] = Some (Done, w1, closes_of (chan_tasks svr' i)) /\
    length (sinks w1) = length (sinks w') /\
    (forall r, length (sinks w) <= r < length (sinks w') ->
       exists s md,
         nth_error (sinks w1) r = Some s /\
         sink_written s
         = [json_Marshal (Netlink.header_record md); newline]
             ++ lines_for r (chan_tasks svr' i)).
Proof.
  intros Hnew. unfold MessageSaverLoop.
  pose proof (NewSaver_inv host pod n svr w Hnew) as Hinv.
  destruct (loop _ blocks svr w) as [[[loc1 svr1] w1]|] eqn:Hloop; [|discriminate].
  apply loop_inv with (n0 := length (sinks w)) in Hloop; [|exact Hinv].
  destruct Hloop as [Hinv1 Hfiles].
  destruct (Close svr1) as [svr2|] eqn:Hc; [|discriminate].
  intros [= <- <-].
  destruct (Close_spec _ _ _ _ Hinv1 Hc) as (Hci & _ & _ & _).
  destruct Hci as (_ & _ & Htv & _ & Hord & _).
  split; [apply Hord|].
  destruct (runMarshaller_spec (chan_tasks svr2 i) w1 []) as (w2 & Hrun & _ & _ & _ & Hlen & Hs).
  { intros t Hin. destruct (Htv i t Hin) as (r & Hr & _). congruence. }
  exists w2. split; [exact Hrun|]. split; [exact Hlen|].
  intros r Hr. destruct Hfiles as (new & Hsinks & Hhdr & _).
  destruct (nth_error (sinks w1) r) as [s|] eqn:Hnth;
    [|apply nth_error_None in Hnth; lia].
  assert (Hin : In s new).
  { rewrite Hsinks in Hnth. rewrite nth_error_app2 in Hnth by lia.
    eapply nth_error_In; eauto. }
  destruct (Hhdr s Hin) as (md & Hmd).
  eexists _, md. split; [apply (Hs r s Hnth)|]. simpl. now rewrite Hmd.
Qed.

(** *** Single calls of [queue] and [endConn] *)

(** [Rotate] when the directory can be made and the file can be opened. *)
Lemma Rotate_opens conn host pod age w :
  (forall w0 p, MkdirAll w0 p = None) -> (forall w0 p, NewWriter w0 p = None) ->
  exists conn' w',
    Rotate conn host pod age w = Some (conn', w', None) /\
    Writer conn' = Some (length (sinks w)) /\
    Sequence conn' = wrap_int (Sequence conn + 1) /\
    Expiration conn' = (Expiration conn + 10 * Minute)%Z /\
    StartTime conn' = StartTime conn /\ ID conn' = ID conn /\
    sinks w' = sinks w ++
      [mkSink (file_name (Format_date (StartTime conn))
                 (FromCookie (CookieUint64 (ID conn))) (Sequence conn))
         [json_Marshal (Netlink.header_record
                          (Netlink.mkMetadata (FromCookie (CookieUint64 (ID conn)))
                             (Sequence conn) (StartTime conn)));
          newline]] /\
    (NewFileCount (metrics w') = NewFileCount (metrics w) + 1)%Z.
Proof.
  intros Hmk Hnw. unfold Rotate. rewrite Hmk, Hnw. unfold writeHeader. simpl.
  eexists _, _. split; [reflexivity|]. simpl. repeat split.
  unfold sink_Write. simpl.
  rewrite !nth_error_app2 by lia. rewrite Nat.sub_diag. simpl.
  rewrite !set_nth_app_last. simpl.
  rewrite nth_error_app2 by lia. rewrite Nat.sub_diag. simpl.
  rewrite set_nth_app_last. reflexivity.
Qed.

(** X13.  A record for a connection that is in the map with a writer, before the
    expiration of its file: whatever the state in its header, the record
    and the writer are appended to the channel of index cookie mod N, and
    nothing else changes but the clock, which has been read once. *)
Theorem queue_live_connection (msg : Netlink.ArchivalRecord) (svr : Saver) (w : World)
    (idm : InetDiagMsg) (err : option string) (conn : Connection) (r : WriterRef) :
  Parse (Netlink.RawIDM msg) = (Some idm, err) ->
  Cookie (InetDiag.ID idm) <> 0%Z ->
  Connections svr !! Cookie (InetDiag.ID idm) = Some conn ->
  Writer conn = Some r ->
  After (Now (ticks w)) (Expiration conn) = false ->
  1 <= length (MarshalChans svr) ->
  all_open svr ->
  exists c,
    nth_error (MarshalChans svr) (chan_index svr (Cookie (InetDiag.ID idm))) = Some c /\
    queue msg svr w
    = Some (None,
            set_chans svr
              (Mem.set_nth (MarshalChans svr) (chan_index svr (Cookie (InetDiag.ID idm)))
                 (mkChan (ch_sent c ++ [mkTask (Some msg) (Some r)]) false)),
            tick w).
Proof.
  intros Hp Hc Hl Hw Hexp Hn Hopen. unfold queue. rewrite Hp.
  destruct (Z.eqb_spec (Cookie (InetDiag.ID idm)) 0) as [|_]; [contradiction|].
  destruct (Nat.ltb_spec (length (MarshalChans svr)) 1) as [|_]; [lia|].
  rewrite Hl. unfold queue_write. rewrite Hexp. cbn [andb]. rewrite Hw.
  fold (chan_index svr (Cookie (InetDiag.ID idm))).
  destruct (send_open (chan_index svr (Cookie (InetDiag.ID idm)))
              (mkTask (Some msg) (Some r)) svr Hopen
              (chan_index_lt svr _ Hn)) as (c & svr3 & Hch & Hs & Heq).
  rewrite Hs. exists c. split; [exact Hch|]. now rewrite Heq.
Qed.

(** X14.  A record for a connection whose file has expired, when the next file
    can be opened: the channel of the cookie gets a close task for the old
    writer and then the record with the new writer; the new file is named
    with the sequence number the connection had and holds the header line;
    the connection's sequence number is one more, and its expiration is ten
    minutes after the old expiration (not after the present time). *)
Theorem queue_rotates_expired (msg : Netlink.ArchivalRecord) (svr : Saver) (w : World)
    (idm : InetDiagMsg) (err : option string) (conn : Connection) (r : WriterRef) :
  Parse (Netlink.RawIDM msg) = (Some idm, err) ->
  Cookie (InetDiag.ID idm) <> 0%Z ->
  Connections svr !! Cookie (InetDiag.ID idm) = Some conn ->
  Writer conn = Some r ->
  After (Now (ticks w)) (Expiration conn) = true ->
  (forall w0 p, MkdirAll w0 p = None) ->
  (forall w0 p, NewWriter w0 p = None) ->
  1 <= length (MarshalChans svr) ->
  all_open svr ->
  exists svr' w' conn',
    queue msg svr w = Some (None, svr', w') /\
    (forall i, chan_tasks svr' i
               = if i =? chan_index svr (Cookie (InetDiag.ID idm))
                 then chan_tasks svr i
                        ++ [mkTask None (Some r);
                            mkTask (Some msg) (Some (length (sinks w)))]
                 else chan_tasks svr i) /\
    Connections svr' = <[Cookie (InetDiag.ID idm) := conn']> (Connections svr) /\
    Writer conn' = Some (length (sinks w)) /\
    Sequence conn' = wrap_int (Sequence conn + 1) /\
    Expiration conn' = (Expiration conn + 10 * Minute)%Z /\
    StartTime conn' = StartTime conn /\
    sinks w' = sinks w ++
      [mkSink (file_name (Format_date (StartTime conn))
                 (FromCookie (CookieUint64 (ID conn))) (Sequence conn))
         [json_Marshal (Netlink.header_record
                          (Netlink.mkMetadata (FromCookie (CookieUint64 (ID conn)))
                             (Sequence conn) (StartTime conn)));
          newline]].
Proof.
  intros Hp Hc Hl Hw Hexp Hmk Hnw Hn Hopen. unfold queue. rewrite Hp.
  destruct (Z.eqb_spec (Cookie (InetDiag.ID idm)) 0) as [|_]; [contradiction|].
  destruct (Nat.ltb_spec (length (MarshalChans svr)) 1) as [|_]; [lia|].
  rewrite Hl. unfold queue_write. rewrite Hexp, Hw.
  rewrite bool_decide_eq_true_2 by discriminate. cbn [andb].
  fold (chan_index svr (Cookie (InetDiag.ID idm))).
  set (cookie := Cookie (InetDiag.ID idm)) in *.
  destruct (send_open (chan_index svr cookie) (mkTask None (Some r)) svr Hopen
              (chan_index_lt svr _ Hn)) as (c & svr1 & _ & Hs1 & _).
  rewrite Hs1. apply send_spec in Hs1.
  destruct Hs1 as (Ht1 & Hc1 & Hl1 & Ho1 & _ & Hh1 & Hp1 & Ha1).
  cbv beta iota. change (Writer (set_Writer conn None)) with (@None WriterRef).
  cbv beta iota.
  destruct (Rotate_opens (set_Writer conn None)
              (Host (set_conn cookie (set_Writer conn None) svr1))
              (Pod (set_conn cookie (set_Writer conn None) svr1))
              (FileAgeLimit (set_conn cookie (set_Writer conn None) svr1))
              (tick w) Hmk Hnw)
    as (conn2 & w2 & HR & Hw2 & Hq2 & He2 & Hst2 & Hid2 & Hs2 & _).
  rewrite HR. cbv zeta beta iota.
  destruct (send_open (chan_index svr cookie) (mkTask (Some msg) (Writer conn2))
              (set_conn cookie conn2 (set_conn cookie (set_Writer conn None) svr1)))
    as (c3 & svr3 & _ & Hs3 & _).
  { apply Ho1, Hopen. }
  { simpl. rewrite Hl1. now apply chan_index_lt. }
  rewrite Hs3. apply send_spec in Hs3. destruct Hs3 as (Ht3 & Hc3 & _).
  exists svr3, w2, conn2. split; [reflexivity|]. split; [|split].
  - intros i. rewrite Ht3.
    destruct (Nat.eqb_spec i (chan_index svr cookie)) as [->|Hne].
    + unfold chan_tasks at 1. simpl. fold (chan_tasks svr1 (chan_index svr cookie)).
      rewrite Ht1, Nat.eqb_refl, Hw2, <- app_assoc. reflexivity.
    + unfold chan_tasks at 1. simpl. fold (chan_tasks svr1 i).
      rewrite Ht1. destruct (Nat.eqb_spec i (chan_index svr cookie)); [contradiction|].
      reflexivity.
  - rewrite Hc3. simpl. rewrite Hc1. apply insert_insert_eq.
  - auto 10.
Qed.

(** X15.  A record for an unseen connection when no file can be opened: [queue]
    returns the error of [zstd.NewWriter]; nothing is sent to any channel
    and no file is counted, but the connection is now in the map, without a
    writer and with sequence number 0, so that the next record for it
    tries again. *)
Theorem queue_open_failure (msg : Netlink.ArchivalRecord) (svr : Saver) (w : World)
    (idm : InetDiagMsg) (err : option string) (e : string) :
  Parse (Netlink.RawIDM msg) = (Some idm, err) ->
  Cookie (InetDiag.ID idm) <> 0%Z ->
  Connections svr !! Cookie (InetDiag.ID idm) = None ->
  (IDiagState idm < FIN_WAIT1)%Z ->
  (forall w0 p, MkdirAll w0 p = None) ->
  (forall w0 p, NewWriter w0 p = Some e) ->
  1 <= length (MarshalChans svr) ->
  exists svr' w' conn',
    queue msg svr w = Some (Some e, svr', w') /\
    MarshalChans svr' = MarshalChans svr /\
    Connections svr' = <[Cookie (InetDiag.ID idm) := conn']> (Connections svr) /\
    Writer conn' = None /\ Sequence conn' = 0%Z /\
    StartTime conn' = Netlink.Timestamp msg /\
    sinks w' = sinks w /\ metrics w' = metrics w.
Proof.
  intros Hp Hc Hl Hst Hmk Hnw Hn. unfold queue. rewrite Hp.
  destruct (Z.eqb_spec (Cookie (InetDiag.ID idm)) 0) as [|_]; [contradiction|].
  destruct (Nat.ltb_spec (length (MarshalChans svr)) 1) as [|_]; [lia|].
  rewrite Hl. destruct (Z.leb_spec FIN_WAIT1 (IDiagState idm)) as [|_]; [lia|].
  unfold newConnection, queue_write. cbn [Writer].
  rewrite bool_decide_eq_false_2 by (intros H; now apply H).
  rewrite andb_false_r. cbv beta iota.
  unfold Rotate. rewrite Hmk, Hnw. cbv beta iota zeta.
  eexists _, _, _. split; [reflexivity|]. simpl.
  split; [reflexivity|]. split; [apply insert_insert_eq|]. auto.
Qed.

(** X16.  [endConn] indexes the channels before it looks the cookie up: on a
    saver without marshallers it panics for every cookie (the remainder by
    zero), and with marshallers it leaves the saver as it is for a cookie
    that is not in the map. *)
Theorem endConn_unknown_cookie (svr : Saver) (cookie : Z) :
  (length (MarshalChans svr) = 0 -> endConn cookie svr = None) /\
  (1 <= length (MarshalChans svr) -> Connections svr !! cookie = None ->
   endConn cookie svr = Some svr).
Proof.
  unfold endConn. split.
  - intros ->. reflexivity.
  - intros Hn Hl. destruct (Nat.eqb_spec (length (MarshalChans svr)) 0) as [|_]; [lia|].
    now rewrite Hl.
Qed.

End ChannelFacts.

(** ** The snapshot counter *)
Section SnapshotFacts.
Import InetDiag Saver.
Context `{E : Externals}.
Local Open Scope Z_scope.

Lemma Rotate_snapshot conn host pod age w conn' w' err :
  Rotate conn host pod age w = Some (conn', w', err) ->
  SnapshotCount (metrics w') = SnapshotCount (metrics w).
Proof.
  unfold Rotate.
  destruct (MkdirAll w _) as [e|]; [now intros [= <- <- <-]|].
  destruct (NewWriter _ _) as [e|]; [now intros [= <- <- <-]|].
  unfold writeHeader. simpl. now intros [= <- <- <-].
Qed.

Lemma queue_write_snapshot msg cookie q conn (svr : Saver) w res svr' w' :
  queue_write msg cookie q conn svr w = Some (res, svr', w') ->
  SnapshotCount (metrics w') = SnapshotCount (metrics w).
Proof.
  unfold queue_write.
  destruct (After _ _ && _).
  - destruct (send q _ svr) as [svr1|]; [|discriminate]. simpl.
    destruct (Rotate _ _ _ _ _) as [[[conn2 w2] err]|] eqn:HR; [|discriminate].
    apply Rotate_snapshot in HR. simpl in HR.
    destruct err as [e|]; [now intros [= <- <- <-]|].
    destruct (send q _ _) as [svr3|]; [|discriminate]. now intros [= <- <- <-].
  - destruct (Writer conn) as [wr|].
    + destruct (send q _ svr) as [svr3|]; [|discriminate]. now intros [= <- <- <-].
    + destruct (Rotate _ _ _ _ _) as [[[conn2 w2] err]|] eqn:HR; [|discriminate].
      apply Rotate_snapshot in HR. simpl in HR.
      destruct err as [e|]; [now intros [= <- <- <-]|].
      destruct (send q _ _) as [svr3|]; [|discriminate]. now intros [= <- <- <-].
Qed.

Lemma queue_snapshot msg (svr : Saver) w res svr' w' :
  queue msg svr w = Some (res, svr', w') ->
  SnapshotCount (metrics w') = SnapshotCount (metrics w).
Proof.
  unfold queue. destruct (Parse _) as [[idm|] perr]; [|discriminate].
  destruct (_ =? 0); [now intros [= <- <- <-]|].
  destruct (_ <? 1)%nat; [now intros [= <- <- <-]|].
  destruct (Connections svr !! _) as [conn|].
  - apply queue_write_snapshot.
  - destruct (FIN_WAIT1 <=? _); [now intros [= <- <- <-]|].
    unfold newConnection. intros H. apply queue_write_snapshot in H. exact H.
Qed.

(** One call of [swapAndQueue]: the snapshot counter moves with the new
    and the diff count. *)
Lemma swapAndQueue_snapshot pm (svr : Saver) w svr' w' :
  swapAndQueue pm svr w = Some (svr', w') ->
  (SnapshotCount (metrics w') = SnapshotCount (metrics w) /\
   NewCount (svr_stats svr') = NewCount (svr_stats svr) /\
   DiffCount (svr_stats svr') = DiffCount (svr_stats svr)) \/
  (SnapshotCount (metrics w') = SnapshotCount (metrics w) + 1 /\
   NewCount (svr_stats svr') = wrap_int (NewCount (svr_stats svr) + 1) /\
   DiffCount (svr_stats svr') = DiffCount (svr_stats svr)) \/
  (SnapshotCount (metrics w') = SnapshotCount (metrics w) + 1 /\
   NewCount (svr_stats svr') = NewCount (svr_stats svr) /\
   DiffCount (svr_stats svr') = wrap_int (DiffCount (svr_stats svr) + 1)).
Proof.
  unfold swapAndQueue. simpl.
  destruct (cache_Update _ pm) as [c [old err]].
  destruct err as [e|]; [intros [= <- <-]; simpl; tauto|].
  destruct old as [old|].
  - destruct (Parse (Netlink.RawIDM old)) as [oldIDM err1].
    destruct err1 as [e|]; [intros [= <- <-]; simpl; tauto|].
    destruct (Parse (Netlink.RawIDM pm)) as [pmIDM err2].
    destruct err2 as [e|]; [intros [= <- <-]; simpl; tauto|].
    destruct oldIDM as [o|]; [|discriminate].
    destruct pmIDM as [p|]; [|discriminate].
    destruct (ar_Compare pm old) as [change err3].
    destruct err3 as [e|]; [intros [= <- <-]; simpl; tauto|].
    destruct (change >? NoMajorChange); [|intros [= <- <-]; simpl; tauto].
    destruct (queue pm _ _) as [[[r svr1] w1]|] eqn:Hq; [|discriminate].
    pose proof (queue_snapshot _ _ _ _ _ _ Hq) as Hsn.
    apply queue_frame in Hq. destruct Hq as [Hs _]. intros [= <- <-].
    rewrite Hs, Hsn. simpl. tauto.
  - destruct (queue pm _ _) as [[[r svr1] w1]|] eqn:Hq; [|discriminate].
    pose proof (queue_snapshot _ _ _ _ _ _ Hq) as Hsn.
    apply queue_frame in Hq. destruct Hq as [Hs _]. intros [= <- <-].
    rewrite Hs, Hsn. simpl. tauto.
Qed.

(** X24.  Over a sequence of [swapAndQueue] calls the Prometheus counter
    [SnapshotCount] grows by what [NewCount] and [DiffCount] grow together,
    as long as these do not overflow: a snapshot is counted for the records
    that are new or differ, and for no other, whether or not [queue] then
    writes them. *)
Theorem swapAndQueue_snapshot_count (pms : list Netlink.ArchivalRecord) (svr : Saver)
    (w : World) (svr' : Saver) (w' : World) :
  swapAndQueue_all pms svr w = Some (svr', w') ->
  0 <= NewCount (svr_stats svr) ->
  0 <= DiffCount (svr_stats svr) ->
  NewCount (svr_stats svr) + DiffCount (svr_stats svr) + Z.of_nat (length pms) < 2 ^ 63 ->
  SnapshotCount (metrics w') - SnapshotCount (metrics w)
  = (NewCount (svr_stats svr') - NewCount (svr_stats svr))
    + (DiffCount (svr_stats svr') - DiffCount (svr_stats svr)) /\
  0 <= SnapshotCount (metrics w') - SnapshotCount (metrics w) <= Z.of_nat (length pms).
Proof.
  revert svr w. induction pms as [|pm pms IH]; intros svr w Hrun HN HD HB.
  - simpl in Hrun. injection Hrun as <- <-. simpl. lia.
  - simpl in Hrun.
    destruct (swapAndQueue pm svr w) as [[svr1 w1]|] eqn:Hstep; [|discriminate].
    apply swapAndQueue_snapshot in Hstep.
    cbn [length] in HB. rewrite Nat2Z.inj_succ in HB.
    assert (Hcases :
      (SnapshotCount (metrics w1) = SnapshotCount (metrics w) /\
       NewCount (svr_stats svr1) = NewCount (svr_stats svr) /\
       DiffCount (svr_stats svr1) = DiffCount (svr_stats svr)) \/
      (SnapshotCount (metrics w1) = SnapshotCount (metrics w) + 1 /\
       NewCount (svr_stats svr1) = NewCount (svr_stats svr) + 1 /\
       DiffCount (svr_stats svr1) = DiffCount (svr_stats svr)) \/
      (SnapshotCount (metrics w1) = SnapshotCount (metrics w) + 1 /\
       NewCount (svr_stats svr1) = NewCount (svr_stats svr) /\
       DiffCount (svr_stats svr1) = DiffCount (svr_stats svr) + 1)).
    { destruct Hstep as [H|[(Hs & Hn & Hd)|(Hs & Hn & Hd)]]; [now left| |].
      - right; left. rewrite wrap_int_succ in Hn by lia. auto.
      - right; right. rewrite wrap_int_succ in Hd by lia. auto. }
    destruct (IH svr1 w1 Hrun) as [Heq Hrng]; [lia|lia|lia|].
    cbn [length]. rewrite Nat2Z.inj_succ. lia.
Qed.

End SnapshotFacts.

Section SnapshotRuns.
Import InetDiag Saver Fixture.
Local Open Scope Z_scope.

(** One scan over a saver whose cache knows cookie 7: of the three records
    one differs and one is new. *)
Lemma swapAndQueue_snapshot_count_witness :
  exists svr' w',
    @swapAndQueue_all ext scan saver_cached world0 = Some (svr', w') /\
    SnapshotCount (metrics w')
    = NewCount (@svr_stats ext svr') + DiffCount (@svr_stats ext svr') /\
    SnapshotCount (metrics w') <= 3.
Proof.
  assert (Hruns : match @swapAndQueue_all ext scan saver_cached world0 with
                  | Some _ => true
                  | None => false
                  end = true) by (vm_compute; reflexivity).
  destruct (@swapAndQueue_all ext scan saver_cached world0) as [[svr' w']|] eqn:Hrun;
    [|discriminate Hruns].
  exists svr', w'. split; [reflexivity|].
  pose proof (@swapAndQueue_snapshot_count ext scan saver_cached world0 svr' w' Hrun
                ltac:(vm_compute; discriminate) ltac:(vm_compute; discriminate)
                ltac:(vm_compute; reflexivity)) as [Heq Hrng].
  change (SnapshotCount (metrics world0)) with 0 in Heq, Hrng.
  change (NewCount (@svr_stats ext saver_cached)) with 0 in Heq.
  change (DiffCount (@svr_stats ext saver_cached)) with 0 in Heq.
  simpl length in Hrng. split; lia.
Defined.

End SnapshotRuns.

(** ** Runs of the differ and the decoders *)
Section MoreRuns.
Import GoLayout Mem TcpInfo InetDiag Differ DifferSpec Attr Fixture Scenario.

(** The congestion attribute appears in one direction and is gone in the
    other. *)
Lemma Compare_swap_witness :
  Compare (parsed info_zero None None) (parsed info_zero None (Some cubic))
    = Some NewAttribute /\
  Compare (parsed info_zero None (Some cubic)) (parsed info_zero None None)
    = Some LostAttribute.
Proof.
  pose proof (Compare_swap (parsed info_zero None None)
                (parsed info_zero None (Some cubic)) eq_refl) as H.
  split; [reflexivity|]. rewrite H. reflexivity.
Defined.

(** An INFO value of 40 bytes on one side. *)
Lemma Compare_panics_iff_witness :
  Compare (parsed (repeat Byte.x00 40) None None) (parsed info_zero None None) = None.
Proof.
  apply (proj2 (Compare_panics_iff (parsed (repeat Byte.x00 40) None None)
                  (parsed info_zero None None) idm_established idm_established
                  eq_refl eq_refl eq_refl ltac:(vm_compute; lia))).
  split; [reflexivity|].
  eexists _, _. split; [reflexivity|]. split; [reflexivity|].
  left. vm_compute. lia.
Defined.

(** A change of the retransmission timeout. *)
Lemma Compare_header_classes_witness :
  Compare (parsed info_zero None None) (parsed info_rto None None)
    = Some StateOrCounterChange /\
  Compare (parsed info_zero None None) (parsed info_rto None None)
    <> Some PacketCountChange.
Proof.
  destruct (Compare_header_classes (parsed info_zero None None)
              (parsed info_rto None None) idm_established idm_established
              eq_refl eq_refl) as (_ & _ & Hs & Hp).
  split; [|exact Hp]. apply Hs. split; [reflexivity|].
  eexists _, _. split; [reflexivity|]. split; [reflexivity|].
  split; [vm_compute; lia|]. split; [vm_compute; lia|].
  right. vm_compute. discriminate.
Defined.

(** The congestion algorithm changes from cubic to reno. *)
Lemma Compare_attribute_changed_witness :
  Compare (parsed info_zero None (Some cubic)) (parsed info_zero None (Some reno))
    = Some AttributeLength.
Proof.
  refine (proj1 (Compare_attribute_changed
                   (parsed info_zero None (Some cubic))
                   (parsed info_zero None (Some reno))
                   idm_established idm_established _ _ _ _ 4
                   eq_refl eq_refl eq_refl eq_refl eq_refl
                   ltac:(vm_compute; lia) ltac:(vm_compute; lia)
                   eq_refl eq_refl ltac:(vm_compute; lia) _ eq_refl eq_refl) _).
  - intros t Ht Hne. unfold INET_DIAG_INFO in Hne.
    destruct t as [|[|[|[|t]]]]; try lia; exact I.
  - vm_compute. lia.
Defined.

(** The cookie of the established connection of the fixtures. *)
Lemma Cookie_identifies_bytes_witness :
  (0 <= Cookie (InetDiag.ID idm_established) < 2 ^ 64)%Z /\
  Cookie (InetDiag.ID idm_established) <> 0%Z.
Proof.
  destruct (Cookie_identifies_bytes (InetDiag.ID idm_established)
              (InetDiag.ID idm_established) eq_refl eq_refl) as (Hr & Hz & _).
  split; [exact Hr|]. intros H. apply Hz in H. discriminate H.
Defined.

(** Ports 80 and 8080. *)
Lemma ports_network_order_witness :
  SPort (InetDiag.ID idm_established) = 80%Z /\
  DPort (InetDiag.ID idm_established) = 8080%Z.
Proof.
  destruct (ports_network_order (InetDiag.ID idm_established) _ _ _ _ eq_refl eq_refl)
    as (Hs & Hd & _).
  split; [exact Hs|exact Hd].
Defined.

(** The address 10.0.0.1. *)
Lemma ip_keeps_address_witness :
  ip addr_10_0_0_1 = [Byte.x0a; Byte.x00; Byte.x00; Byte.x01] /\
  (ip addr_10_0_0_1 ++ repeat Byte.x00 (16 - length (ip addr_10_0_0_1)) = addr_10_0_0_1)%list.
Proof.
  destruct (ip_keeps_address addr_10_0_0_1 eq_refl) as (_ & H4 & _ & Hrt).
  split; [apply H4; reflexivity|exact Hrt].
Defined.

(** A value of ten bytes. *)
Lemma decoders_view_in_bounds_witness :
  views_value LinuxTCPInfo [repeat Byte.xff 10] (repeat Byte.xff 10)
    (ToLinuxTCPInfo [repeat Byte.xff 10] (mkSlice 0 0 10)) /\
  views_value SocketMemInfo [repeat Byte.xff 10] (repeat Byte.xff 10)
    (ToSockMemInfo [repeat Byte.xff 10] (mkSlice 0 0 10)) /\
  views_value MemInfo [repeat Byte.xff 10] (repeat Byte.xff 10)
    (ToMemInfo [repeat Byte.xff 10] (mkSlice 0 0 10)).
Proof.
  apply (decoders_view_in_bounds [repeat Byte.xff 10] (mkSlice 0 0 10)
           (repeat Byte.xff 10) eq_refl).
Defined.


End MoreRuns.

(** ** Runs of the saver and the marshaller *)
Section MoreSaverRuns.
Import InetDiag Saver Marshaller Fixture Scenario.

Lemma fixture_parse_total : forall raw, fst (@Parse ext raw) <> None.
Proof. intros raw. discriminate. Qed.

(** A record and then a close task for the file of cookie 7. *)
Lemma runMarshaller_writes_in_order_witness :
  exists w',
    @runMarshaller ext [write0; close0] (world_at 1) [] = Some (Done, w', [0]) /\
    nth_error (sinks w') 0
    = Some (mkSink "2019/01/01/host_0_7.00000.jsonl.zst"
              ["{Metadata:host_0_7,0}"%string; newline; "{}"%string; newline]).
Proof.
  destruct (@runMarshaller_writes_in_order ext [write0; close0] (world_at 1) [])
    as (w' & Hrun & _ & _ & _ & _ & Hs).
  { intros t [<-|[<-|[]]]; discriminate. }
  exists w'. split; [exact Hrun|]. apply (Hs 0 _ eq_refl).
Defined.

(** A record task without a writer, after a record task with one. *)
Lemma runMarshaller_nil_writer_witness :
  exists w1,
    @runMarshaller ext [write0; write_nil; close0] (world_at 1) [] = Some (Fatal, w1, []).
Proof.
  destruct (@runMarshaller_nil_writer ext [write0] write_nil [close0] (world_at 1) [])
    as (w1 & _ & Hrun).
  { intros t [<-|[]]; discriminate. }
  { reflexivity. }
  exists w1. exact Hrun.
Defined.

(** Two scan blocks on a new saver with three marshallers. *)
Lemma loop_keeps_saver_inv_witness :
  match @loop ext initial_locals [block1; block2] (new_saver 3) world0 with
  | Some (_, svr', w') =>
      @saver_inv ext 0 svr' w' /\ @opens_files ext world0 w' /\
      length (@MarshalChans ext svr') = 3
  | None => False
  end.
Proof.
  assert (Hchk : match @loop ext initial_locals [block1; block2] (new_saver 3) world0 with
                 | Some _ => true
                 | None => false
                 end = true) by (vm_compute; reflexivity).
  destruct (@loop ext initial_locals [block1; block2] (new_saver 3) world0)
    as [[[loc' svr'] w']|] eqn:Hrun; [|discriminate Hchk].
  apply (@loop_keeps_saver_inv ext 0 [block1; block2] initial_locals (new_saver 3)
           world0 loc' svr' w'); [|exact Hrun].
  apply (@NewSaver_inv ext "mlab1" "abc01" 3 (new_saver 3) world0). reflexivity.
Defined.

(** The first record of the connection of cookie 7. *)
Lemma queue_keeps_saver_inv_witness :
  match @queue ext (record (5 * Second)%Z Byte.x01 [Byte.x07] info_zero)
          (new_saver 3) world0 with
  | Some (_, svr', w') =>
      @saver_inv ext 0 svr' w' /\ @opens_files ext world0 w' /\
      length (sinks w') <= 1 /\ length (@MarshalChans ext svr') = 3
  | None => False
  end.
Proof.
  assert (Hchk : match @queue ext (record (5 * Second)%Z Byte.x01 [Byte.x07] info_zero)
                         (new_saver 3) world0 with
                 | Some _ => true
                 | None => false
                 end = true) by (vm_compute; reflexivity).
  destruct (@queue ext (record (5 * Second)%Z Byte.x01 [Byte.x07] info_zero)
              (new_saver 3) world0) as [[[res svr'] w']|] eqn:Hrun; [|discriminate Hchk].
  apply (@queue_keeps_saver_inv ext 0
           (record (5 * Second)%Z Byte.x01 [Byte.x07] info_zero)
           (new_saver 3) world0 res svr' w'); [|exact Hrun].
  apply (@NewSaver_inv ext "mlab1" "abc01" 3 (new_saver 3) world0). reflexivity.
Defined.

(** Three scan blocks on a new saver with three marshallers. *)
Lemma MessageSaverLoop_returns_witness :
  exists svr' w',
    @MessageSaverLoop ext [block1; block2; block3] (new_saver 3) world0 = Some (svr', w').
Proof.
  apply (@MessageSaverLoop_returns ext "mlab1" "abc01" 3 (new_saver 3) world0
           [block1; block2; block3]).
  - reflexivity.
  - lia.
  - exact fixture_parse_total.
Defined.

(** The file of the connection of cookie 7 is closed on channel 1. *)
Lemma MessageSaverLoop_closes_files_witness :
  match @MessageSaverLoop ext [block1; block2] (new_saver 3) world0 with
  | Some (svr', w') =>
      length (sinks w') = 1 /\
      (forall c, In c (@MarshalChans ext svr') -> ch_closed c = true) /\
      (exists i, In 0 (closes_of (@chan_tasks ext svr' i)) /\
                 forall j, In 0 (closes_of (@chan_tasks ext svr' j)) -> j = i)
  | None => False
  end.
Proof.
  assert (Hchk : match @MessageSaverLoop ext [block1; block2] (new_saver 3) world0 with
                 | Some (_, w') => length (sinks w') =? 1
                 | None => false
                 end = true) by (vm_compute; reflexivity).
  destruct (@MessageSaverLoop ext [block1; block2] (new_saver 3) world0)
    as [[svr' w']|] eqn:Hrun; [|discriminate Hchk].
  apply Nat.eqb_eq in Hchk.
  destruct (@MessageSaverLoop_closes_files ext "mlab1" "abc01" 3 (new_saver 3) world0
              [block1; block2] svr' w' eq_refl Hrun) as (_ & Hcl & _ & Hfiles & _).
  split; [exact Hchk|]. split; [exact Hcl|].
  apply Hfiles. rewrite Hchk. simpl. lia.
Defined.

(** The marshaller of channel 1 after the same run. *)
Lemma marshallers_finish_witness :
  match @MessageSaverLoop ext [block1; block2] (new_saver 3) world0 with
  | Some (svr', w') =>
      exists w1,
        @runMarshaller ext (@chan_tasks ext svr' 1) w' []
        = Some (Done, w1, closes_of (@chan_tasks ext svr' 1))
  | None => False
  end.
Proof.
  assert (Hchk : match @MessageSaverLoop ext [block1; block2] (new_saver 3) world0 with
                 | Some _ => true
                 | None => false
                 end = true) by (vm_compute; reflexivity).
  destruct (@MessageSaverLoop ext [block1; block2] (new_saver 3) world0)
    as [[svr' w']|] eqn:Hrun; [|discriminate Hchk].
  destruct (@marshallers_finish ext "mlab1" "abc01" 3 (new_saver 3) world0
              [block1; block2] svr' w' 1 eq_refl Hrun) as (_ & w1 & Hm & _).
  exists w1. exact Hm.
Defined.

(** A record for the connection of cookie 7 while its file is open: the
    task goes to channel 7 mod 3 = 1. *)
Lemma queue_live_connection_witness :
  @queue ext (record (5 * Second)%Z Byte.x06 [Byte.x07] info_zero)
    (saver_holding conn_rotated) (world_at 1)
  = Some (None,
          set_chans (saver_holding conn_rotated)
            [mkChan [] false;
             mkChan [mkTask (Some (record (5 * Second)%Z Byte.x06 [Byte.x07] info_zero))
                       (Some 0)] false;
             mkChan [] false],
          tick (world_at 1)).
Proof.
  destruct (@queue_live_connection ext
              (record (5 * Second)%Z Byte.x06 [Byte.x07] info_zero)
              (saver_holding conn_rotated) (world_at 1) _ None conn_rotated 0
              eq_refl ltac:(vm_compute; discriminate) eq_refl eq_refl eq_refl
              ltac:(vm_compute; lia) eq_refl) as (c & Hc & Hq).
  injection Hc as <-. exact Hq.
Defined.

(** The same record eleven minutes later: the file is rotated. *)
Lemma queue_rotates_expired_witness :
  exists svr' w' conn',
    @queue ext (record (5 * Second)%Z Byte.x01 [Byte.x07] info_zero)
      (saver_holding conn_rotated) (world_at 700) = Some (None, svr', w') /\
    chan_tasks svr' 1
      = [mkTask None (Some 0);
         mkTask (Some (record (5 * Second)%Z Byte.x01 [Byte.x07] info_zero)) (Some 1)] /\
    Connections svr' !! 7%Z = Some conn' /\
    Sequence conn' = 2%Z /\
    nth_error (sinks w') 1
      = Some (mkSink "2019/01/01/host_0_7.00001.jsonl.zst"
                ["{Metadata:host_0_7,1}"%string; newline]).
Proof.
  destruct (@queue_rotates_expired ext
              (record (5 * Second)%Z Byte.x01 [Byte.x07] info_zero)
              (saver_holding conn_rotated) (world_at 700) _ None conn_rotated 0
              eq_refl ltac:(vm_compute; discriminate) eq_refl eq_refl eq_refl
              ltac:(reflexivity) ltac:(reflexivity)
              ltac:(vm_compute; lia) eq_refl)
    as (svr' & w' & conn' & Hq & Ht & Hc & Hw & Hs & He & Hst & Hsinks).
  exists svr', w', conn'. split; [exact Hq|]. split; [exact (Ht 1)|].
  split; [rewrite Hc; apply lookup_insert_eq|]. split; [exact Hs|].
  rewrite Hsinks. reflexivity.
Defined.

(** The first record of a connection when no file can be opened. *)
Lemma queue_open_failure_witness :
  exists svr' w' conn',
    @queue ext_no_open (record (5 * Second)%Z Byte.x01 [Byte.x07] info_zero)
      saver_no_open world0 = Some (Some "open failed"%string, svr', w') /\
    MarshalChans svr' = repeat (mkChan [] false) 3 /\
    Connections svr' !! 7%Z = Some conn' /\
    Writer conn' = None /\
    sinks w' = [].
Proof.
  destruct (@queue_open_failure ext_no_open
              (record (5 * Second)%Z Byte.x01 [Byte.x07] info_zero)
              saver_no_open world0 _ None "open failed"%string
              eq_refl ltac:(vm_compute; discriminate) eq_refl
              ltac:(vm_compute; reflexivity)
              ltac:(reflexivity) ltac:(reflexivity) ltac:(vm_compute; lia))
    as (svr' & w' & conn' & Hq & Hm & Hc & Hw & _ & _ & Hs & _).
  exists svr', w', conn'. split; [exact Hq|]. split; [exact Hm|].
  split; [rewrite Hc; apply lookup_insert_eq|]. split; [exact Hw|exact Hs].
Defined.

(** Cookie 7 on a saver without marshallers, and on a new saver with
    three. *)
Lemma endConn_unknown_cookie_witness :
  @endConn ext 7 (new_saver 0) = None /\
  @endConn ext 7 (new_saver 3) = Some (new_saver 3).
Proof.
  split.
  - apply (proj1 (@endConn_unknown_cookie ext (new_saver 0) 7)). reflexivity.
  - apply (proj2 (@endConn_unknown_cookie ext (new_saver 3) 7)).
    + vm_compute. lia.
    + reflexivity.
Defined.

End MoreSaverRuns.
